(** * Brisker server: the WebSocket session manager (src/ws.ts)

    A shallow embedding of [WSManager]: the identity pool, the connection
    registry, the presence debouncer, the message router and the directory
    search, as a state machine driven by the events of the Node event loop
    (connection, message, close, timer expiry).

    Conventions of the embedding.
    - A [WebSocket] and the [ClientInfo] allocated with it in [onConnection]
      are one heap cell of [conns]; the cell's index is the identity of both
      objects, so [clients] and [wsToClient] hold indices and every alias of
      a [ClientInfo] sees its mutations.
    - [clients] is a JavaScript [Map] that is iterated, so it is an
      association list in insertion order; the maps and sets that are never
      iterated are [gmap]s and [gset]s.
    - Strings are byte strings; [toLowerCase] and [trim] act on the ASCII
      range.  Numbers carried by messages are integers.
    - [Date.now()] and [Math.random()] are inputs of the events.
    - The write of the identifier file is asynchronous; [Persist] models it
      with the promises, the job queue and the file operations it awaits. *)

From Stdlib Require Import ZArith NArith Ascii String DecimalString Lia.
From stdpp Require Import base option list strings gmap.

Open Scope string_scope.
Open Scope list_scope.
Open Scope stdpp_scope.

(** ** JavaScript strings *)

Module JS.

Definition toString (n : N) : string := NilZero.string_of_uint (N.to_uint n).

Definition isDigit (a : ascii) : bool :=
  let n := Ascii.N_of_ascii a in ((48 <=? n) && (n <=? 57))%N.

(** [/^\d{4}$/.test(s)] *)
Definition is4digit (s : string) : bool :=
  match s with
  | String a (String b (String c (String d EmptyString))) =>
      isDigit a && isDigit b && isDigit c && isDigit d
  | _ => false
  end.

(** [s.startsWith(p)] *)
Definition startsWith (s p : string) : bool := String.prefix p s.

(** [s.includes(t)] *)
Fixpoint includes (s t : string) : bool :=
  String.prefix t s ||
  match s with
  | EmptyString => false
  | String _ s' => includes s' t
  end.

Definition lowerAscii (a : ascii) : ascii :=
  let n := Ascii.N_of_ascii a in
  if ((65 <=? n) && (n <=? 90))%N then Ascii.ascii_of_N (n + 32) else a.

Fixpoint toLowerCase (s : string) : string :=
  match s with
  | EmptyString => EmptyString
  | String a s' => String (lowerAscii a) (toLowerCase s')
  end.

Definition isSpace (a : ascii) : bool :=
  let n := Ascii.N_of_ascii a in ((n =? 32) || ((9 <=? n) && (n <=? 13)))%N.

Fixpoint trimStart (s : string) : string :=
  match s with
  | String a s' => if isSpace a then trimStart s' else s
  | EmptyString => EmptyString
  end.

Fixpoint trimEnd (s : string) : string :=
  match s with
  | EmptyString => EmptyString
  | String a s' =>
      match trimEnd s' with
      | EmptyString => if isSpace a then EmptyString else String a EmptyString
      | t => String a t
      end
  end.

Definition trim (s : string) : string := trimEnd (trimStart s).

(** Truthiness of an optional string: [undefined] and [''] are falsy. *)
Definition truthy (o : option string) : option string :=
  match o with
  | Some EmptyString => None
  | _ => o
  end.

(** [a || b] on optional strings with a string default. *)
Definition orElse (o : option string) (d : string) : string :=
  match truthy o with
  | Some s => s
  | None => d
  end.

End JS.

(** ** Insertion-ordered maps (a JavaScript [Map] that is iterated) *)

Module OMap.
Section OMap.
Context {V : Type}.

Definition t := list (string * V).

Fixpoint get (k : string) (m : t) : option V :=
  match m with
  | [] => None
  | (k', v) :: m' => if String.eqb k k' then Some v else get k m'
  end.

Definition has (k : string) (m : t) : bool :=
  match get k m with Some _ => true | None => false end.

(** [set] keeps the position of an existing key and appends a new one. *)
Fixpoint set (k : string) (v : V) (m : t) : t :=
  match m with
  | [] => [(k, v)]
  | (k', v') :: m' =>
      if String.eqb k k' then (k, v) :: m' else (k', v') :: set k v m'
  end.

Fixpoint delete (k : string) (m : t) : t :=
  match m with
  | [] => []
  | (k', v') :: m' =>
      if String.eqb k k' then delete k m' else (k', v') :: delete k m'
  end.

End OMap.
Arguments t : clear implicits.
End OMap.

(** ** Data model *)

(** [ws.readyState] of a server-side socket. *)
Inductive ReadyState := OPEN | CLOSING | CLOSED.

Record Location := { latitude : option Z; longitude : option Z }.

#[local] Unset Elimination Schemes.
Inductive json :=
| JNull
| JBool (b : bool)
| JNum (z : Z)
| JStr (s : string)
| JArr (l : list json)
| JObj (l : list (string * json)).
#[local] Set Elimination Schemes.

Record LastState := { total : option Z; history : option (list json) }.

(** The directory entry built by [getAllPlayers] and [searchPlayers];
    [x] is the longitude and [y] the latitude. *)
Record PlayerEntry := {
  e_playerID : string;
  e_name : string;
  e_isOnline : bool;
  e_location : option (option Z * option Z)
}.

(** What the server writes to a socket ([ws.send(JSON.stringify ...)]). *)
Inductive ServerEvent :=
| connection_established
| player_id_assigned (playerID : string)
| player_reconnected (playerID : string)
| player_invalid_id (message : string)
| player_name_changed (playerID name : string)
| player_online (playerID : string)
| player_offline (playerID : string)
| game_error (message : string)
| game_auto_joined (opponentID opponentName : string)
| game_opponent_scored (score : Z) (playerID : string)
| game_apply_brisks (briskCount : option Z) (from : string)
| game_opponent_undo (points briskValue : option Z) (from : string)
| game_reset (from : string)
| game_resume (opponentID opponentName : string) (gameState : LastState)
| players_list (players : list PlayerEntry)
| players_search_results (players : list PlayerEntry).

Record ClientInfo := {
  playerID : string;
  name : option string;
  location : option Location;
  opponentID : option string;
  lastState : option LastState
}.

(** One connection: the socket ([readyState], what was sent on it) and its
    [ClientInfo]. *)
Record Conn := {
  readyState : ReadyState;
  outbox : list ServerEvent;
  client : ClientInfo
}.

(** The payload of a client message, with the fields the handlers read. *)
Record Payload := {
  p_name : option string;
  p_playerID : option string;
  p_opponentID : option string;
  p_score : option Z;
  p_briskCount : option Z;
  p_points : option Z;
  p_briskValue : option Z;
  p_searchTerm : option string;
  p_total : option Z;
  p_history : option (list json);
  p_location : option Location;
  p_latitude : option Z;
  p_longitude : option Z
}.

(** A parsed message; a [type] that is not a string is the empty string. *)
Record Message := { type : string; payload : option Payload }.

Record State := {
  conns : list Conn;
  clients : OMap.t nat;
  usedPlayerIDs : gset string;
  wsToClient : gset nat;
  offlineTimers : gmap string nat;
  (** timeouts pending in the event loop: handle to (captured pid, due) *)
  timers : gmap nat (string * Z);
  nextTimer : nat;
  lastOnlineBroadcast : gmap string Z;
  (** number of calls of [saveUsedIDs] *)
  persistRequests : nat
}.

Definition OFFLINE_DEBOUNCE_MS : Z := 2000.
Definition ONLINE_BROADCAST_DEBOUNCE_MS : Z := 1500.

(** ** Field updates *)

Definition with_conns (f : list Conn -> list Conn) (s : State) : State :=
  {| conns := f (conns s); clients := clients s;
     usedPlayerIDs := usedPlayerIDs s; wsToClient := wsToClient s;
     offlineTimers := offlineTimers s; timers := timers s;
     nextTimer := nextTimer s; lastOnlineBroadcast := lastOnlineBroadcast s;
     persistRequests := persistRequests s |}.

Definition with_clients (f : OMap.t nat -> OMap.t nat) (s : State) : State :=
  {| conns := conns s; clients := f (clients s);
     usedPlayerIDs := usedPlayerIDs s; wsToClient := wsToClient s;
     offlineTimers := offlineTimers s; timers := timers s;
     nextTimer := nextTimer s; lastOnlineBroadcast := lastOnlineBroadcast s;
     persistRequests := persistRequests s |}.

Definition with_used (f : gset string -> gset string) (s : State) : State :=
  {| conns := conns s; clients := clients s;
     usedPlayerIDs := f (usedPlayerIDs s); wsToClient := wsToClient s;
     offlineTimers := offlineTimers s; timers := timers s;
     nextTimer := nextTimer s; lastOnlineBroadcast := lastOnlineBroadcast s;
     persistRequests := persistRequests s |}.

Definition with_wsToClient (f : gset nat -> gset nat) (s : State) : State :=
  {| conns := conns s; clients := clients s;
     usedPlayerIDs := usedPlayerIDs s; wsToClient := f (wsToClient s);
     offlineTimers := offlineTimers s; timers := timers s;
     nextTimer := nextTimer s; lastOnlineBroadcast := lastOnlineBroadcast s;
     persistRequests := persistRequests s |}.

Definition with_offlineTimers (f : gmap string nat -> gmap string nat)
    (s : State) : State :=
  {| conns := conns s; clients := clients s;
     usedPlayerIDs := usedPlayerIDs s; wsToClient := wsToClient s;
     offlineTimers := f (offlineTimers s); timers := timers s;
     nextTimer := nextTimer s; lastOnlineBroadcast := lastOnlineBroadcast s;
     persistRequests := persistRequests s |}.

Definition with_timers (f : gmap nat (string * Z) -> gmap nat (string * Z))
    (s : State) : State :=
  {| conns := conns s; clients := clients s;
     usedPlayerIDs := usedPlayerIDs s; wsToClient := wsToClient s;
     offlineTimers := offlineTimers s; timers := f (timers s);
     nextTimer := nextTimer s; lastOnlineBroadcast := lastOnlineBroadcast s;
     persistRequests := persistRequests s |}.

Definition with_nextTimer (n : nat) (s : State) : State :=
  {| conns := conns s; clients := clients s;
     usedPlayerIDs := usedPlayerIDs s; wsToClient := wsToClient s;
     offlineTimers := offlineTimers s; timers := timers s;
     nextTimer := n; lastOnlineBroadcast := lastOnlineBroadcast s;
     persistRequests := persistRequests s |}.

Definition with_lastOnline (f : gmap string Z -> gmap string Z)
    (s : State) : State :=
  {| conns := conns s; clients := clients s;
     usedPlayerIDs := usedPlayerIDs s; wsToClient := wsToClient s;
     offlineTimers := offlineTimers s; timers := timers s;
     nextTimer := nextTimer s; lastOnlineBroadcast := f (lastOnlineBroadcast s);
     persistRequests := persistRequests s |}.

Definition with_readyState (r : ReadyState) (c : Conn) : Conn :=
  {| readyState := r; outbox := outbox c; client := client c |}.

Definition with_outbox (o : list ServerEvent) (c : Conn) : Conn :=
  {| readyState := readyState c; outbox := o; client := client c |}.

Definition with_client (f : ClientInfo -> ClientInfo) (c : Conn) : Conn :=
  {| readyState := readyState c; outbox := outbox c; client := f (client c) |}.

Definition set_playerID (v : string) (i : ClientInfo) : ClientInfo :=
  {| playerID := v; name := name i; location := location i;
     opponentID := opponentID i; lastState := lastState i |}.

Definition set_name (v : option string) (i : ClientInfo) : ClientInfo :=
  {| playerID := playerID i; name := v; location := location i;
     opponentID := opponentID i; lastState := lastState i |}.

Definition set_location (v : option Location) (i : ClientInfo) : ClientInfo :=
  {| playerID := playerID i; name := name i; location := v;
     opponentID := opponentID i; lastState := lastState i |}.

Definition set_opponentID (v : option string) (i : ClientInfo) : ClientInfo :=
  {| playerID := playerID i; name := name i; location := location i;
     opponentID := v; lastState := lastState i |}.

Definition set_lastState (v : option LastState) (i : ClientInfo) : ClientInfo :=
  {| playerID := playerID i; name := name i; location := location i;
     opponentID := opponentID i; lastState := v |}.

(** Mutation of the heap cell [w]; nothing happens off the heap. *)
Definition update_conn (w : nat) (f : Conn -> Conn) (s : State) : State :=
  with_conns (alter f w) s.

Definition update_client (w : nat) (f : ClientInfo -> ClientInfo) : State -> State :=
  update_conn w (with_client f).

Definition isOpen (s : State) (w : nat) : bool :=
  match conns s !! w with
  | Some c => match readyState c with OPEN => true | _ => false end
  | None => false
  end.

(** ** Sockets and [send] *)

(** [ws.send(data)]: data written to a socket that is not open is dropped. *)
Definition socket_send (w : nat) (e : ServerEvent) (s : State) : State :=
  if isOpen s w
  then update_conn w (fun c => with_outbox (outbox c ++ [e]) c) s
  else s.

(** [ws.close()]: an open socket starts closing; its [close] event comes
    later. *)
Definition socket_close (w : nat) (s : State) : State :=
  update_conn w
    (fun c => match readyState c with
              | OPEN => with_readyState CLOSING c
              | _ => c
              end) s.

Definition send (pid : string) (e : ServerEvent) (s : State) : State :=
  match OMap.get pid (clients s) with
  | Some w => if isOpen s w then socket_send w e s else s
  | None => s
  end.

Definition clientOf (s : State) (w : nat) : option ClientInfo :=
  client <$> conns s !! w.

(** ** Identity pool *)

(** A call of [saveUsedIDs] as the session manager sees it: a persist
    request is issued and the caller goes on.  What the request does to the
    file is [Persist.saveUsedIDs] below. *)
Definition saveUsedIDs (s : State) : State :=
  {| conns := conns s; clients := clients s;
     usedPlayerIDs := usedPlayerIDs s; wsToClient := wsToClient s;
     offlineTimers := offlineTimers s; timers := timers s;
     nextTimer := nextTimer s; lastOnlineBroadcast := lastOnlineBroadcast s;
     persistRequests := S (persistRequests s) |}.

(** [Math.floor(Math.random() * 9000) + 1000] for the draw [r]. *)
Definition randomNum (r : N) : N := (r mod 9000 + 1000)%N.

Definition taken (s : State) (pid : string) : bool :=
  bool_decide (pid ∈ usedPlayerIDs s) || OMap.has pid (clients s).

(** The do-while loop of [generateUniquePlayerID]: [attempts] counts the
    draws made so far, [rnd i] is the i-th draw, [None] is the thrown
    error.  The loop body runs at most 1001 times, and [fuel] bounds the
    passes after the first. *)
Fixpoint generateLoop (rnd : nat -> N) (s : State) (attempts fuel : nat)
  : option string :=
  let playerID := JS.toString (randomNum (rnd attempts)) in
  let attempts := S attempts in
  if (1000 <? attempts)%nat then None
  else if taken s playerID then
    match fuel with
    | O => None
    | S fuel => generateLoop rnd s attempts fuel
    end
  else Some playerID.

Definition generateUniquePlayerID (rnd : nat -> N) (s : State)
  : option (string * State) :=
  match generateLoop rnd s 0 1000 with
  | Some playerID =>
      Some (playerID, saveUsedIDs (with_used (fun u => {[playerID]} ∪ u) s))
  | None => None
  end.

(** ** Presence *)

Definition sendPlayerOnline (now : Z) (pid : string) (s : State) : State :=
  let last := default 0%Z (lastOnlineBroadcast s !! pid) in
  if (now - last <? ONLINE_BROADCAST_DEBOUNCE_MS)%Z then s
  else
    let s := with_lastOnline (fun m => <[pid := now]> m) s in
    match OMap.get pid (clients s) with
    | Some w =>
        match clientOf s w ≫= (fun c => JS.truthy (opponentID c)) with
        | Some o =>
            match OMap.get o (clients s) with
            | Some ow =>
                match clientOf s ow with
                | Some oc =>
                    if isOpen s ow then send (playerID oc) (player_online pid) s
                    else s
                | None => s
                end
            | None => s
            end
        | None => s
        end
    | None => s
    end.

Definition sendPlayerOffline (pid : string) (s : State) : State :=
  match OMap.get pid (clients s) with
  | Some w =>
      match clientOf s w ≫= (fun c => JS.truthy (opponentID c)) with
      | Some o =>
          match OMap.get o (clients s) with
          | Some ow =>
              match clientOf s ow with
              | Some oc =>
                  if isOpen s ow then send (playerID oc) (player_offline pid) s
                  else s
              | None => s
              end
          | None => s
          end
      | None => s
      end
  | None => s
  end.

(** ** Directory *)

Definition xy (l : option Location) : option (option Z * option Z) :=
  (fun l => (longitude l, latitude l)) <$> l.

Record PlayerRow := {
  r_playerID : string;
  r_name : option string;
  r_isOnline : bool;
  r_location : option (option Z * option Z)
}.

(** The [filter] and [map] of [getAllPlayers] over the entries [l]. *)
Definition playerRows (exclude : string) (s : State)
    (l : list (string * nat)) : list PlayerRow :=
  omap (fun '(pid, w) =>
          c ← conns s !! w;
          Some {| r_playerID := pid; r_name := name (client c);
                  r_isOnline := isOpen s w;
                  r_location := xy (location (client c)) |})
       (filter (fun e => e.1 ≠ exclude) l).

Definition getAllPlayers (exclude : string) (s : State) : list PlayerRow :=
  playerRows exclude s (clients s).

Definition safePlayer (p : PlayerRow) : PlayerEntry :=
  {| e_playerID := r_playerID p; e_name := JS.orElse (r_name p) "";
     e_isOnline := r_isOnline p; e_location := r_location p |}.

Definition searchEntry (s : State) (pid : string) (c : Conn) (w : nat)
  : PlayerEntry :=
  {| e_playerID := pid; e_name := JS.orElse (name (client c)) "";
     e_isOnline := isOpen s w; e_location := xy (location (client c)) |}.

(** The [for] loop of [searchPlayers] over [this.clients.entries()]. *)
Fixpoint searchLoop (s : State) (exclude term : string) (exact : bool)
    (entries : list (string * nat)) (results : list PlayerEntry)
  : list PlayerEntry :=
  match entries with
  | [] => results
  | (pid, w) :: rest =>
      if String.eqb pid exclude then searchLoop s exclude term exact rest results
      else if exact && String.eqb pid term
      then searchLoop s exclude term exact rest results
      else
        match conns s !! w with
        | Some c =>
            let playerName := JS.toLowerCase (JS.orElse (name (client c)) "") in
            let playerIDLower := JS.toLowerCase pid in
            let lower := JS.toLowerCase term in
            if JS.includes playerIDLower lower || JS.includes playerName lower
            then
              let results := results ++ [searchEntry s pid c w] in
              if (5 <=? List.length results)%nat then results
              else searchLoop s exclude term exact rest results
            else searchLoop s exclude term exact rest results
        | None => searchLoop s exclude term exact rest results
        end
  end.

Definition searchPlayers (exclude term : string) (s : State)
  : list PlayerEntry :=
  let exact := JS.is4digit term in
  let results :=
    if exact then
      match OMap.get term (clients s) with
      | Some w =>
          match conns s !! w with
          | Some c =>
              if negb (String.eqb term exclude)
              then [searchEntry s term c w] else []
          | None => []
          end
      | None => []
      end
    else [] in
  searchLoop s exclude term exact (clients s) results.

(** ** Message router *)

(** [message.payload?.f] *)
Definition field {A} (f : Payload -> option A) (p : option Payload) : option A :=
  p ≫= f.

(** The rebinding step shared by [player:request_id] and
    [player:reconnect]: a previous holder on another socket is closed and
    dropped from [wsToClient]. *)
Definition closePrevious (w : nat) (pid : string) (s : State) : State :=
  match OMap.get pid (clients s) with
  | Some prev =>
      if bool_decide (prev ≠ w)
      then with_wsToClient (fun m => m ∖ {[prev]}) (socket_close prev s)
      else s
  | None => s
  end.

Definition handleRequestID (w : nat) (now : Z) (rnd : nat -> N)
    (p : option Payload) (s : State) : State :=
  let playerName := field p_name p in
  match generateUniquePlayerID rnd s with
  | None => s
  | Some (newPlayerID, s) =>
      let s := update_client w (set_playerID newPlayerID) s in
      let s := update_client w
                 (set_name (Some (JS.orElse playerName ("Player " +:+ newPlayerID)))) s in
      let s := closePrevious w newPlayerID s in
      let s := with_clients (OMap.set newPlayerID w) s in
      let s := with_wsToClient (fun m => {[w]} ∪ m) s in
      let s := socket_send w (player_id_assigned newPlayerID) s in
      sendPlayerOnline now newPlayerID s
  end.

Definition cancelOffline (pid : string) (s : State) : State :=
  match offlineTimers s !! pid with
  | Some pending =>
      with_offlineTimers (delete pid) (with_timers (delete pending) s)
  | None => s
  end.

Definition resumeOpponent (w : nat) (pid : string) (s : State) : State :=
  match clientOf s w with
  | Some c =>
      match lastState c, JS.truthy (opponentID c) with
      | Some gameState, Some opponentIDToNotify =>
          match OMap.get opponentIDToNotify (clients s) with
          | Some ow =>
              if isOpen s ow
              then send opponentIDToNotify
                     (game_resume pid (JS.orElse (name c) "") gameState) s
              else s
          | None => s
          end
      | _, _ => s
      end
  | None => s
  end.

Definition handleReconnect (w : nat) (now : Z) (p : option Payload)
    (s : State) : State :=
  match JS.truthy (field p_playerID p) with
  | Some existingPlayerID =>
      if JS.is4digit existingPlayerID then
        let s := cancelOffline existingPlayerID s in
        let s := closePrevious w existingPlayerID s in
        let s := update_client w (set_playerID existingPlayerID) s in
        let s := update_client w
                   (set_name (Some (JS.orElse (field p_name p)
                                      ("Player " +:+ existingPlayerID)))) s in
        let s := with_clients (OMap.set existingPlayerID w) s in
        let s := with_wsToClient (fun m => {[w]} ∪ m) s in
        let s := with_used (fun u => {[existingPlayerID]} ∪ u) s in
        let s := saveUsedIDs s in
        let s := socket_send w (player_reconnected existingPlayerID) s in
        let s := sendPlayerOnline now existingPlayerID s in
        resumeOpponent w existingPlayerID s
      else socket_send w (player_invalid_id "Invalid player ID format") s
  | None => socket_send w (player_invalid_id "Invalid player ID format") s
  end.

Definition handleUpdateName (w : nat) (p : option Payload) (s : State) : State :=
  match clientOf s w with
  | Some c =>
      let newName := JS.orElse (field p_name p) (JS.orElse (name c) "") in
      let s := update_client w (set_name (Some newName)) s in
      match JS.truthy (opponentID c) with
      | Some o =>
          match OMap.get o (clients s) with
          | Some ow =>
              match clientOf s ow with
              | Some oc =>
                  if isOpen s ow
                  then send (playerID oc)
                         (player_name_changed (playerID c) newName) s
                  else s
              | None => s
              end
          | None => s
          end
      | None => s
      end
  | None => s
  end.

Definition handleStateUpdate (w : nat) (p : option Payload) (s : State) : State :=
  let s := match JS.truthy (field p_name p) with
           | Some n => update_client w (set_name (Some n)) s
           | None => s
           end in
  let s := match field p_location p with
           | Some l => update_client w (set_location (Some l)) s
           | None => s
           end in
  let s := match JS.truthy (field p_opponentID p) with
           | Some o => update_client w (set_opponentID (Some o)) s
           | None => s
           end in
  update_client w
    (set_lastState (Some {| total := field p_total p;
                            history := field p_history p |})) s.

Definition handleUpdateLocation (w : nat) (p : option Payload) (s : State) : State :=
  update_client w
    (set_location
       ((fun p => {| latitude := p_latitude p; longitude := p_longitude p |}) <$> p)) s.

Definition nameOf (s : State) (w : nat) : string :=
  JS.orElse (clientOf s w ≫= name) "".

Definition handleGameStart (w : nat) (currentPlayerID : string)
    (p : option Payload) (s : State) : State :=
  match JS.truthy (field p_opponentID p) with
  | Some opponentID =>
      if String.eqb opponentID currentPlayerID
      then socket_send w (game_error "Cannot start a game with yourself") s
      else
        match OMap.get opponentID (clients s) with
        | Some ow =>
            let s := update_client w (set_opponentID (Some opponentID)) s in
            let s := update_client ow (set_opponentID (Some currentPlayerID)) s in
            let s := send currentPlayerID
                       (game_auto_joined opponentID (nameOf s ow)) s in
            send opponentID (game_auto_joined currentPlayerID (nameOf s w)) s
        | None => s
        end
  | None => socket_send w (game_error "Cannot start a game with yourself") s
  end.

Definition handleScoreUpdate (currentPlayerID : string) (p : option Payload)
    (s : State) : State :=
  match JS.truthy (field p_opponentID p) with
  | Some targetOpponentID =>
      send targetOpponentID
        (game_opponent_scored (default 0%Z (field p_score p)) currentPlayerID) s
  | None => s
  end.

(** The forwarding shared by [game:apply_brisks], [game:opponent_undo] and
    [game:reset]: [e] is built from the payload and the sender. *)
Definition forwardToOpponent (currentPlayerID : string) (p : option Payload)
    (e : ServerEvent) (s : State) : State :=
  match JS.truthy (field p_opponentID p) with
  | Some targetOpponentID =>
      if String.eqb targetOpponentID currentPlayerID then s
      else
        match OMap.get targetOpponentID (clients s) with
        | Some tw => if isOpen s tw then send targetOpponentID e s else s
        | None => s
        end
  | None => s
  end.

(** [game:apply_brisks] and [game:opponent_undo] read [payload.opponentID]
    without [?.]: a message without payload throws, and the listener
    catches the error. *)
Definition handleApplyBrisks (currentPlayerID : string) (p : option Payload)
    (s : State) : State :=
  match p with
  | Some _ =>
      forwardToOpponent currentPlayerID p
        (game_apply_brisks (field p_briskCount p) currentPlayerID) s
  | None => s
  end.

Definition handleOpponentUndo (currentPlayerID : string) (p : option Payload)
    (s : State) : State :=
  match p with
  | Some _ =>
      forwardToOpponent currentPlayerID p
        (game_opponent_undo (field p_points p) (field p_briskValue p)
           currentPlayerID) s
  | None => s
  end.

Definition handleReset (currentPlayerID : string) (p : option Payload)
    (s : State) : State :=
  forwardToOpponent currentPlayerID p (game_reset currentPlayerID) s.

Definition handleGetAll (currentPlayerID : string) (s : State) : State :=
  send currentPlayerID
    (players_list (safePlayer <$> getAllPlayers currentPlayerID s)) s.

Definition handleSearch (currentPlayerID : string) (p : option Payload)
    (s : State) : State :=
  match JS.truthy (field p_searchTerm p) with
  | Some searchTerm =>
      match JS.trim searchTerm with
      | EmptyString => send currentPlayerID (players_search_results []) s
      | term =>
          send currentPlayerID
            (players_search_results (searchPlayers currentPlayerID term s)) s
      end
  | None => send currentPlayerID (players_search_results []) s
  end.

Definition handleMessage (w : nat) (now : Z) (rnd : nat -> N) (m : Message)
    (s : State) : State :=
  if bool_decide (w ∈ wsToClient s) then
    match clientOf s w with
    | Some c =>
        let currentPlayerID := playerID c in
        let typeStr := type m in
        let p := payload m in
        if String.eqb typeStr "player:request_id" then handleRequestID w now rnd p s
        else if String.eqb typeStr "player:reconnect" then handleReconnect w now p s
        else if String.eqb typeStr "player:update_name" then handleUpdateName w p s
        else if String.eqb typeStr "player:state_update" then handleStateUpdate w p s
        else if String.eqb typeStr "player:update_location" then handleUpdateLocation w p s
        else if String.eqb typeStr "game:start" then handleGameStart w currentPlayerID p s
        else if String.eqb typeStr "game:score_update" then handleScoreUpdate currentPlayerID p s
        else if String.eqb typeStr "game:apply_brisks" then handleApplyBrisks currentPlayerID p s
        else if String.eqb typeStr "game:opponent_undo" then handleOpponentUndo currentPlayerID p s
        else if String.eqb typeStr "game:reset" then handleReset currentPlayerID p s
        else if String.eqb typeStr "players:get_all" then handleGetAll currentPlayerID s
        else if String.eqb typeStr "players:search" then handleSearch currentPlayerID p s
        else s
    | None => s
    end
  else s.

(** ** Connection registry: the event handlers *)

Definition onConnection (now : N) (rnd : string) (s : State) : State :=
  let w := List.length (conns s) in
  let tempPlayerID := "temp_" +:+ JS.toString now +:+ "_" +:+ rnd in
  let clientInfo := {| playerID := tempPlayerID; name := Some "Unknown Player";
                       location := None; opponentID := None; lastState := None |} in
  let s := with_conns
             (fun l => l ++ [{| readyState := OPEN; outbox := [];
                                client := clientInfo |}]) s in
  let s := with_wsToClient (fun m => {[w]} ∪ m) s in
  socket_send w connection_established s.

(** [setTimeout(..., OFFLINE_DEBOUNCE_MS)] followed by
    [offlineTimers.set(pid, timer)]. *)
Definition scheduleOffline (pid : string) (now : Z) (s : State) : State :=
  let timer := nextTimer s in
  let s := with_timers (fun t => <[timer := (pid, (now + OFFLINE_DEBOUNCE_MS)%Z)]> t) s in
  let s := with_nextTimer (S timer) s in
  with_offlineTimers (fun t => <[pid := timer]> t) s.

Definition closeHandler (w : nat) (now : Z) (s : State) : State :=
  if bool_decide (w ∈ wsToClient s) then
    match clientOf s w with
    | Some c =>
        let pid := playerID c in
        let s := with_wsToClient (fun m => m ∖ {[w]}) s in
        if negb (JS.startsWith pid "temp_") && OMap.has pid (clients s) then
          match OMap.get pid (clients s) with
          | Some existing =>
              if bool_decide (existing = w) then scheduleOffline pid now s else s
          | None => s
          end
        else s
    | None => s
    end
  else
    match List.find (fun '(_, cw) => bool_decide (cw = w)) (clients s) with
    | Some (pid, _) => scheduleOffline pid now s
    | None => s
    end.

(** The callback of the offline timer for [pid]. *)
Definition offlineExpired (pid : string) (s : State) : State :=
  let s := with_clients (OMap.delete pid) s in
  let s := with_offlineTimers (delete pid) s in
  let s := with_lastOnline (delete pid) s in
  sendPlayerOffline pid s.

(** ** The event loop *)

Inductive Event :=
| Connection (now : N) (rnd : string)
| Receive (w : nat) (now : Z) (rnd : nat -> N) (m : Message)
| Close (w : nat) (now : Z)
| Timeout (timer : nat) (now : Z).

(** The socket [w] emits [close] once, when it reaches [CLOSED]. *)
Definition onClose (w : nat) (now : Z) (s : State) : State :=
  match conns s !! w with
  | Some c =>
      match readyState c with
      | CLOSED => s
      | _ => closeHandler w now (update_conn w (with_readyState CLOSED) s)
      end
  | None => s
  end.

(** A pending timeout runs no earlier than its due time and is then gone. *)
Definition onTimeout (timer : nat) (now : Z) (s : State) : State :=
  match timers s !! timer with
  | Some (pid, due) =>
      if (due <=? now)%Z
      then offlineExpired pid (with_timers (delete timer) s)
      else s
  | None => s
  end.

Definition step (s : State) (e : Event) : State :=
  match e with
  | Connection now rnd => onConnection now rnd s
  | Receive w now rnd m => handleMessage w now rnd m s
  | Close w now => onClose w now s
  | Timeout timer now => onTimeout timer now s
  end.

Definition run (s : State) (es : list Event) : State := fold_left step es s.

(** The manager after construction, with the identifiers loaded from disk. *)
Definition init (loaded : gset string) : State :=
  {| conns := []; clients := []; usedPlayerIDs := loaded; wsToClient := ∅;
     offlineTimers := ∅; timers := ∅; nextTimer := 0;
     lastOnlineBroadcast := ∅; persistRequests := 0 |}.

Inductive reachable : State -> Prop :=
| reachable_init loaded : reachable (init loaded)
| reachable_step s e : reachable s -> reachable (step s e).

(** [candidatesFrom count n]: the [count] numbers from [n] on print as
    four digits. *)
Fixpoint candidatesFrom (count : nat) (n : N) : bool :=
  match count with
  | O => true
  | S count => JS.is4digit (JS.toString n) && candidatesFrom count (N.succ n)
  end.

(** ** Building messages *)

Definition emptyPayload : Payload :=
  {| p_name := None; p_playerID := None; p_opponentID := None;
     p_score := None; p_briskCount := None; p_points := None;
     p_briskValue := None; p_searchTerm := None; p_total := None;
     p_history := None; p_location := None; p_latitude := None;
     p_longitude := None |}.

Definition payloadPlayerID (pid : string) : Payload :=
  {| p_name := None; p_playerID := Some pid; p_opponentID := None;
     p_score := None; p_briskCount := None; p_points := None;
     p_briskValue := None; p_searchTerm := None; p_total := None;
     p_history := None; p_location := None; p_latitude := None;
     p_longitude := None |}.

Definition payloadOpponent (o : string) (score : option Z) : Payload :=
  {| p_name := None; p_playerID := None; p_opponentID := Some o;
     p_score := score; p_briskCount := None; p_points := None;
     p_briskValue := None; p_searchTerm := None; p_total := None;
     p_history := None; p_location := None; p_latitude := None;
     p_longitude := None |}.


Definition msg (ty : string) (p : Payload) : Message :=
  {| type := ty; payload := Some p |}.

Definition reconnectAs (w : nat) (now : Z) (pid : string) : Event :=
  Receive w now (fun _ => 0%N) (msg "player:reconnect" (payloadPlayerID pid)).

(** ** The registry skeleton

    What the registry invariants speak about: per connection the socket
    state and the identifier its session holds, the identifier map, the
    tracked sockets and the offline timers.  [skel] forgets the rest. *)

Record Skel := {
  k_shapes : list (ReadyState * string);
  k_clients : OMap.t nat;
  k_tracked : gset nat;
  k_offline : gmap string nat;
  k_timers : gmap nat (string * Z);
  k_next : nat
}.

Definition shape (c : Conn) : ReadyState * string :=
  (readyState c, playerID (client c)).

Definition skel (s : State) : Skel :=
  {| k_shapes := shape <$> conns s; k_clients := clients s;
     k_tracked := wsToClient s; k_offline := offlineTimers s;
     k_timers := timers s; k_next := nextTimer s |}.

Definition closing (r : ReadyState) : ReadyState :=
  match r with OPEN => CLOSING | _ => r end.

Definition kAlter (f : ReadyState * string -> ReadyState * string) (w : nat)
    (k : Skel) : Skel :=
  {| k_shapes := alter f w (k_shapes k); k_clients := k_clients k;
     k_tracked := k_tracked k; k_offline := k_offline k;
     k_timers := k_timers k; k_next := k_next k |}.

Definition kClosePrevious (w : nat) (pid : string) (k : Skel) : Skel :=
  match OMap.get pid (k_clients k) with
  | Some prev =>
      if bool_decide (prev ≠ w)
      then {| k_shapes := alter (fun x => (closing x.1, x.2)) prev (k_shapes k);
              k_clients := k_clients k; k_tracked := k_tracked k ∖ {[prev]};
              k_offline := k_offline k; k_timers := k_timers k;
              k_next := k_next k |}
      else k
  | None => k
  end.

Definition kCancel (pid : string) (k : Skel) : Skel :=
  match k_offline k !! pid with
  | Some pending =>
      {| k_shapes := k_shapes k; k_clients := k_clients k;
         k_tracked := k_tracked k; k_offline := delete pid (k_offline k);
         k_timers := delete pending (k_timers k); k_next := k_next k |}
  | None => k
  end.

Definition kInstall (w : nat) (pid : string) (k : Skel) : Skel :=
  {| k_shapes := alter (fun x => (x.1, pid)) w (k_shapes k);
     k_clients := OMap.set pid w (k_clients k);
     k_tracked := {[w]} ∪ k_tracked k; k_offline := k_offline k;
     k_timers := k_timers k; k_next := k_next k |}.

Definition kBind (w : nat) (pid : string) (k : Skel) : Skel :=
  kInstall w pid (kClosePrevious w pid k).

Definition kConnect (tmp : string) (k : Skel) : Skel :=
  {| k_shapes := k_shapes k ++ [(OPEN, tmp)]; k_clients := k_clients k;
     k_tracked := {[List.length (k_shapes k)]} ∪ k_tracked k;
     k_offline := k_offline k; k_timers := k_timers k; k_next := k_next k |}.

Definition kSchedule (pid : string) (now : Z) (k : Skel) : Skel :=
  {| k_shapes := k_shapes k; k_clients := k_clients k;
     k_tracked := k_tracked k;
     k_offline := <[pid := k_next k]> (k_offline k);
     k_timers := <[k_next k := (pid, (now + OFFLINE_DEBOUNCE_MS)%Z)]> (k_timers k);
     k_next := S (k_next k) |}.

Definition kUntrack (w : nat) (k : Skel) : Skel :=
  {| k_shapes := k_shapes k; k_clients := k_clients k;
     k_tracked := k_tracked k ∖ {[w]}; k_offline := k_offline k;
     k_timers := k_timers k; k_next := k_next k |}.

Definition kCloseHandler (w : nat) (now : Z) (k : Skel) : Skel :=
  if bool_decide (w ∈ k_tracked k) then
    match k_shapes k !! w with
    | Some (_, pid) =>
        let k := kUntrack w k in
        if negb (JS.startsWith pid "temp_") && OMap.has pid (k_clients k) then
          match OMap.get pid (k_clients k) with
          | Some existing =>
              if bool_decide (existing = w) then kSchedule pid now k else k
          | None => k
          end
        else k
    | None => k
    end
  else
    match List.find (fun '(_, cw) => bool_decide (cw = w)) (k_clients k) with
    | Some (pid, _) => kSchedule pid now k
    | None => k
    end.

Definition kOnClose (w : nat) (now : Z) (k : Skel) : Skel :=
  match k_shapes k !! w with
  | Some (CLOSED, _) => k
  | Some _ => kCloseHandler w now (kAlter (fun x => (CLOSED, x.2)) w k)
  | None => k
  end.

Definition kOnTimeout (timer : nat) (now : Z) (k : Skel) : Skel :=
  match k_timers k !! timer with
  | Some (pid, due) =>
      if (due <=? now)%Z
      then {| k_shapes := k_shapes k; k_clients := OMap.delete pid (k_clients k);
              k_tracked := k_tracked k; k_offline := delete pid (k_offline k);
              k_timers := delete timer (k_timers k); k_next := k_next k |}
      else k
  | None => k
  end.

(** The moves of the skeleton that the handlers can make. *)
Inductive ktrans (k : Skel) : Skel -> Prop :=
| ktrans_stutter : ktrans k k
| ktrans_connect tmp : JS.is4digit tmp = false -> ktrans k (kConnect tmp k)
| ktrans_request w pid :
    w ∈ k_tracked k -> JS.is4digit pid = true ->
    OMap.get pid (k_clients k) = None ->
    ktrans k (kInstall w pid k)
| ktrans_reconnect w pid :
    w ∈ k_tracked k -> JS.is4digit pid = true ->
    ktrans k (kBind w pid (kCancel pid k))
| ktrans_close w now : ktrans k (kOnClose w now k)
| ktrans_timeout timer now : ktrans k (kOnTimeout timer now k).

(** The registry invariant. *)
Record SInv (k : Skel) : Prop := {
  (** a tracked socket is open *)
  inv_tracked_open :
    forall w, w ∈ k_tracked k -> exists p, k_shapes k !! w = Some (OPEN, p);
  (** an open socket is tracked *)
  inv_open_tracked :
    forall w p, k_shapes k !! w = Some (OPEN, p) -> w ∈ k_tracked k;
  (** the identifier held by a tracked session maps back to it *)
  inv_bound :
    forall w r p, w ∈ k_tracked k -> k_shapes k !! w = Some (r, p) ->
      JS.is4digit p = true -> OMap.get p (k_clients k) = Some w;
  (** keys are identifiers, values are sessions that were bound *)
  inv_keys :
    forall p w, OMap.get p (k_clients k) = Some w ->
      JS.is4digit p = true /\
      exists r q, k_shapes k !! w = Some (r, q) /\ JS.is4digit q = true;
  inv_nodup : NoDup (k_clients k).*1;
  (** a pending timeout is the registered one of a closed holder *)
  inv_timers :
    forall h pid due, k_timers k !! h = Some (pid, due) ->
      k_offline k !! pid = Some h /\ h < k_next k /\
      exists w p, OMap.get pid (k_clients k) = Some w /\
                  k_shapes k !! w = Some (CLOSED, p)
}.

Definition Inv (s : State) : Prop := SInv (skel s).

(** The socket [w] is open and its session holds the identifier [pid]. *)
Definition bound (s : State) (w : nat) (pid : string) : Prop :=
  isOpen s w = true /\ playerID <$> clientOf s w = Some pid.

(** What was written to the socket [w] so far. *)
Definition outboxOf (s : State) (w : nat) : list ServerEvent :=
  match conns s !! w with
  | Some c => outbox c
  | None => []
  end.

(** The session that the holder of [pid] has declared as its opponent. *)
Definition declaredOpponent (s : State) (pid : string) : option nat :=
  w ← OMap.get pid (clients s);
  c ← clientOf s w;
  o ← JS.truthy (opponentID c);
  OMap.get o (clients s).

(** [s'] comes from [s] by writing to sockets only: the registry, the
    sessions and the identity pool are those of [s], and every outbox of
    [s] is a prefix of the one in [s']. *)
Definition sends_only (s s' : State) : Prop :=
  skel s' = skel s /\
  usedPlayerIDs s' = usedPlayerIDs s /\
  persistRequests s' = persistRequests s /\
  offlineTimers s' = offlineTimers s /\
  (forall x, outboxOf s x `prefix_of` outboxOf s' x) /\
  (forall x, clientOf s' x = clientOf s x).

(** The event that a forwarding kind builds from the payload and the
    sender's identifier. *)
Definition forwarded (ty : string) (p : Payload) (from : string)
  : option ServerEvent :=
  if String.eqb ty "game:apply_brisks"
  then Some (game_apply_brisks (p_briskCount p) from)
  else if String.eqb ty "game:opponent_undo"
  then Some (game_opponent_undo (p_points p) (p_briskValue p) from)
  else if String.eqb ty "game:reset" then Some (game_reset from)
  else None.

(** ** Persisting the identity pool ([saveUsedIDs])

    [saveUsedIDs] is asynchronous: what it does depends on the promise
    stored in [savingPromise].  The model below follows the promise
    machinery that it uses, as ECMAScript defines it: a promise is pending
    with its registered reactions or fulfilled (none of the promises here
    is ever rejected: the write body catches every error); resolving a
    promise with another promise queues a job that subscribes to it; a
    fulfilled promise queues its reactions as jobs.  The events are a
    request (a caller adds an identifier and calls [saveUsedIDs]), a tick
    (the event loop runs the first queued job) and the completion of the
    file-system operation that a write body awaits.  Events may interleave
    freely, which includes the runs of Node, where the job queue is drained
    before the next request or completion is handled.  The reaction that a
    caller's [.catch] registers has no effect and is left out. *)

Module Persist.

Inductive Reaction :=
| CallSave (q : nat)  (** [.then(() => this.saveUsedIDs())], deriving [q] *)
| Settle (q : nat).   (** [q] was resolved with this promise *)

Inductive Promise :=
| Pending (reactions : list Reaction)
| Fulfilled.

Inductive Job :=
| Adopt (q p : nat)   (** [q] was resolved with the promise [p] *)
| React (r : Reaction).

(** The [await] at which a write body is suspended, with the data of the
    write it issued. *)
Inductive Phase :=
| Mkdir
| WriteTmp (data : list string)
| WriteDirect (data : list string)
| Rename
| WriteFinal (data : list string)
| Unlink.

Record St := {
  usedIDs : list string;            (** [Array.from(this.usedPlayerIDs)] *)
  savingPromise : option nat;
  promises : list Promise;
  jobs : list Job;
  inflight : list (nat * Phase);    (** suspended write bodies *)
  tmpFile : option (list string);
  dataFile : option (list string);
  requests : nat;                   (** calls of [saveUsedIDs] by callers *)
  started : nat                     (** write bodies started *)
}.

Definition with_promises (f : list Promise -> list Promise) (s : St) : St :=
  {| usedIDs := usedIDs s; savingPromise := savingPromise s;
     promises := f (promises s); jobs := jobs s; inflight := inflight s;
     tmpFile := tmpFile s; dataFile := dataFile s; requests := requests s;
     started := started s |}.

Definition with_jobs (f : list Job -> list Job) (s : St) : St :=
  {| usedIDs := usedIDs s; savingPromise := savingPromise s;
     promises := promises s; jobs := f (jobs s); inflight := inflight s;
     tmpFile := tmpFile s; dataFile := dataFile s; requests := requests s;
     started := started s |}.

Definition with_savingPromise (p : option nat) (s : St) : St :=
  {| usedIDs := usedIDs s; savingPromise := p;
     promises := promises s; jobs := jobs s; inflight := inflight s;
     tmpFile := tmpFile s; dataFile := dataFile s; requests := requests s;
     started := started s |}.

Definition with_inflight (f : list (nat * Phase) -> list (nat * Phase))
    (s : St) : St :=
  {| usedIDs := usedIDs s; savingPromise := savingPromise s;
     promises := promises s; jobs := jobs s; inflight := f (inflight s);
     tmpFile := tmpFile s; dataFile := dataFile s; requests := requests s;
     started := started s |}.

Definition with_files (tmp data : option (list string)) (s : St) : St :=
  {| usedIDs := usedIDs s; savingPromise := savingPromise s;
     promises := promises s; jobs := jobs s; inflight := inflight s;
     tmpFile := tmp; dataFile := data; requests := requests s;
     started := started s |}.

(** [new Promise]: the new promise is the next cell of the heap. *)
Definition newPromise (s : St) : nat * St :=
  (List.length (promises s), with_promises (fun l => l ++ [Pending []]) s).

(** Subscribing [r] to [p]: registered while [p] is pending, queued at once
    when [p] is fulfilled. *)
Definition addReaction (p : nat) (r : Reaction) (s : St) : St :=
  match promises s !! p with
  | Some (Pending rs) => with_promises (fun l => <[p := Pending (rs ++ [r])]> l) s
  | Some Fulfilled => with_jobs (fun l => l ++ [React r]) s
  | None => s
  end.

(** Resolving [q] with the promise [p]. *)
Definition resolveWith (q p : nat) (s : St) : St :=
  with_jobs (fun l => l ++ [Adopt q p]) s.

Definition fulfil (q : nat) (s : St) : St :=
  match promises s !! q with
  | Some (Pending rs) =>
      with_jobs (fun l => l ++ (React <$> rs))
        (with_promises (fun l => <[q := Fulfilled]> l) s)
  | _ => s
  end.

(** The async function [saveUsedIDs]: its result promise [r] is resolved
    with the value of [this.savingPromise] that the body returns. *)
Definition saveUsedIDs (s : St) : nat * St :=
  let '(r, s) := newPromise s in
  match savingPromise s with
  | Some p =>
      let '(q, s) := newPromise s in
      let s := addReaction p (CallSave q) s in
      let s := with_savingPromise (Some q) s in
      (r, resolveWith r q s)
  | None =>
      let '(b, s) := newPromise s in
      let s := with_inflight (fun l => l ++ [(b, Mkdir)]) s in
      let s := {| usedIDs := usedIDs s; savingPromise := Some b;
                  promises := promises s; jobs := jobs s;
                  inflight := inflight s; tmpFile := tmpFile s;
                  dataFile := dataFile s; requests := requests s;
                  started := S (started s) |} in
      (r, resolveWith r b s)
  end.

Definition runJob (j : Job) (s : St) : St :=
  match j with
  | Adopt q p => addReaction p (Settle q) s
  | React (Settle q) => fulfil q s
  | React (CallSave q) =>
      let '(r, s) := saveUsedIDs s in resolveWith q r s
  end.

(** The write body leaves its [try]: [finally] clears [savingPromise] and
    the body's promise is fulfilled. *)
Definition finish (b : nat) (s : St) : St :=
  let s := with_inflight (filter (fun e => e.1 ≠ b)) s in
  fulfil b (with_savingPromise None s).

Definition setPhase (b : nat) (ph : Phase) (s : St) : St :=
  with_inflight (fmap (fun e => if decide (e.1 = b) then (b, ph) else e)) s.

(** The operation awaited by the body [b] completes, with success or not,
    and the body runs to its next [await] or to its end. *)
Definition ioDone (b : nat) (ok : bool) (s : St) : St :=
  match List.find (fun e => bool_decide (e.1 = b)) (inflight s) with
  | Some (_, Mkdir) =>
      if ok then setPhase b (WriteTmp (usedIDs s)) s else finish b s
  | Some (_, WriteTmp data) =>
      if ok then setPhase b Rename (with_files (Some data) (dataFile s) s)
      else setPhase b (WriteDirect (usedIDs s)) s
  | Some (_, WriteDirect data) =>
      if ok then finish b (with_files (tmpFile s) (Some data) s)
      else finish b s
  | Some (_, Rename) =>
      if ok then
        match tmpFile s with
        | Some data => finish b (with_files None (Some data) s)
        | None => finish b s
        end
      else setPhase b (WriteFinal (usedIDs s)) s
  | Some (_, WriteFinal data) =>
      if ok then setPhase b Unlink (with_files (tmpFile s) (Some data) s)
      else finish b s
  | Some (_, Unlink) =>
      if ok then finish b (with_files None (dataFile s) s) else finish b s
  | None => s
  end.

Inductive Event :=
| Request (id : string)   (** [usedPlayerIDs.add(id); saveUsedIDs()] *)
| Tick                    (** the first queued job runs *)
| IoDone (b : nat) (ok : bool).

Definition addID (id : string) (s : St) : St :=
  {| usedIDs := if bool_decide (id ∈ usedIDs s) then usedIDs s
                else usedIDs s ++ [id];
     savingPromise := savingPromise s; promises := promises s;
     jobs := jobs s; inflight := inflight s; tmpFile := tmpFile s;
     dataFile := dataFile s; requests := S (requests s);
     started := started s |}.

Definition step (s : St) (e : Event) : St :=
  match e with
  | Request id => (saveUsedIDs (addID id s)).2
  | Tick =>
      match jobs s with
      | j :: rest => runJob j (with_jobs (fun _ => rest) s)
      | [] => s
      end
  | IoDone b ok => ioDone b ok s
  end.

Definition run (s : St) (es : list Event) : St := fold_left step es s.

Definition init (loaded : list string) : St :=
  {| usedIDs := loaded; savingPromise := None; promises := []; jobs := [];
     inflight := []; tmpFile := None; dataFile := None; requests := 0;
     started := 0 |}.

Inductive reachable : St -> Prop :=
| reachable_init loaded : reachable (init loaded)
| reachable_step s e : reachable s -> reachable (step s e).

Definition target (r : Reaction) : nat :=
  match r with CallSave q | Settle q => q end.

(** Counting over the reactions that are registered or queued. *)
Definition wP (w : Reaction -> nat) (p : Promise) : nat :=
  match p with
  | Pending rs => sum_list_with w rs
  | Fulfilled => 0
  end.

Definition wJ (w : Reaction -> nat) (a : nat -> nat) (j : Job) : nat :=
  match j with
  | Adopt q _ => a q
  | React r => w r
  end.

Definition weight (w : Reaction -> nat) (a : nat -> nat) (s : St) : nat :=
  sum_list_with (wP w) (promises s) + sum_list_with (wJ w a) (jobs s).

Definition callSaves (r : Reaction) : nat :=
  match r with CallSave _ => 1 | Settle _ => 0 end.

(** The chained calls of [saveUsedIDs] that have not run yet. *)
Definition chained (s : St) : nat := weight callSaves (fun _ => 0) s.

Definition holds (q x : nat) : nat := if decide (x = q) then 1 else 0.

(** What can still settle the promise [q]: the write body that returns it,
    a reaction or a job that resolves it. *)
Definition tokens (q : nat) (s : St) : nat :=
  weight (fun r => holds q (target r)) (holds q) s
  + sum_list_with (fun e => holds q e.1) (inflight s).

(** [supported s q]: the promise [q] waits, through the promises it is
    subscribed to, for a write body in flight or for a queued job. *)
Inductive supported (s : St) : nat -> Prop :=
| sup_body b ph : (b, ph) ∈ inflight s -> supported s b
| sup_react r : React r ∈ jobs s -> supported s (target r)
| sup_adopt_done q p :
    Adopt q p ∈ jobs s -> promises s !! p = Some Fulfilled -> supported s q
| sup_adopt_wait q p rs :
    Adopt q p ∈ jobs s -> promises s !! p = Some (Pending rs) ->
    supported s p -> supported s q
| sup_wait p rs r :
    promises s !! p = Some (Pending rs) -> r ∈ rs ->
    supported s p -> supported s (target r).

(** [chain s b p]: [p] is the promise of the body [b] or was derived from
    it by [then] calls whose callbacks have not run. *)
Inductive chain (s : St) (b : nat) : nat -> Prop :=
| chain_body rs : promises s !! b = Some (Pending rs) -> chain s b b
| chain_then p q rs rs' :
    chain s b p -> promises s !! p = Some (Pending rs) -> CallSave q ∈ rs ->
    promises s !! q = Some (Pending rs') -> chain s b q.

Definition serial (s : St) : Prop :=
  match savingPromise s with
  | None => inflight s = []
  | Some p => exists b ph, inflight s = [(b, ph)] /\ chain s b p
  end.

Record Inv (s : St) : Prop := {
  inv_fresh : forall q, List.length (promises s) <= q -> tokens q s = 0;
  inv_linear : forall q, tokens q s <= 1;
  inv_adopt : forall q p, Adopt q p ∈ jobs s -> p < List.length (promises s);
  inv_serial : serial s;
  inv_regs : forall p rs,
    promises s !! p = Some (Pending rs) -> rs <> [] -> supported s p;
  inv_jobs : forall q p,
    Adopt q p ∈ jobs s ->
    promises s !! p = Some Fulfilled \/ supported s p
}.

(** Every call by a caller has started its write or is still chained. *)
Definition counted (s : St) : Prop := requests s = started s + chained s.

(** [ext s s']: [s'] has the promises, jobs and bodies of [s], and
    possibly more. *)
Record ext (s s' : St) : Prop := {
  ext_fulfilled : forall p,
    promises s !! p = Some Fulfilled -> promises s' !! p = Some Fulfilled;
  ext_pending : forall p rs,
    promises s !! p = Some (Pending rs) ->
    exists rs', promises s' !! p = Some (Pending rs') /\ rs ⊆ rs';
  ext_jobs : jobs s ⊆ jobs s';
  ext_inflight : forall b ph,
    (b, ph) ∈ inflight s -> exists ph', (b, ph') ∈ inflight s'
}.

(** Every operation of the write that the body [b] performs succeeds. *)
Definition writeSucceeds (b : nat) : list Event :=
  [IoDone b true; IoDone b true; IoDone b true].

Definition drain (n : nat) : list Event := repeat Tick n.

(** Three requests, the second and the third while the write of the first
    is in flight; then every write succeeds. *)
Definition threeRequests : list Event :=
  [Request "1000"] ++ drain 1 ++ [Request "1001"] ++ drain 1
  ++ [Request "1002"] ++ drain 1
  ++ writeSucceeds 1 ++ drain 4 ++ writeSucceeds 7 ++ drain 6
  ++ writeSucceeds 9 ++ drain 3.

End Persist.

(** ** Sample states *)

(** Two connections, bound to 1111 and 2222 and paired by [game:start]. *)
Definition pairedState : State :=
  run (init ∅)
    [Connection 5 "0.1"; Connection 6 "0.2";
     reconnectAs 0 1700000000000 "1111";
     reconnectAs 1 1700000000000 "2222";
     Receive 0 1700000000000 (fun _ => 0%N)
       (msg "game:start" (payloadOpponent "2222" None))].

Definition payloadPoints (o : string) (points : Z) : Payload :=
  {| p_name := None; p_playerID := None; p_opponentID := Some o;
     p_score := None; p_briskCount := None; p_points := Some points;
     p_briskValue := None; p_searchTerm := None; p_total := None;
     p_history := None; p_location := None; p_latitude := None;
     p_longitude := None |}.


(** Every event written so far satisfies [P]. *)
Definition outboxes_sat (P : ServerEvent -> Prop) (s : State) : Prop :=
  forall x, Forall P (outboxOf s x).

Definition notOffline (e : ServerEvent) : Prop :=
  match e with
  | player_offline _ => False
  | _ => True
  end.

Definition isTimeout (e : Event) : bool :=
  match e with
  | Timeout _ _ => true
  | _ => false
  end.

(** ** Notions used by the further properties *)

(** The data that a write body in the phase [ph] has handed to
    [fs.promises.writeFile]. *)
Definition dataOf (ph : Persist.Phase) : option (list string) :=
  match ph with
  | Persist.WriteTmp d | Persist.WriteDirect d | Persist.WriteFinal d => Some d
  | _ => None
  end.

(** Whatever a file or a write under way holds was the identifier list at
    an earlier moment. *)
Definition snapshots (s : Persist.St) : Prop :=
  (forall d, Persist.tmpFile s = Some d -> d `prefix_of` Persist.usedIDs s) /\
  (forall d, Persist.dataFile s = Some d -> d `prefix_of` Persist.usedIDs s) /\
  (forall b ph d, (b, ph) ∈ Persist.inflight s -> dataOf ph = Some d ->
                  d `prefix_of` Persist.usedIDs s).

(** No file operation of the event fails. *)
Definition succeeds (e : Persist.Event) : bool :=
  match e with
  | Persist.IoDone _ ok => ok
  | _ => true
  end.

(** The most completions that a write body still awaits from [ph] on. *)
Definition remaining (ph : Persist.Phase) : nat :=
  match ph with
  | Persist.Mkdir => 5
  | Persist.WriteTmp _ => 4
  | Persist.Rename => 3
  | Persist.WriteFinal _ => 2
  | Persist.WriteDirect _ => 1
  | Persist.Unlink => 1
  end.

(** The completions for the body [b] among the events [es]. *)
Definition completions (b : nat) (es : list Persist.Event) : nat :=
  List.length
    (List.filter (fun e => match e with
                           | Persist.IoDone b' _ => bool_decide (b' = b)
                           | _ => false
                           end) es).

(** While every file operation succeeds: the data of a write under way is
    the current list unless a chained call is still to run, and with no
    body in flight the file holds such data and the temporary file is
    gone. *)
Definition upToDate (s : Persist.St) (d : list string) : Prop :=
  d = Persist.usedIDs s \/ 0 < Persist.chained s.

Record onTrack (s : Persist.St) : Prop := {
  track_phase : forall b ph, (b, ph) ∈ Persist.inflight s ->
    ph = Persist.Mkdir \/ (exists d, ph = Persist.WriteTmp d) \/ ph = Persist.Rename;
  track_write : forall b d,
    (b, Persist.WriteTmp d) ∈ Persist.inflight s -> upToDate s d;
  track_rename : forall b,
    (b, Persist.Rename) ∈ Persist.inflight s ->
    exists d, Persist.tmpFile s = Some d /\ upToDate s d;
  track_rest :
    Persist.inflight s = [] ->
    Persist.requests s = 0 \/
    (Persist.tmpFile s = None /\
     exists d, Persist.dataFile s = Some d /\ upToDate s d)
}.

(** The identifier that the [i]-th pass of the allocation loop draws. *)
Definition draw (rnd : nat -> N) (i : nat) : string :=
  JS.toString (randomNum (rnd i)).


(** [broadcast(message)]: the loop over [this.clients.values()], with one
    [ws.send] for every entry whose socket is open.  No handler calls
    it. *)
Definition broadcast (e : ServerEvent) (s : State) : State :=
  fold_left (fun s '(_, w) => if isOpen s w then socket_send w e s else s)
            (clients s) s.

(** The number of identifiers under which the socket [w] is registered. *)
Definition registrations (s : State) (w : nat) : nat :=
  List.length (filter (fun kv => kv.2 = w) (clients s)).
(** * Properties *)

(** ** Insertion-ordered maps *)

Section OMapFacts.
Context {V : Type}.
Implicit Types (m : OMap.t V) (k : string) (v : V).

Lemma omap_get_set_eq k v m : OMap.get k (OMap.set k v m) = Some v.
Proof.
  induction m as [|[k' v'] m IH]; simpl.
  - by rewrite String.eqb_refl.
  - destruct (String.eqb_spec k k') as [->|Hne]; simpl.
    + by rewrite String.eqb_refl.
    + destruct (String.eqb_spec k k'); [done|apply IH].
Qed.

Lemma omap_get_set_ne k k' v m :
  k ≠ k' -> OMap.get k' (OMap.set k v m) = OMap.get k' m.
Proof.
  intros Hne. induction m as [|[k0 v0] m IH]; simpl.
  - destruct (String.eqb_spec k' k); [congruence|done].
  - destruct (String.eqb_spec k k0) as [->|Hk]; simpl.
    + destruct (String.eqb_spec k' k0); [congruence|done].
    + destruct (String.eqb_spec k' k0); [done|apply IH].
Qed.

Lemma omap_get_delete_eq k m : OMap.get k (OMap.delete k m) = None.
Proof.
  induction m as [|[k' v'] m IH]; simpl; [done|].
  destruct (String.eqb_spec k k') as [->|Hne]; simpl; [done|].
  destruct (String.eqb_spec k k'); [done|apply IH].
Qed.

Lemma omap_get_delete_ne k k' m :
  k ≠ k' -> OMap.get k' (OMap.delete k m) = OMap.get k' m.
Proof.
  intros Hne. induction m as [|[k0 v0] m IH]; simpl; [done|].
  destruct (String.eqb_spec k k0) as [->|Hk]; simpl.
  - destruct (String.eqb_spec k' k0); [congruence|done].
  - destruct (String.eqb_spec k' k0); [done|apply IH].
Qed.

Lemma omap_has_true k m : OMap.has k m = true <-> is_Some (OMap.get k m).
Proof.
  unfold OMap.has. destruct (OMap.get k m); split; try done; by eexists.
Qed.

Lemma omap_get_elem k v m : OMap.get k m = Some v -> (k, v) ∈ m.
Proof.
  induction m as [|[k' v'] m IH]; simpl; [done|].
  destruct (String.eqb_spec k k') as [->|Hne].
  - intros [= ->]. left.
  - intros H. right. by apply IH.
Qed.

Lemma omap_get_None k m : OMap.get k m = None <-> k ∉ m.*1.
Proof.
  induction m as [|[k' v'] m IH]; simpl.
  - split; [intros _; apply not_elem_of_nil|done].
  - destruct (String.eqb_spec k k') as [->|Hne].
    + split; [done|]. intros H. exfalso. apply H. left.
    + rewrite IH, not_elem_of_cons. tauto.
Qed.

Lemma omap_elem_get k v m : NoDup m.*1 -> (k, v) ∈ m -> OMap.get k m = Some v.
Proof.
  induction m as [|[k' v'] m IH]; simpl.
  - intros _ H. by apply elem_of_nil in H.
  - rewrite NoDup_cons. intros [Hk Hnd] Hin.
    apply elem_of_cons in Hin as [[= -> ->]|Hin].
    + by rewrite String.eqb_refl.
    + destruct (String.eqb_spec k k') as [->|Hne]; [|by apply IH].
      exfalso. apply Hk. apply list_elem_of_fmap. by exists (k', v).
Qed.

Lemma omap_keys_set k v m x : x ∈ (OMap.set k v m).*1 -> x = k \/ x ∈ m.*1.
Proof.
  induction m as [|[k' v'] m IH]; simpl.
  - rewrite list_elem_of_singleton. auto.
  - destruct (String.eqb_spec k k') as [->|Hne]; simpl;
      rewrite !elem_of_cons; tauto.
Qed.

Lemma omap_nodup_set k v m : NoDup m.*1 -> NoDup (OMap.set k v m).*1.
Proof.
  induction m as [|[k' v'] m IH]; simpl.
  - intros _. apply NoDup_singleton.
  - rewrite NoDup_cons. intros [Hk Hnd].
    destruct (String.eqb_spec k k') as [->|Hne]; simpl; apply NoDup_cons.
    + done.
    + split; [|by apply IH]. intros Hin.
      apply omap_keys_set in Hin as [?|?]; [congruence|done].
Qed.

Lemma omap_keys_delete k m x : x ∈ (OMap.delete k m).*1 -> x ∈ m.*1.
Proof.
  induction m as [|[k' v'] m IH]; simpl; [done|].
  destruct (String.eqb_spec k k') as [->|Hne]; simpl;
    rewrite !elem_of_cons; tauto.
Qed.

Lemma omap_nodup_delete k m : NoDup m.*1 -> NoDup (OMap.delete k m).*1.
Proof.
  induction m as [|[k' v'] m IH]; simpl; [done|].
  rewrite NoDup_cons. intros [Hk Hnd].
  destruct (String.eqb_spec k k') as [->|Hne]; simpl; [by apply IH|].
  apply NoDup_cons. split; [|by apply IH].
  intros Hin. by apply omap_keys_delete in Hin.
Qed.

End OMapFacts.

(** ** Identifiers *)

Lemma candidatesFrom_spec count n :
  candidatesFrom count n = true ->
  forall m, (n <= m < n + N.of_nat count)%N -> JS.is4digit (JS.toString m) = true.
Proof.
  revert n. induction count as [|count IH]; intros n H m Hm; [lia|].
  simpl in H. apply andb_prop in H as [H1 H2].
  destruct (N.eq_dec m n) as [->|Hne]; [done|].
  apply (IH _ H2). lia.
Qed.

Lemma is4digit_candidates : candidatesFrom (N.to_nat 9000) 1000 = true.
Proof. vm_compute. reflexivity. Qed.

Lemma is4digit_randomNum r : JS.is4digit (JS.toString (randomNum r)) = true.
Proof.
  unfold randomNum.
  assert (Hlt : (r mod 9000 < 9000)%N) by (apply N.mod_lt; lia).
  apply (candidatesFrom_spec _ _ is4digit_candidates).
  rewrite N2Nat.id. generalize dependent (r mod 9000)%N. intros; lia.
Qed.

Lemma is4digit_not_temp pid :
  JS.is4digit pid = true -> JS.startsWith pid "temp_" = false.
Proof.
  destruct pid as [|a [|b [|c [|d [|e pid]]]]]; simpl; try done.
  intros H. apply andb_prop in H as [H _]. apply andb_prop in H as [H _].
  apply andb_prop in H as [H _].
  unfold JS.startsWith.
  destruct a as [[] [] [] [] [] [] [] []];
    first [ reflexivity | vm_compute in H; discriminate H ].
Qed.

Lemma temp_not_4digit now rnd :
  JS.is4digit ("temp_" +:+ JS.toString now +:+ "_" +:+ rnd) = false.
Proof. reflexivity. Qed.

(** ** The skeleton of the primitive operations *)

Lemma skel_with_conns f s :
  shape <$> f (conns s) = shape <$> conns s -> skel (with_conns f s) = skel s.
Proof. intros H. unfold skel. simpl. by rewrite H. Qed.

Lemma skel_update_conn g w f s :
  (forall c, shape (f c) = g (shape c)) ->
  skel (update_conn w f s) = kAlter g w (skel s).
Proof.
  intros H. unfold skel, kAlter, update_conn. simpl. f_equal.
  apply list_fmap_alter, Forall_forall. intros; apply H.
Qed.

Lemma skel_update_conn_id w f s :
  (forall c, shape (f c) = shape c) -> skel (update_conn w f s) = skel s.
Proof.
  intros H. apply skel_with_conns.
  rewrite (list_fmap_alter shape f id) by (apply Forall_forall; intros; apply H).
  by rewrite list_alter_id.
Qed.

Lemma skel_socket_send w e s : skel (socket_send w e s) = skel s.
Proof.
  unfold socket_send. destruct (isOpen s w); [|done].
  by apply skel_update_conn_id.
Qed.

Lemma skel_send pid e s : skel (send pid e s) = skel s.
Proof.
  unfold send. destruct (OMap.get pid (clients s)); [|done].
  destruct (isOpen s n); [apply skel_socket_send|done].
Qed.

Lemma skel_sendPlayerOnline now pid s : skel (sendPlayerOnline now pid s) = skel s.
Proof.
  unfold sendPlayerOnline. repeat case_match; try done;
    rewrite ?skel_send; done.
Qed.

Lemma skel_sendPlayerOffline pid s : skel (sendPlayerOffline pid s) = skel s.
Proof.
  unfold sendPlayerOffline. repeat case_match; try done;
    rewrite ?skel_send; done.
Qed.

Lemma skel_resumeOpponent w pid s : skel (resumeOpponent w pid s) = skel s.
Proof.
  unfold resumeOpponent. repeat case_match; try done;
    rewrite ?skel_send; done.
Qed.

Lemma skel_update_client_name w v s :
  skel (update_client w (set_name v) s) = skel s.
Proof. by apply skel_update_conn_id. Qed.

Lemma skel_update_client_location w v s :
  skel (update_client w (set_location v) s) = skel s.
Proof. by apply skel_update_conn_id. Qed.

Lemma skel_update_client_opponent w v s :
  skel (update_client w (set_opponentID v) s) = skel s.
Proof. by apply skel_update_conn_id. Qed.

Lemma skel_update_client_lastState w v s :
  skel (update_client w (set_lastState v) s) = skel s.
Proof. by apply skel_update_conn_id. Qed.

Lemma skel_update_client_playerID w pid s :
  skel (update_client w (set_playerID pid) s)
  = kAlter (fun x => (x.1, pid)) w (skel s).
Proof. by apply skel_update_conn. Qed.

Lemma skel_socket_close w s :
  skel (socket_close w s) = kAlter (fun x => (closing x.1, x.2)) w (skel s).
Proof.
  apply skel_update_conn. intros [r o c]. unfold shape. simpl. by destruct r.
Qed.

Lemma skel_closePrevious w pid s :
  skel (closePrevious w pid s) = kClosePrevious w pid (skel s).
Proof.
  unfold closePrevious, kClosePrevious. simpl.
  destruct (OMap.get pid (clients s)) as [prev|]; [|done].
  case_bool_decide; [|done].
  pose proof (skel_socket_close prev s) as Hsk.
  unfold skel, kAlter in *. simpl in *. by injection Hsk as ->.
Qed.

Lemma skel_cancelOffline pid s :
  skel (cancelOffline pid s) = kCancel pid (skel s).
Proof.
  unfold cancelOffline, kCancel. simpl.
  by destruct (offlineTimers s !! pid).
Qed.

Lemma skel_install w pid s k :
  skel s = kAlter (fun x => (x.1, pid)) w k ->
  skel (with_wsToClient (fun m => {[w]} ∪ m)
          (with_clients (OMap.set pid w) s))
  = kInstall w pid k.
Proof.
  intros H.
  change (skel (with_wsToClient (fun m => {[w]} ∪ m)
                  (with_clients (OMap.set pid w) s)))
    with {| k_shapes := k_shapes (skel s);
            k_clients := OMap.set pid w (k_clients (skel s));
            k_tracked := {[w]} ∪ k_tracked (skel s);
            k_offline := k_offline (skel s);
            k_timers := k_timers (skel s); k_next := k_next (skel s) |}.
  by rewrite H.
Qed.

Lemma skel_persist f s : skel (saveUsedIDs (with_used f s)) = skel s.
Proof. reflexivity. Qed.

(** ** The skeleton of the handlers *)

Lemma generateLoop_fresh rnd s attempts fuel pid :
  generateLoop rnd s attempts fuel = Some pid ->
  taken s pid = false /\ JS.is4digit pid = true.
Proof.
  revert attempts. induction fuel as [|fuel IH]; intros attempts; simpl.
  - destruct (Nat.ltb 1000 (S attempts)); [done|].
    destruct (taken s (JS.toString (randomNum (rnd attempts)))) eqn:Ht; [done|].
    intros [= <-]. split; [done|apply is4digit_randomNum].
  - destruct (Nat.ltb 1000 (S attempts)); [done|].
    destruct (taken s (JS.toString (randomNum (rnd attempts)))) eqn:Ht; [apply IH|].
    intros [= <-]. split; [done|apply is4digit_randomNum].
Qed.

Lemma generateUniquePlayerID_fresh rnd s pid s' :
  generateUniquePlayerID rnd s = Some (pid, s') ->
  (pid ∉ usedPlayerIDs s) /\ OMap.get pid (clients s) = None /\
  JS.is4digit pid = true /\
  s' = saveUsedIDs (with_used (fun u => {[pid]} ∪ u) s).
Proof.
  unfold generateUniquePlayerID.
  destruct (generateLoop rnd s 0 1000) as [p|] eqn:Hg; [|done].
  intros [= <- <-]. apply generateLoop_fresh in Hg as [Ht H4].
  unfold taken in Ht. apply orb_false_elim in Ht as [Hu Hc].
  apply bool_decide_eq_false in Hu.
  unfold OMap.has in Hc. destruct (OMap.get p (clients s)); done.
Qed.

Lemma skel_handleRequestID w now rnd p s :
  skel (handleRequestID w now rnd p s) = skel s \/
  exists pid, JS.is4digit pid = true /\ OMap.get pid (clients s) = None /\
    skel (handleRequestID w now rnd p s) = kInstall w pid (skel s).
Proof.
  unfold handleRequestID.
  destruct (generateUniquePlayerID rnd s) as [[pid s1]|] eqn:Hg; [|by left].
  apply generateUniquePlayerID_fresh in Hg as (_ & Hc & H4 & ->).
  right. exists pid. split; [done|]. split; [done|].
  rewrite skel_sendPlayerOnline, skel_socket_send.
  unfold closePrevious. simpl. rewrite Hc.
  apply skel_install.
  by rewrite skel_update_client_name, skel_update_client_playerID, skel_persist.
Qed.

Lemma skel_handleReconnect w now p s :
  skel (handleReconnect w now p s) = skel s \/
  exists pid, JS.is4digit pid = true /\
    skel (handleReconnect w now p s) = kBind w pid (kCancel pid (skel s)).
Proof.
  unfold handleReconnect.
  destruct (JS.truthy (field p_playerID p)) as [pid|];
    [|left; apply skel_socket_send].
  destruct (JS.is4digit pid) eqn:H4; [|left; apply skel_socket_send].
  right. exists pid. split; [done|].
  rewrite skel_resumeOpponent, skel_sendPlayerOnline, skel_socket_send.
  apply skel_install.
  by rewrite skel_update_client_name, skel_update_client_playerID,
    skel_closePrevious, skel_cancelOffline.
Qed.

Lemma skel_handleUpdateName w p s : skel (handleUpdateName w p s) = skel s.
Proof.
  unfold handleUpdateName. repeat case_match; try done;
    rewrite ?skel_send, ?skel_update_client_name; done.
Qed.

Lemma skel_handleStateUpdate w p s : skel (handleStateUpdate w p s) = skel s.
Proof.
  unfold handleStateUpdate. rewrite skel_update_client_lastState.
  destruct (JS.truthy (field p_opponentID p));
    rewrite ?skel_update_client_opponent;
    destruct (field p_location p); rewrite ?skel_update_client_location;
    destruct (JS.truthy (field p_name p)); rewrite ?skel_update_client_name;
    done.
Qed.

Lemma skel_handleGameStart w cur p s : skel (handleGameStart w cur p s) = skel s.
Proof.
  unfold handleGameStart. repeat case_match; try done;
    rewrite ?skel_send, ?skel_socket_send, ?skel_update_client_opponent; done.
Qed.

Lemma skel_forwardToOpponent cur p e s :
  skel (forwardToOpponent cur p e s) = skel s.
Proof.
  unfold forwardToOpponent. repeat case_match; try done; apply skel_send.
Qed.

Lemma skel_handleSearch cur p s : skel (handleSearch cur p s) = skel s.
Proof. unfold handleSearch. repeat case_match; apply skel_send. Qed.

Lemma skel_handleScoreUpdate cur p s : skel (handleScoreUpdate cur p s) = skel s.
Proof. unfold handleScoreUpdate. case_match; [apply skel_send|done]. Qed.

Lemma skel_handleApplyBrisks cur p s : skel (handleApplyBrisks cur p s) = skel s.
Proof.
  unfold handleApplyBrisks. destruct p; [apply skel_forwardToOpponent|done].
Qed.

Lemma skel_handleOpponentUndo cur p s :
  skel (handleOpponentUndo cur p s) = skel s.
Proof.
  unfold handleOpponentUndo. destruct p; [apply skel_forwardToOpponent|done].
Qed.

Ltac dispatch_type :=
  match goal with
  | |- context [if String.eqb ?a ?b then _ else _] =>
      let E := fresh "Etype" in destruct (String.eqb a b) eqn:E
  end.

Lemma skel_handleMessage w now rnd m s :
  skel (handleMessage w now rnd m s) = skel s \/
  w ∈ wsToClient s /\
  exists pid, JS.is4digit pid = true /\
    ((OMap.get pid (clients s) = None /\
      skel (handleMessage w now rnd m s) = kInstall w pid (skel s)) \/
     skel (handleMessage w now rnd m s) = kBind w pid (kCancel pid (skel s))).
Proof.
  unfold handleMessage. case_bool_decide as Hw; [|by left].
  destruct (clientOf s w) as [c|]; [|by left].
  dispatch_type.
  { destruct (skel_handleRequestID w now rnd (payload m) s)
      as [Hs|(pid & H4 & Hc & Hs)]; [by left|].
    right. split; [done|]. exists pid. split; [done|]. left. done. }
  dispatch_type.
  { destruct (skel_handleReconnect w now (payload m) s)
      as [Hs|(pid & H4 & Hs)]; [by left|].
    right. split; [done|]. exists pid. split; [done|]. right. done. }
  left. repeat dispatch_type;
    first
      [ done | apply skel_handleUpdateName | apply skel_handleStateUpdate
      | apply skel_update_client_location | apply skel_handleGameStart
      | apply skel_handleScoreUpdate | apply skel_handleApplyBrisks
      | apply skel_handleOpponentUndo | apply skel_forwardToOpponent
      | apply skel_send | apply skel_handleSearch ].
Qed.

(** ** The skeleton of the event handlers *)

Lemma skel_onConnection now rnd s :
  skel (onConnection now rnd s)
  = kConnect ("temp_" +:+ JS.toString now +:+ "_" +:+ rnd) (skel s).
Proof.
  unfold onConnection. rewrite skel_socket_send.
  unfold skel, kConnect. simpl. rewrite fmap_app, length_fmap. reflexivity.
Qed.

Lemma shapes_lookup s w : k_shapes (skel s) !! w = shape <$> conns s !! w.
Proof. simpl. apply list_lookup_fmap. Qed.

Lemma skel_scheduleOffline pid now s :
  skel (scheduleOffline pid now s) = kSchedule pid now (skel s).
Proof. reflexivity. Qed.

Lemma skel_closeHandler w now s :
  skel (closeHandler w now s) = kCloseHandler w now (skel s).
Proof.
  unfold closeHandler, kCloseHandler. rewrite shapes_lookup.
  change (k_tracked (skel s)) with (wsToClient s).
  change (k_clients (skel s)) with (clients s).
  case_bool_decide.
  - unfold clientOf. destruct (conns s !! w) as [c|]; simpl; [|done].
    destruct (negb _ && _); [|done].
    destruct (OMap.get _ _); [|done].
    case_bool_decide; done.
  - destruct (List.find _ _) as [[pid ?]|]; done.
Qed.

Lemma skel_onClose w now s : skel (onClose w now s) = kOnClose w now (skel s).
Proof.
  unfold onClose, kOnClose. rewrite shapes_lookup.
  destruct (conns s !! w) as [c|]; simpl; [|done].
  destruct (readyState c) eqn:Hr; simpl; try done;
    rewrite skel_closeHandler; f_equal; by apply skel_update_conn.
Qed.

Lemma skel_onTimeout timer now s :
  skel (onTimeout timer now s) = kOnTimeout timer now (skel s).
Proof.
  unfold onTimeout, kOnTimeout. simpl.
  destruct (timers s !! timer) as [[pid due]|]; [|done].
  destruct (due <=? now)%Z; [|done].
  unfold offlineExpired. by rewrite skel_sendPlayerOffline.
Qed.

Lemma step_ktrans s e : ktrans (skel s) (skel (step s e)).
Proof.
  destruct e as [now rnd|w now rnd m|w now|timer now]; simpl.
  - rewrite skel_onConnection. apply ktrans_connect, temp_not_4digit.
  - destruct (skel_handleMessage w now rnd m s)
      as [->|(Hw & pid & H4 & [[Hc ->]| ->])].
    + apply ktrans_stutter.
    + by apply ktrans_request.
    + by apply ktrans_reconnect.
  - rewrite skel_onClose. apply ktrans_close.
  - rewrite skel_onTimeout. apply ktrans_timeout.
Qed.

(** ** The registry invariant is inductive *)

Lemma SInv_init loaded : Inv (init loaded).
Proof.
  constructor; simpl; try done. apply NoDup_nil_2.
Qed.

Lemma SInv_connect tmp k :
  JS.is4digit tmp = false -> SInv k -> SInv (kConnect tmp k).
Proof.
  intros Htmp [T K J Ks ND Tm]. constructor; simpl.
  - intros w [->%elem_of_singleton|Hw]%elem_of_union.
    + exists tmp. by apply list_lookup_middle.
    + destruct (T w Hw) as [p Hp]. exists p. by apply lookup_app_l_Some.
  - intros w p [H|[Hle H]]%lookup_app_Some.
    + apply elem_of_union_r. by eapply K.
    + apply elem_of_union_l, elem_of_singleton.
      apply list_lookup_singleton_Some in H as [H _]. lia.
  - intros w r p Hw [H|[Hle H]]%lookup_app_Some H4.
    + apply elem_of_union in Hw as [->%elem_of_singleton|Hw].
      * apply lookup_lt_Some in H. lia.
      * by eapply J.
    + apply list_lookup_singleton_Some in H as [_ [= <- <-]]. congruence.
  - intros p w H. destruct (Ks p w H) as (H4 & r & q & Hq & Hq4).
    split; [done|]. exists r, q. split; [|done]. by apply lookup_app_l_Some.
  - done.
  - intros h pid due H. destruct (Tm h pid due H) as (Ho & Hn & w & p & Hc & Hs).
    split; [done|]. split; [done|]. exists w, p. split; [done|].
    by apply lookup_app_l_Some.
Qed.

Lemma SInv_closePrevious w pid k : SInv k -> SInv (kClosePrevious w pid k).
Proof.
  intros HI. unfold kClosePrevious.
  destruct (OMap.get pid (k_clients k)) as [prev|]; [|done].
  case_bool_decide as Hne; [|done].
  destruct HI as [T K J Ks ND Tm]. constructor; simpl.
  - intros x [Hx Hxp]%elem_of_difference.
    rewrite list_lookup_alter_ne; [by apply T|].
    intros ->. apply Hxp. by apply elem_of_singleton.
  - intros x p. rewrite list_lookup_alter. case_decide as Hd.
    + subst x. destruct (k_shapes k !! prev) as [[r q]|]; simpl; [|done].
      by destruct r.
    + intros H. apply elem_of_difference. split; [by eapply K|].
      rewrite elem_of_singleton. congruence.
  - intros x r p [Hx Hxp]%elem_of_difference.
    rewrite list_lookup_alter_ne; [by apply J|].
    intros ->. apply Hxp. by apply elem_of_singleton.
  - intros p x H. destruct (Ks p x H) as (H4 & r & q & Hq & Hq4).
    split; [done|]. rewrite list_lookup_alter. case_decide as Hd.
    + subst x. rewrite Hq. simpl. by exists (closing r), q.
    + by exists r, q.
  - done.
  - intros h pid' due H.
    destruct (Tm h pid' due H) as (Ho & Hn & x & p & Hc & Hs).
    split; [done|]. split; [done|]. exists x, p. split; [done|].
    rewrite list_lookup_alter. case_decide as Hd; [|done].
    subst x. by rewrite Hs.
Qed.

Lemma SInv_cancel pid k :
  SInv k ->
  SInv (kCancel pid k) /\
  forall h due, k_timers (kCancel pid k) !! h ≠ Some (pid, due).
Proof.
  intros [T K J Ks ND Tm]. unfold kCancel.
  destruct (k_offline k !! pid) as [pending|] eqn:Hp.
  - split.
    + constructor; simpl; try done.
      intros h pid' due [Hh H]%lookup_delete_Some.
      destruct (Tm h pid' due H) as (Ho & Hn & Hx).
      split; [|done]. rewrite lookup_delete_ne; [done|].
      intros ->. congruence.
    + simpl. intros h due [Hh H]%lookup_delete_Some.
      destruct (Tm h pid due H) as (Ho & _). congruence.
  - split; [done|]. intros h due H.
    destruct (Tm h pid due H) as (Ho & _). congruence.
Qed.

Lemma SInv_install w pid k :
  w ∈ k_tracked k -> JS.is4digit pid = true ->
  (forall x, OMap.get pid (k_clients k) = Some x -> x ∈ k_tracked k -> x = w) ->
  (forall h due, k_timers k !! h ≠ Some (pid, due)) ->
  SInv k -> SInv (kInstall w pid k).
Proof.
  intros Hw H4 Hholder Hnotimer [T K J Ks ND Tm].
  destruct (T w Hw) as [p0 Hp0].
  constructor; simpl.
  - intros x Hx. rewrite list_lookup_alter. case_decide as Hd.
    + subst x. rewrite Hp0. by exists pid.
    + apply T. apply elem_of_union in Hx as [->%elem_of_singleton|Hx]; done.
  - intros x p. rewrite list_lookup_alter. case_decide as Hd.
    + intros _. subst x. apply elem_of_union_l. by apply elem_of_singleton.
    + intros H. apply elem_of_union_r. by eapply K.
  - intros x r p Hx. rewrite list_lookup_alter. case_decide as Hd.
    + subst x. rewrite Hp0. simpl. intros [= <- <-] _.
      apply omap_get_set_eq.
    + intros Hs Hp4.
      assert (Hxt : x ∈ k_tracked k).
      { apply elem_of_union in Hx as [->%elem_of_singleton|Hx]; done. }
      pose proof (J x r p Hxt Hs Hp4) as Hg.
      rewrite omap_get_set_ne; [done|].
      intros <-. apply Hd. symmetry. by apply Hholder.
  - intros p x. destruct (decide (pid = p)) as [<-|Hne].
    + rewrite omap_get_set_eq. intros [= <-]. split; [done|].
      exists OPEN, pid. split; [|done].
      by rewrite list_lookup_alter_eq, Hp0.
    + rewrite omap_get_set_ne by done. intros H.
      destruct (Ks p x H) as (Hp4 & r & q & Hq & Hq4). split; [done|].
      rewrite list_lookup_alter. case_decide as Hd.
      * subst x. rewrite Hq. simpl. by exists r, pid.
      * by exists r, q.
  - by apply omap_nodup_set.
  - intros h pid' due H.
    destruct (Tm h pid' due H) as (Ho & Hn & x & p & Hc & Hs).
    split; [done|]. split; [done|]. exists x, p.
    assert (pid ≠ pid') by (intros <-; by eapply Hnotimer).
    rewrite omap_get_set_ne by done. split; [done|].
    rewrite list_lookup_alter_ne; [done|]. intros <-. congruence.
Qed.

Lemma SInv_bind w pid k :
  w ∈ k_tracked k -> JS.is4digit pid = true ->
  (forall h due, k_timers k !! h ≠ Some (pid, due)) ->
  SInv k -> SInv (kBind w pid k).
Proof.
  intros Hw H4 Hnotimer HI. unfold kBind.
  pose proof (SInv_closePrevious w pid k HI) as HI'.
  unfold kClosePrevious in *.
  destruct (OMap.get pid (k_clients k)) as [prev|] eqn:Hprev.
  - case_bool_decide as Hne.
    + apply SInv_install; simpl; try done.
      * apply elem_of_difference. split; [done|].
        rewrite elem_of_singleton. congruence.
      * rewrite Hprev. intros x [= <-] [_ Hx]%elem_of_difference.
        exfalso. apply Hx. by apply elem_of_singleton.
    + apply SInv_install; try done.
      rewrite Hprev. intros x [= <-] _.
      destruct (decide (prev = w)) as [|Hd]; [done|by destruct Hne].
  - apply SInv_install; try done. by rewrite Hprev.
Qed.

Lemma SInv_closed w r p k :
  k_shapes k !! w = Some (r, p) -> SInv k ->
  SInv (kUntrack w (kAlter (fun x => (CLOSED, x.2)) w k)).
Proof.
  intros Hw [T K J Ks ND Tm]. constructor; simpl.
  - intros x [Hx Hxw]%elem_of_difference.
    rewrite list_lookup_alter_ne; [by apply T|].
    intros ->. apply Hxw. by apply elem_of_singleton.
  - intros x q. rewrite list_lookup_alter. case_decide as Hd.
    + subst x. by rewrite Hw.
    + intros H. apply elem_of_difference. split; [by eapply K|].
      rewrite elem_of_singleton. congruence.
  - intros x r' q [Hx Hxw]%elem_of_difference.
    rewrite list_lookup_alter_ne; [by apply J|].
    intros ->. apply Hxw. by apply elem_of_singleton.
  - intros q x H. destruct (Ks q x H) as (H4 & r' & q' & Hq & Hq4).
    split; [done|]. rewrite list_lookup_alter. case_decide as Hd.
    + subst x. rewrite Hq. simpl. by exists CLOSED, q'.
    + by exists r', q'.
  - done.
  - intros h pid due H.
    destruct (Tm h pid due H) as (Ho & Hn & x & q & Hc & Hs).
    split; [done|]. split; [done|]. exists x.
    rewrite list_lookup_alter. case_decide as Hd.
    + subst x. rewrite Hs. by exists q.
    + by exists q.
Qed.

Lemma SInv_schedule pid now w p k :
  OMap.get pid (k_clients k) = Some w ->
  k_shapes k !! w = Some (CLOSED, p) ->
  (forall h due, k_timers k !! h ≠ Some (pid, due)) ->
  SInv k -> SInv (kSchedule pid now k).
Proof.
  intros Hc Hs Hnotimer [T K J Ks ND Tm]. constructor; simpl; try done.
  intros h pid' due [[<- [= <- <-]]|[Hh H]]%lookup_insert_Some.
  - rewrite lookup_insert_eq. split; [done|]. split; [lia|]. by exists w, p.
  - destruct (Tm h pid' due H) as (Ho & Hn & Hx).
    assert (pid ≠ pid') by (intros <-; by eapply Hnotimer).
    rewrite lookup_insert_ne by done. split; [done|]. split; [lia|done].
Qed.

Lemma SInv_onClose w now k : SInv k -> SInv (kOnClose w now k).
Proof.
  intros HI. unfold kOnClose.
  destruct (k_shapes k !! w) as [[r p]|] eqn:Hw; [|done].
  assert (Hgoal : r ≠ CLOSED ->
    SInv (kCloseHandler w now (kAlter (fun x => (CLOSED, x.2)) w k))).
  { intros Hr.
    pose proof (SInv_closed w r p k Hw HI) as HI'.
    assert (Hw' : k_shapes (kAlter (fun x => (CLOSED, x.2)) w k) !! w
                  = Some (CLOSED, p)).
    { simpl. by rewrite list_lookup_alter_eq, Hw. }
    assert (Hnotimer : forall pid, OMap.get pid (k_clients k) = Some w ->
              forall h due, k_timers k !! h ≠ Some (pid, due)).
    { intros pid Hc h due H.
      destruct (inv_timers k HI h pid due H) as (_ & _ & x & q & Hx & Hq).
      congruence. }
    unfold kCloseHandler. case_bool_decide as Ht.
    - rewrite Hw'.
      destruct (negb _ && _); [|done].
      destruct (OMap.get p _) as [existing|] eqn:Hc; [|done].
      case_bool_decide as He; [|done]. subst existing.
      eapply SInv_schedule; [exact Hc|exact Hw'| |done].
      by apply Hnotimer.
    - assert (Heq : kUntrack w (kAlter (fun x => (CLOSED, x.2)) w k)
                    = kAlter (fun x => (CLOSED, x.2)) w k).
      { unfold kUntrack. simpl. unfold kAlter. f_equal. simpl in Ht.
        apply difference_disjoint_L, disjoint_singleton_r. exact Ht. }
      rewrite Heq in HI'.
      destruct (List.find _ _) as [[pid cw]|] eqn:Hf; [|done].
      apply find_some in Hf as [Hin ->%bool_decide_eq_true].
      assert (Hc : OMap.get pid (k_clients k) = Some w).
      { apply omap_elem_get; [apply (inv_nodup k HI)|].
        by apply list_elem_of_In. }
      eapply SInv_schedule; [exact Hc|exact Hw'| |done].
      by apply Hnotimer. }
  destruct r; [by apply Hgoal..|done].
Qed.

Lemma SInv_onTimeout timer now k : SInv k -> SInv (kOnTimeout timer now k).
Proof.
  intros HI. unfold kOnTimeout.
  destruct (k_timers k !! timer) as [[pid due]|] eqn:Ht; [|done].
  destruct (due <=? now)%Z; [|done].
  destruct HI as [T K J Ks ND Tm].
  destruct (Tm timer pid due Ht) as (Ho & Hn & wc & pc & Hc & Hs).
  constructor; simpl; try done.
  - intros x r p Hx Hp Hp4. rewrite omap_get_delete_ne; [by eapply J|].
    intros <-. pose proof (J x r pid Hx Hp Hp4) as Hg.
    destruct (T x Hx) as [q Hq]. congruence.
  - intros p x. destruct (decide (pid = p)) as [<-|Hne].
    + by rewrite omap_get_delete_eq.
    + rewrite omap_get_delete_ne by done. apply Ks.
  - by apply omap_nodup_delete.
  - intros h pid' due' [Hh H]%lookup_delete_Some.
    destruct (Tm h pid' due' H) as (Ho' & Hn' & Hx).
    assert (pid ≠ pid') by (intros <-; congruence).
    rewrite lookup_delete_ne by done. split; [done|]. split; [done|].
    by rewrite omap_get_delete_ne.
Qed.

Lemma SInv_ktrans k k' : ktrans k k' -> SInv k -> SInv k'.
Proof.
  intros [|tmp Htmp|w pid Hw H4 Hc|w pid Hw H4|w now|timer now] HI.
  - done.
  - by apply SInv_connect.
  - apply SInv_install; try done.
    + intros x. by rewrite Hc.
    + intros h due H.
      destruct (inv_timers k HI h pid due H) as (_ & _ & x & q & Hx & _).
      congruence.
  - destruct (SInv_cancel pid k HI) as [HI' Hnotimer].
    apply SInv_bind; try done.
    unfold kCancel. by destruct (k_offline k !! pid).
  - by apply SInv_onClose.
  - by apply SInv_onTimeout.
Qed.

Lemma Inv_step s e : Inv s -> Inv (step s e).
Proof. apply SInv_ktrans, step_ktrans. Qed.

Lemma reachable_Inv s : reachable s -> Inv s.
Proof.
  induction 1 as [loaded|s e _ IH]; [apply SInv_init|by apply Inv_step].
Qed.
(** ** Reading the skeleton *)

Lemma isOpen_shape s w :
  isOpen s w = true <-> exists p, k_shapes (skel s) !! w = Some (OPEN, p).
Proof.
  rewrite shapes_lookup. unfold isOpen, shape.
  destruct (conns s !! w) as [c|]; simpl.
  - destruct (readyState c); split; try done; try (intros [p [=]]).
    intros _. by eexists.
  - split; [done|]. by intros [p ?].
Qed.

Lemma playerID_shape s w pid :
  playerID <$> clientOf s w = Some pid <->
  exists r, k_shapes (skel s) !! w = Some (r, pid).
Proof.
  rewrite shapes_lookup. unfold clientOf, shape.
  destruct (conns s !! w) as [c|]; simpl.
  - split; [intros [= <-]; by eexists|by intros [r [= _ <-]]].
  - split; [done|]. by intros [r ?].
Qed.

Lemma bound_shape s w pid :
  bound s w pid <-> k_shapes (skel s) !! w = Some (OPEN, pid).
Proof.
  unfold bound. rewrite isOpen_shape, playerID_shape. split.
  - intros [[p Hp] [r Hr]]. congruence.
  - intros H. split; by eexists.
Qed.

Lemma bound_registered s w pid :
  Inv s -> bound s w pid -> JS.is4digit pid = true ->
  w ∈ wsToClient s /\ OMap.get pid (clients s) = Some w.
Proof.
  intros HI Hb H4. apply bound_shape in Hb.
  assert (Hw : w ∈ k_tracked (skel s)) by (by eapply inv_open_tracked).
  split; [done|]. by eapply (inv_bound _ HI).
Qed.

Lemma reachable_run s es : reachable s -> reachable (run s es).
Proof.
  revert s. induction es as [|e es IH]; intros s H; [done|].
  simpl. apply IH. by constructor.
Qed.

(** ** The identity pool *)

Lemma generateLoop_fuel rnd s fuel attempts fuel' :
  (1000 <= attempts + fuel)%nat -> (fuel <= fuel')%nat ->
  generateLoop rnd s attempts fuel = generateLoop rnd s attempts fuel'.
Proof.
  revert attempts fuel'. induction fuel as [|fuel IH]; intros attempts fuel' Ha Hf.
  - destruct fuel'; simpl; [done|].
    destruct (Nat.ltb_spec 1000 (S attempts)); [done|lia].
  - destruct fuel' as [|fuel']; [lia|]. simpl.
    destruct (Nat.ltb 1000 (S attempts)); [done|].
    destruct (taken s _); [|done]. apply IH; lia.
Qed.

(** ** Rebinding an identifier *)

Lemma closePrevious_closes s w pid prev :
  OMap.get pid (clients s) = Some prev -> prev ≠ w ->
  isOpen (closePrevious w pid s) prev = false /\
  (prev ∉ wsToClient (closePrevious w pid s)) /\
  clients (closePrevious w pid s) = clients s.
Proof.
  intros Hc Hne.
  assert (Hk : skel (closePrevious w pid s)
               = kClosePrevious w pid (skel s)) by apply skel_closePrevious.
  unfold kClosePrevious in Hk. simpl in Hk. rewrite Hc in Hk.
  rewrite bool_decide_eq_true_2 in Hk by done.
  split; [|split].
  - destruct (isOpen (closePrevious w pid s) prev) eqn:Ho; [|done].
    apply isOpen_shape in Ho as [p Hp]. rewrite Hk in Hp. simpl in Hp.
    rewrite list_lookup_alter_eq in Hp.
    destruct (_ !! prev) as [[[] q]|]; done.
  - change (prev ∉ k_tracked (skel (closePrevious w pid s))).
    rewrite Hk. simpl. rewrite elem_of_difference, elem_of_singleton. tauto.
  - change (k_clients (skel (closePrevious w pid s)) = clients s).
    by rewrite Hk.
Qed.

Lemma kBind_previous s w pid prev k :
  OMap.get pid (clients s) = Some prev -> prev ≠ w ->
  k = kBind w pid (kCancel pid (skel s)) ->
  (forall x q, k_shapes k !! x = Some (OPEN, q) -> x ≠ prev) /\
  (prev ∉ k_tracked k).
Proof.
  intros Hc Hne ->. split.
  - intros x q Hx ->. revert Hx.
    unfold kBind, kInstall. simpl.
    rewrite list_lookup_alter_ne by done.
    unfold kClosePrevious.
    replace (k_clients (kCancel pid (skel s))) with (clients s)
      by (unfold kCancel; by case_match).
    rewrite Hc, bool_decide_eq_true_2 by done. simpl.
    rewrite list_lookup_alter_eq.
    destruct (_ !! prev) as [[[] ?]|]; done.
  - unfold kBind, kInstall. simpl. unfold kClosePrevious.
    replace (k_clients (kCancel pid (skel s))) with (clients s)
      by (unfold kCancel; by case_match).
    rewrite Hc, bool_decide_eq_true_2 by done. simpl.
    rewrite elem_of_union, elem_of_singleton, elem_of_difference,
      elem_of_singleton. tauto.
Qed.

Lemma handleMessage_rebind s w now rnd m pid prev :
  OMap.get pid (clients s) = Some prev -> prev ≠ w ->
  OMap.get pid (clients (handleMessage w now rnd m s)) = Some w ->
  isOpen (handleMessage w now rnd m s) prev = false /\
  (prev ∉ wsToClient (handleMessage w now rnd m s)).
Proof.
  intros Hc Hne Hc'.
  change (clients (handleMessage w now rnd m s))
    with (k_clients (skel (handleMessage w now rnd m s))) in Hc'.
  destruct (skel_handleMessage w now rnd m s)
    as [Hs|(Hw & pid' & H4 & [[Hn Hs]|Hs])]; rewrite Hs in Hc'.
  - simpl in Hc'. congruence.
  - simpl in Hc'. destruct (decide (pid' = pid)) as [->|Hp]; [congruence|].
    rewrite omap_get_set_ne in Hc' by done. congruence.
  - assert (pid' = pid) as ->.
    { destruct (decide (pid' = pid)) as [|Hp]; [done|].
      unfold kBind, kClosePrevious, kCancel in Hc'.
      repeat case_match; simpl in Hc';
        rewrite omap_get_set_ne in Hc' by done; congruence. }
    destruct (kBind_previous s w pid prev _ Hc Hne Hs) as [Hshape Ht].
    split.
    + destruct (isOpen _ prev) eqn:Ho; [|done].
      apply isOpen_shape in Ho as [q Hq]. by destruct (Hshape _ _ Hq).
    + exact Ht.
Qed.

(** C1. At most one live session per identifier: in every reachable state
    two open sockets whose sessions hold the same four-digit identifier
    are the same socket; [generateUniquePlayerID] never returns an
    identifier of the durable set or of the identifier map, hence none
    held by a live session; and whenever handling a message moves an
    identifier from a holder [prev] to another socket, [prev] is no longer
    open and no longer in [wsToClient] (already so after [closePrevious],
    which runs before the new binding is installed). *)
Theorem one_live_session_per_identifier :
  (forall s pid w1 w2,
      reachable s -> JS.is4digit pid = true ->
      bound s w1 pid -> bound s w2 pid -> w1 = w2) /\
  (forall rnd s pid s',
      generateUniquePlayerID rnd s = Some (pid, s') ->
      (pid ∉ usedPlayerIDs s) /\ OMap.get pid (clients s) = None /\
      (reachable s -> forall w, ~ bound s w pid)) /\
  (forall s w pid prev,
      OMap.get pid (clients s) = Some prev -> prev ≠ w ->
      isOpen (closePrevious w pid s) prev = false /\
      (prev ∉ wsToClient (closePrevious w pid s)) /\
      clients (closePrevious w pid s) = clients s) /\
  (forall s w now rnd m pid prev,
      OMap.get pid (clients s) = Some prev -> prev ≠ w ->
      OMap.get pid (clients (handleMessage w now rnd m s)) = Some w ->
      isOpen (handleMessage w now rnd m s) prev = false /\
      (prev ∉ wsToClient (handleMessage w now rnd m s))).
Proof.
  split; [|split; [|split]].
  - intros s pid w1 w2 Hr H4 H1 H2. apply reachable_Inv in Hr.
    destruct (bound_registered s w1 pid Hr H1 H4) as [_ E1].
    destruct (bound_registered s w2 pid Hr H2 H4) as [_ E2]. congruence.
  - intros rnd s pid s' Hg.
    apply generateUniquePlayerID_fresh in Hg as (Hu & Hc & H4 & _).
    split; [done|]. split; [done|]. intros Hr w Hb. apply reachable_Inv in Hr.
    destruct (bound_registered s w pid Hr Hb H4) as [_ E]. congruence.
  - apply closePrevious_closes.
  - apply handleMessage_rebind.
Qed.

Lemma one_live_session_per_identifier_witness :
  let s := run (init ∅)
             [Connection 5 "0.1"; Connection 6 "0.2";
              reconnectAs 0 1700000000000 "1111"] in
  let m := msg "player:reconnect" (payloadPlayerID "1111") in
  let s' := handleMessage 1 1700000000500 (fun _ => 0%N) m s in
  (reachable s /\ JS.is4digit "1111" = true /\ bound s 0 "1111" /\ 0 = 0) /\
  (generateUniquePlayerID (fun _ => 0%N) s
   = Some ("1000", saveUsedIDs (with_used (fun u => {["1000"]} ∪ u) s)) /\
   ("1000" ∉ usedPlayerIDs s) /\ OMap.get "1000" (clients s) = None) /\
  (OMap.get "1111" (clients s) = Some 0 /\ 0 ≠ 1 /\
   OMap.get "1111" (clients s') = Some 1 /\
   isOpen s' 0 = false /\ (0 ∉ wsToClient s')).
Proof.
  intros s m s'.
  assert (Hr : reachable s) by apply reachable_run, reachable_init.
  assert (Hb : bound s 0 "1111") by (split; reflexivity).
  assert (Hc : OMap.get "1111" (clients s) = Some 0) by reflexivity.
  assert (Hc' : OMap.get "1111" (clients s') = Some 1) by reflexivity.
  assert (Hg : generateUniquePlayerID (fun _ => 0%N) s
     = Some ("1000", saveUsedIDs (with_used (fun u => {["1000"]} ∪ u) s)))
    by reflexivity.
  split; [|split].
  - split; [exact Hr|]. split; [reflexivity|]. split; [exact Hb|].
    exact (proj1 one_live_session_per_identifier s "1111" 0 0 Hr eq_refl Hb Hb).
  - split; [exact Hg|].
    destruct (proj1 (proj2 one_live_session_per_identifier) _ _ _ _ Hg)
      as (Hu & Hn & _).
    split; [exact Hu|exact Hn].
  - split; [done|]. split; [lia|]. split; [done|].
    apply (proj2 (proj2 (proj2 one_live_session_per_identifier))
             s 1 1700000000500%Z (fun _ => 0%N) m "1111" 0 Hc); [lia|exact Hc'].
Defined.

(** ** What the sending operations leave alone *)

Lemma isOpen_skel s s' w : skel s' = skel s -> isOpen s' w = isOpen s w.
Proof.
  intros H. destruct (isOpen s w) eqn:Ho.
  - apply isOpen_shape. rewrite H. by apply isOpen_shape.
  - destruct (isOpen s' w) eqn:Ho'; [|done].
    apply isOpen_shape in Ho'. rewrite H in Ho'.
    apply isOpen_shape in Ho'. congruence.
Qed.

Lemma outboxOf_update_conn w f s x :
  (forall c, outbox (f c) = outbox c) ->
  outboxOf (update_conn w f s) x = outboxOf s x.
Proof.
  intros H. unfold outboxOf, update_conn. simpl.
  rewrite list_lookup_alter. case_decide as Hd; [|done].
  subst x. destruct (conns s !! w); simpl; [apply H|done].
Qed.

Lemma outboxOf_socket_send_eq w e s :
  isOpen s w = true -> outboxOf (socket_send w e s) w = outboxOf s w ++ [e].
Proof.
  intros Ho. unfold socket_send. rewrite Ho.
  unfold outboxOf, update_conn. simpl. rewrite list_lookup_alter_eq.
  unfold isOpen in Ho. by destruct (conns s !! w).
Qed.

Lemma outboxOf_socket_send_ne w e s x :
  w ≠ x -> outboxOf (socket_send w e s) x = outboxOf s x.
Proof.
  intros Hne. unfold socket_send. destruct (isOpen s w); [|done].
  unfold outboxOf, update_conn. simpl. by rewrite list_lookup_alter_ne.
Qed.

Lemma socket_send_closed w e s : isOpen s w = false -> socket_send w e s = s.
Proof. intros Ho. unfold socket_send. by rewrite Ho. Qed.

Lemma clientOf_socket_send w e s x :
  clientOf (socket_send w e s) x = clientOf s x.
Proof.
  unfold socket_send. destruct (isOpen s w); [|done].
  unfold clientOf, update_conn. simpl. rewrite list_lookup_alter.
  case_decide as Hd; [|done]. subst x. by destruct (conns s !! w).
Qed.

(** [send] writes to the socket registered for [pid], if any. *)
Lemma send_socket_send pid e s :
  send pid e s = match OMap.get pid (clients s) with
                 | Some w => socket_send w e s
                 | None => s
                 end.
Proof.
  unfold send. destruct (OMap.get pid (clients s)) as [w|]; [|done].
  destruct (isOpen s w) eqn:Ho; [done|]. by rewrite socket_send_closed.
Qed.

Lemma sends_only_refl s : sends_only s s.
Proof. unfold sends_only. split_and!; done. Qed.

Lemma sends_only_trans s1 s2 s3 :
  sends_only s1 s2 -> sends_only s2 s3 -> sends_only s1 s3.
Proof.
  intros (A1 & B1 & C1 & D1 & E1 & F1) (A2 & B2 & C2 & D2 & E2 & F2).
  unfold sends_only. split_and!; try congruence.
  intros x. etrans; [apply E1|apply E2].
Qed.

Lemma sends_only_socket_send w e s : sends_only s (socket_send w e s).
Proof.
  split; [apply skel_socket_send|].
  unfold socket_send. destruct (isOpen s w) eqn:Ho;
    [|split_and!; done].
  split_and!; try done.
  - intros x. destruct (decide (w = x)) as [<-|Hne].
    + pose proof (outboxOf_socket_send_eq w e s Ho) as H.
      unfold socket_send in H. rewrite Ho in H. rewrite H.
      by apply prefix_app_r.
    + pose proof (outboxOf_socket_send_ne w e s x Hne) as H.
      unfold socket_send in H. rewrite Ho in H. by rewrite H.
  - intros x. pose proof (clientOf_socket_send w e s x) as H.
    unfold socket_send in H. by rewrite Ho in H.
Qed.

Lemma sends_only_send pid e s : sends_only s (send pid e s).
Proof.
  rewrite send_socket_send. destruct (OMap.get pid (clients s));
    [apply sends_only_socket_send|apply sends_only_refl].
Qed.

Lemma sends_only_resumeOpponent w pid s : sends_only s (resumeOpponent w pid s).
Proof.
  unfold resumeOpponent. repeat case_match;
    first [apply sends_only_send | apply sends_only_refl].
Qed.

(** [sendPlayerOnline] besides the time stamp it records. *)
Lemma sendPlayerOnline_sends now pid s :
  sendPlayerOnline now pid s = s \/
  sends_only (with_lastOnline (fun m => <[pid := now]> m) s)
    (sendPlayerOnline now pid s).
Proof.
  unfold sendPlayerOnline. destruct (_ <? _)%Z; [by left|]. right.
  repeat case_match; first [apply sends_only_send | apply sends_only_refl].
Qed.

Lemma sends_only_sendPlayerOnline now pid s :
  sends_only s (sendPlayerOnline now pid s).
Proof.
  destruct (sendPlayerOnline_sends now pid s) as [->|H];
    [apply sends_only_refl|].
  eapply sends_only_trans; [|exact H]. unfold sends_only. split_and!; done.
Qed.

(** ** Reconnecting *)

Lemma closePrevious_quiet w pid s :
  usedPlayerIDs (closePrevious w pid s) = usedPlayerIDs s /\
  persistRequests (closePrevious w pid s) = persistRequests s /\
  forall x, outboxOf (closePrevious w pid s) x = outboxOf s x.
Proof.
  unfold closePrevious. destruct (OMap.get pid (clients s)) as [prev|]; [|done].
  case_bool_decide; [|done]. split_and!; try done.
  intros x. unfold socket_close.
  change (outboxOf (with_wsToClient _ ?t) x) with (outboxOf t x).
  apply outboxOf_update_conn. intros c. by destruct (readyState c).
Qed.

Lemma cancelOffline_quiet pid s :
  usedPlayerIDs (cancelOffline pid s) = usedPlayerIDs s /\
  persistRequests (cancelOffline pid s) = persistRequests s /\
  forall x, outboxOf (cancelOffline pid s) x = outboxOf s x.
Proof. unfold cancelOffline. by destruct (offlineTimers s !! pid). Qed.

Lemma handleReconnect_accepted w now p s pid :
  field p_playerID p = Some pid -> JS.is4digit pid = true ->
  exists sA,
    handleReconnect w now p s
    = resumeOpponent w pid
        (sendPlayerOnline now pid
           (socket_send w (player_reconnected pid) sA)) /\
    skel sA = kBind w pid (kCancel pid (skel s)) /\
    usedPlayerIDs sA = {[pid]} ∪ usedPlayerIDs s /\
    persistRequests sA = S (persistRequests s) /\
    forall x, outboxOf sA x = outboxOf s x.
Proof.
  intros Hf H4. unfold handleReconnect. rewrite Hf.
  assert (JS.truthy (Some pid) = Some pid) as -> by (by destruct pid).
  rewrite H4. eexists. split; [reflexivity|].
  destruct (closePrevious_quiet w pid (cancelOffline pid s)) as (U1 & P1 & O1).
  destruct (cancelOffline_quiet pid s) as (U2 & P2 & O2).
  split_and!.
  - change (skel (saveUsedIDs (with_used ?f ?t))) with (skel t).
    apply skel_install.
    by rewrite skel_update_client_name, skel_update_client_playerID,
      skel_closePrevious, skel_cancelOffline.
  - simpl. by rewrite U1, U2.
  - simpl. by rewrite P1, P2.
  - intros x.
    change (outboxOf (saveUsedIDs (with_used ?f (with_wsToClient ?g
              (with_clients ?h ?t)))) x) with (outboxOf t x).
    unfold update_client.
    rewrite !outboxOf_update_conn by done. by rewrite O1, O2.
Qed.

Lemma kBind_installed w pid k :
  SInv k -> w ∈ k_tracked k ->
  k_shapes (kBind w pid (kCancel pid k)) !! w = Some (OPEN, pid) /\
  OMap.get pid (k_clients (kBind w pid (kCancel pid k))) = Some w /\
  (w ∈ k_tracked (kBind w pid (kCancel pid k))) /\
  k_offline (kBind w pid (kCancel pid k)) !! pid = None /\
  (forall h, k_offline k !! pid = Some h ->
     k_timers (kBind w pid (kCancel pid k)) !! h = None).
Proof.
  intros HI Hw. destruct (inv_tracked_open k HI w Hw) as [p0 Hp0].
  assert (Hc : k_shapes (kCancel pid k) = k_shapes k /\
               k_clients (kCancel pid k) = k_clients k)
    by (unfold kCancel; by case_match).
  destruct Hc as [Hcs Hcc].
  unfold kBind, kInstall. simpl. split_and!.
  - rewrite list_lookup_alter_eq. unfold kClosePrevious. rewrite Hcc.
    destruct (OMap.get pid (k_clients k)) as [prev|]; simpl.
    + case_bool_decide as Hne; simpl.
      * rewrite list_lookup_alter_ne by done. by rewrite Hcs, Hp0.
      * by rewrite Hcs, Hp0.
    + by rewrite Hcs, Hp0.
  - apply omap_get_set_eq.
  - apply elem_of_union_l. by apply elem_of_singleton.
  - unfold kClosePrevious, kCancel.
    destruct (k_offline k !! pid) eqn:Ho; simpl;
      repeat case_match; simpl; rewrite ?lookup_delete_eq; done.
  - intros h Ho. unfold kClosePrevious, kCancel. rewrite Ho. simpl.
    repeat case_match; simpl; by rewrite lookup_delete_eq.
Qed.

(** C2. Reconnect validation is the format check.  A reconnect message
    from a tracked socket whose payload identifier has four digits is
    accepted whatever the identity pool holds: the pending offline timer of
    the identifier is cancelled, a previous holder on another socket is
    closed and dropped, the socket is bound, the identifier is in the
    durable set, a persist request is issued and the sender is sent
    [player:reconnected].  With the identifier absent or malformed the
    only change is [player:invalid_id] appended to the sender's outbox. *)
Theorem reconnect_validation_is_format_check s w now rnd p :
  reachable s -> w ∈ wsToClient s ->
  let s' := handleMessage w now rnd
              {| type := "player:reconnect"; payload := p |} s in
  (forall pid,
      field p_playerID p = Some pid -> JS.is4digit pid = true ->
      offlineTimers s' !! pid = None /\
      (forall h, offlineTimers s !! pid = Some h -> timers s' !! h = None) /\
      (forall prev, OMap.get pid (clients s) = Some prev -> prev ≠ w ->
         isOpen s' prev = false /\ (prev ∉ wsToClient s')) /\
      bound s' w pid /\ OMap.get pid (clients s') = Some w /\
      (w ∈ wsToClient s') /\
      (pid ∈ usedPlayerIDs s') /\
      persistRequests s' = S (persistRequests s) /\
      exists rest,
        outboxOf s' w = outboxOf s w ++ player_reconnected pid :: rest) /\
  ((field p_playerID p = None \/
    exists pid, field p_playerID p = Some pid /\ JS.is4digit pid = false) ->
   s' = with_conns
          (alter (fun c => with_outbox
                    (outbox c ++ [player_invalid_id "Invalid player ID format"]) c)
                 w) s).
Proof.
  intros Hr Hw s'. apply reachable_Inv in Hr.
  destruct (inv_tracked_open _ Hr w Hw) as [p0 Hp0].
  assert (Hopen : isOpen s w = true) by (apply isOpen_shape; eauto).
  assert (Hc0 : exists c, clientOf s w = Some c).
  { rewrite shapes_lookup in Hp0. unfold clientOf.
    destruct (conns s !! w); [by eexists|done]. }
  destruct Hc0 as [c Hc0].
  assert (Hs' : s' = handleReconnect w now p s).
  { unfold s', handleMessage. rewrite bool_decide_eq_true_2 by done.
    by rewrite Hc0. }
  split.
  - intros pid Hf H4.
    destruct (handleReconnect_accepted w now p s pid Hf H4)
      as (sA & HsA & Hk & Hu & Hp & Ho).
    rewrite <- Hs' in HsA.
    set (sB := socket_send w (player_reconnected pid) sA) in *.
    assert (Hsend : sends_only sB s').
    { rewrite HsA. eapply sends_only_trans;
        [apply sends_only_sendPlayerOnline|apply sends_only_resumeOpponent]. }
    destruct Hsend as (Sk & Su & Sp & _ & Spre & _).
    assert (Hk' : skel s' = kBind w pid (kCancel pid (skel s))).
    { rewrite Sk. unfold sB. by rewrite skel_socket_send. }
    destruct (kBind_installed w pid (skel s) Hr Hw) as (K1 & K2 & K3 & K4 & K5).
    rewrite <- Hk' in K1, K2, K3, K4, K5.
    split_and!; try done.
    + intros prev Hprev Hne.
      destruct (kBind_previous s w pid prev _ Hprev Hne Hk') as [Hshape Ht].
      split; [|done].
      destruct (isOpen s' prev) eqn:Hop; [|done].
      apply isOpen_shape in Hop as [q Hq]. by destruct (Hshape _ _ Hq).
    + by apply bound_shape.
    + rewrite Su. unfold sB.
      destruct (sends_only_socket_send w (player_reconnected pid) sA)
        as (_ & -> & _).
      rewrite Hu. apply elem_of_union_l. by apply elem_of_singleton.
    + rewrite Sp. unfold sB.
      destruct (sends_only_socket_send w (player_reconnected pid) sA)
        as (_ & _ & -> & _). done.
    + assert (HopenA : isOpen sA w = true).
      { apply isOpen_shape. exists pid.
        rewrite <- (skel_socket_send w (player_reconnected pid) sA).
        fold sB. by rewrite <- Sk. }
      destruct (Spre w) as [rest Hrest]. exists rest.
      rewrite Hrest. unfold sB.
      rewrite outboxOf_socket_send_eq by done. rewrite Ho.
      by rewrite <- app_assoc.
  - intros Hbad. rewrite Hs'. unfold handleReconnect.
    assert (Hsend : socket_send w (player_invalid_id "Invalid player ID format") s
             = with_conns
                 (alter (fun c => with_outbox
                    (outbox c ++ [player_invalid_id "Invalid player ID format"]) c)
                        w) s).
    { unfold socket_send. by rewrite Hopen. }
    destruct Hbad as [->|(pid & -> & H4)]; [done|].
    destruct pid as [|a pid]; [done|].
    change (JS.truthy (Some (String a pid))) with (Some (String a pid)).
    cbv beta iota. by rewrite H4.
Qed.

Lemma reconnect_validation_is_format_check_witness :
  let s := run (init ∅)
             [Connection 5 "0.1"; Connection 6 "0.2";
              reconnectAs 0 1700000000000 "1111"; Close 0 1700000000100] in
  let good := Some (payloadPlayerID "1111") in
  let bad := Some (payloadPlayerID "12a4") in
  let s1 := handleMessage 1 1700000000500 (fun _ => 0%N)
              {| type := "player:reconnect"; payload := good |} s in
  let s2 := handleMessage 1 1700000000500 (fun _ => 0%N)
              {| type := "player:reconnect"; payload := bad |} s in
  reachable s /\ (1 ∈ wsToClient s) /\
  (JS.is4digit "1111" = true /\ offlineTimers s !! "1111" = Some 0 /\
   timers s1 !! 0 = None /\ bound s1 1 "1111" /\
   outboxOf s1 1 = [connection_established; player_reconnected "1111"]) /\
  (JS.is4digit "12a4" = false /\
   s2 = with_conns
          (alter (fun c => with_outbox
                    (outbox c ++ [player_invalid_id "Invalid player ID format"]) c)
                 1) s).
Proof.
  intros s good bad s1 s2.
  assert (Hr : reachable s) by apply reachable_run, reachable_init.
  assert (Hw : 1 ∈ wsToClient s)
    by (apply (bool_decide_unpack _); vm_compute; exact I).
  split; [exact Hr|]. split; [exact Hw|]. split.
  - destruct (proj1 (reconnect_validation_is_format_check
                       s 1 1700000000500%Z (fun _ => 0%N) good Hr Hw)
                "1111" eq_refl eq_refl)
      as (_ & Ht & _ & Hb & _).
    split; [reflexivity|]. split; [reflexivity|].
    split; [exact (Ht 0 eq_refl)|]. split; [exact Hb|]. reflexivity.
  - split; [reflexivity|].
    apply (proj2 (reconnect_validation_is_format_check
                    s 1 1700000000500%Z (fun _ => 0%N) bad Hr Hw)).
    right. exists "12a4". split; reflexivity.
Defined.

(** ** Presence *)

Lemma Inv_skel s s' : skel s' = skel s -> Inv s -> Inv s'.
Proof. unfold Inv. by intros ->. Qed.

Lemma send_to_session s o ow oc e :
  Inv s -> OMap.get o (clients s) = Some ow -> clientOf s ow = Some oc ->
  isOpen s ow = true -> send (playerID oc) e s = socket_send ow e s.
Proof.
  intros HI Ho Hoc Hopen. rewrite send_socket_send.
  assert (Hb : bound s ow (playerID oc)) by (split; [done|by rewrite Hoc]).
  destruct (inv_keys _ HI o ow Ho) as (_ & r & q & Hq & Hq4).
  assert (q = playerID oc) as ->.
  { apply bound_shape in Hb. congruence. }
  destruct (bound_registered s ow (playerID oc) HI Hb Hq4) as [_ ->]. done.
Qed.

Lemma lastOnline_socket_send w e s :
  lastOnlineBroadcast (socket_send w e s) = lastOnlineBroadcast s.
Proof. unfold socket_send. by destruct (isOpen s w). Qed.

Lemma clients_socket_send w e s : clients (socket_send w e s) = clients s.
Proof. unfold socket_send. by destruct (isOpen s w). Qed.

Lemma declaredOpponent_socket_send w e s pid :
  declaredOpponent (socket_send w e s) pid = declaredOpponent s pid.
Proof.
  unfold declaredOpponent. rewrite clients_socket_send.
  destruct (OMap.get pid (clients s)) as [x|]; simpl; [|done].
  by rewrite clientOf_socket_send.
Qed.

Lemma sendPlayerOnline_suppressed s now pid last :
  lastOnlineBroadcast s !! pid = Some last ->
  (now - last < ONLINE_BROADCAST_DEBOUNCE_MS)%Z ->
  sendPlayerOnline now pid s = s.
Proof.
  intros Hl Hlt. unfold sendPlayerOnline. rewrite Hl. simpl.
  by destruct (Z.ltb_spec (now - last) ONLINE_BROADCAST_DEBOUNCE_MS); [|lia].
Qed.

Lemma sendPlayerOnline_announced s now pid :
  Inv s ->
  (ONLINE_BROADCAST_DEBOUNCE_MS
   <= now - default 0 (lastOnlineBroadcast s !! pid))%Z ->
  sendPlayerOnline now pid s
  = let s1 := with_lastOnline (fun m => <[pid := now]> m) s in
    match declaredOpponent s pid with
    | Some ow => if isOpen s ow then socket_send ow (player_online pid) s1
                 else s1
    | None => s1
    end.
Proof.
  intros HI Hge. unfold sendPlayerOnline.
  destruct (Z.ltb_spec (now - default 0%Z (lastOnlineBroadcast s !! pid))
              ONLINE_BROADCAST_DEBOUNCE_MS) as [|_]; [lia|].
  set (s1 := with_lastOnline (fun m => <[pid := now]> m) s).
  cbv zeta. unfold declaredOpponent.
  change (clients s1) with (clients s).
  destruct (OMap.get pid (clients s)) as [w|]; simpl; [|done].
  change (clientOf s1 w) with (clientOf s w).
  destruct (clientOf s w) as [c|]; simpl; [|done].
  destruct (JS.truthy (opponentID c)) as [o|]; simpl; [|done].
  destruct (OMap.get o (clients s)) as [ow|] eqn:Ho; [|done].
  change (clientOf s1 ow) with (clientOf s ow).
  change (isOpen s1 ow) with (isOpen s ow).
  destruct (clientOf s ow) as [oc|] eqn:Hoc.
  - destruct (isOpen s ow) eqn:Hopen; [|done].
    by apply (send_to_session s1 o ow oc).
  - destruct (isOpen s ow) eqn:Hopen; [|done].
    unfold isOpen in Hopen. unfold clientOf in Hoc.
    by destruct (conns s !! ow).
Qed.

(** C4. Online debounce.  An announcement less than 1500 ms after the
    recorded previous one for the identifier changes nothing.  Otherwise it
    records its time and writes [player:online] to one socket at most:
    that of the declared opponent, when it is registered and open.
    Announcements at [T] and [T + 1000] put one notification
    in the opponent's outbox, announcements at [T] and [T + 2000] two, and
    no other outbox changes. *)
Theorem online_debounce :
  (forall s now pid last,
      lastOnlineBroadcast s !! pid = Some last ->
      (now - last < 1500)%Z ->
      sendPlayerOnline now pid s = s) /\
  (forall s now pid,
      Inv s ->
      (1500 <= now - default 0 (lastOnlineBroadcast s !! pid))%Z ->
      let s1 := with_lastOnline (fun m => <[pid := now]> m) s in
      sendPlayerOnline now pid s
      = match declaredOpponent s pid with
        | Some ow => if isOpen s ow then socket_send ow (player_online pid) s1
                     else s1
        | None => s1
        end /\
      (forall x, declaredOpponent s pid ≠ Some x \/ isOpen s x = false ->
         outboxOf (sendPlayerOnline now pid s) x = outboxOf s x)) /\
  (forall s T pid ow,
      Inv s -> declaredOpponent s pid = Some ow -> isOpen s ow = true ->
      (1500 <= T - default 0 (lastOnlineBroadcast s !! pid))%Z ->
      let s1000 := sendPlayerOnline (T + 1000) pid (sendPlayerOnline T pid s) in
      let s2000 := sendPlayerOnline (T + 2000) pid (sendPlayerOnline T pid s) in
      outboxOf s1000 ow = outboxOf s ow ++ [player_online pid] /\
      outboxOf s2000 ow
      = outboxOf s ow ++ [player_online pid; player_online pid] /\
      (forall x, x ≠ ow ->
         outboxOf s1000 x = outboxOf s x /\ outboxOf s2000 x = outboxOf s x)).
Proof.
  split; [|split].
  - apply sendPlayerOnline_suppressed.
  - intros s now pid HI Hge s1.
    pose proof (sendPlayerOnline_announced s now pid HI Hge) as H.
    cbv zeta in H. fold s1 in H. split; [exact H|].
    intros x Hx. rewrite H.
    destruct (declaredOpponent s pid) as [ow|]; [|done].
    destruct (isOpen s ow) eqn:Hopen; [|done].
    destruct (decide (ow = x)) as [->|Hne].
    + destruct Hx as [Hx|Hx]; congruence.
    + by rewrite outboxOf_socket_send_ne.
  - intros s T pid ow HI Hd Hopen Hge s1000 s2000.
    set (e := player_online pid).
    set (s0 := with_lastOnline (fun m => <[pid := T]> m) s).
    assert (H1 : sendPlayerOnline T pid s = socket_send ow e s0).
    { rewrite (sendPlayerOnline_announced s T pid HI Hge). cbv zeta.
      by rewrite Hd, Hopen. }
    assert (Hl1 : lastOnlineBroadcast (socket_send ow e s0) !! pid = Some T).
    { rewrite lastOnline_socket_send. simpl. apply lookup_insert_eq. }
    assert (Ho1 : outboxOf (socket_send ow e s0) ow = outboxOf s ow ++ [e]).
    { by rewrite outboxOf_socket_send_eq. }
    assert (HI1 : Inv (socket_send ow e s0)).
    { apply (Inv_skel s); [|done]. by rewrite skel_socket_send. }
    assert (Hd1 : declaredOpponent (socket_send ow e s0) pid = Some ow).
    { by rewrite declaredOpponent_socket_send. }
    assert (Hopen1 : isOpen (socket_send ow e s0) ow = true).
    { rewrite (isOpen_skel s0); [done|apply skel_socket_send]. }
    assert (H1000 : s1000 = socket_send ow e s0).
    { unfold s1000. rewrite H1.
      apply (sendPlayerOnline_suppressed _ _ _ T Hl1).
      unfold ONLINE_BROADCAST_DEBOUNCE_MS. lia. }
    assert (H2000 : s2000
      = socket_send ow e
          (with_lastOnline (fun m => <[pid := (T + 2000)%Z]> m)
             (socket_send ow e s0))).
    { unfold s2000. rewrite H1.
      rewrite (sendPlayerOnline_announced _ (T + 2000) pid HI1).
      - cbv zeta. by rewrite Hd1, Hopen1.
      - rewrite Hl1. simpl. unfold ONLINE_BROADCAST_DEBOUNCE_MS. lia. }
    split_and!.
    + by rewrite H1000.
    + rewrite H2000. rewrite outboxOf_socket_send_eq by done.
      change (outboxOf (with_lastOnline ?f ?t) ow) with (outboxOf t ow).
      rewrite Ho1. by rewrite <- app_assoc.
    + intros x Hx. split.
      * rewrite H1000. by rewrite outboxOf_socket_send_ne.
      * rewrite H2000. rewrite outboxOf_socket_send_ne by done.
        change (outboxOf (with_lastOnline ?f ?t) x) with (outboxOf t x).
        by rewrite outboxOf_socket_send_ne.
Qed.

Lemma online_debounce_witness :
  let s := run (init ∅)
             [Connection 5 "0.1"; Connection 6 "0.2";
              reconnectAs 0 1700000000000 "1111";
              reconnectAs 1 1700000000000 "2222";
              Receive 0 1700000000000 (fun _ => 0%N)
                (msg "game:start" (payloadOpponent "2222" None))] in
  let T := 1700000005000%Z in
  (lastOnlineBroadcast s !! "1111" = Some 1700000000000%Z /\
   (1700000001000 - 1700000000000 < 1500)%Z /\
   sendPlayerOnline 1700000001000 "1111" s = s) /\
  (Inv s /\ declaredOpponent s "1111" = Some 1 /\ isOpen s 1 = true /\
   (1500 <= T - default 0 (lastOnlineBroadcast s !! "1111"))%Z /\
   outboxOf (sendPlayerOnline (T + 1000) "1111" (sendPlayerOnline T "1111" s)) 1
   = outboxOf s 1 ++ [player_online "1111"] /\
   outboxOf (sendPlayerOnline (T + 2000) "1111" (sendPlayerOnline T "1111" s)) 1
   = outboxOf s 1 ++ [player_online "1111"; player_online "1111"]).
Proof.
  intros s T.
  assert (HI : Inv s) by apply reachable_Inv, reachable_run, reachable_init.
  assert (Hl : lastOnlineBroadcast s !! "1111" = Some 1700000000000%Z)
    by reflexivity.
  assert (Hd : declaredOpponent s "1111" = Some 1) by reflexivity.
  assert (Ho : isOpen s 1 = true) by reflexivity.
  assert (Hge : (1500 <= T - default 0 (lastOnlineBroadcast s !! "1111"))%Z)
    by (rewrite Hl; simpl; unfold T; lia).
  split.
  - split; [exact Hl|]. split; [lia|].
    apply (proj1 online_debounce s 1700000001000%Z "1111" _ Hl). lia.
  - split; [exact HI|]. split; [exact Hd|]. split; [exact Ho|].
    split; [exact Hge|].
    destruct (proj2 (proj2 online_debounce) s T "1111" 1 HI Hd Ho Hge)
      as (H1 & H2 & _).
    split; [exact H1|exact H2].
Defined.

(** ** Dispatch *)

Section Dispatch.
Context (s : State) (w : nat) (c : ClientInfo) (now : Z) (rnd : nat -> N).
Hypothesis Hw : w ∈ wsToClient s.
Hypothesis Hc : clientOf s w = Some c.

Ltac dispatch :=
  unfold handleMessage; rewrite (bool_decide_eq_true_2 _ Hw), Hc; reflexivity.

Lemma dispatch_update_name p :
  handleMessage w now rnd {| type := "player:update_name"; payload := p |} s
  = handleUpdateName w p s.
Proof. dispatch. Qed.

Lemma dispatch_state_update p :
  handleMessage w now rnd {| type := "player:state_update"; payload := p |} s
  = handleStateUpdate w p s.
Proof. dispatch. Qed.

Lemma dispatch_game_start p :
  handleMessage w now rnd {| type := "game:start"; payload := p |} s
  = handleGameStart w (playerID c) p s.
Proof. dispatch. Qed.

Lemma dispatch_score_update p :
  handleMessage w now rnd {| type := "game:score_update"; payload := p |} s
  = handleScoreUpdate (playerID c) p s.
Proof. dispatch. Qed.

Lemma dispatch_apply_brisks p :
  handleMessage w now rnd {| type := "game:apply_brisks"; payload := p |} s
  = handleApplyBrisks (playerID c) p s.
Proof. dispatch. Qed.

Lemma dispatch_opponent_undo p :
  handleMessage w now rnd {| type := "game:opponent_undo"; payload := p |} s
  = handleOpponentUndo (playerID c) p s.
Proof. dispatch. Qed.

Lemma dispatch_reset p :
  handleMessage w now rnd {| type := "game:reset"; payload := p |} s
  = handleReset (playerID c) p s.
Proof. dispatch. Qed.

Lemma dispatch_get_all p :
  handleMessage w now rnd {| type := "players:get_all"; payload := p |} s
  = handleGetAll (playerID c) s.
Proof. dispatch. Qed.

Lemma dispatch_search p :
  handleMessage w now rnd {| type := "players:search"; payload := p |} s
  = handleSearch (playerID c) p s.
Proof. dispatch. Qed.

End Dispatch.

Lemma dispatch_apply_points s w now rnd p :
  handleMessage w now rnd {| type := "game:apply_points"; payload := p |} s = s.
Proof.
  unfold handleMessage. destruct (bool_decide _); [|done].
  by destruct (clientOf s w).
Qed.

(** ** Forwarding *)

Lemma truthy_Some o : o ≠ "" -> JS.truthy (Some o) = Some o.
Proof. by destruct o. Qed.

Lemma forwardToOpponent_delivers cur p e s o ow :
  field p_opponentID p = Some o -> o ≠ "" -> o ≠ cur ->
  OMap.get o (clients s) = Some ow -> isOpen s ow = true ->
  forwardToOpponent cur p e s = socket_send ow e s.
Proof.
  intros Hf Ho Hne Hg Hopen. unfold forwardToOpponent.
  rewrite Hf, truthy_Some by done.
  destruct (String.eqb_spec o cur); [done|].
  rewrite Hg, Hopen, send_socket_send. by rewrite Hg.
Qed.

Lemma forwardToOpponent_drops cur p e s :
  JS.truthy (field p_opponentID p) = None \/
  field p_opponentID p = Some cur \/
  (exists o, field p_opponentID p = Some o /\
     match OMap.get o (clients s) with
     | Some ow => isOpen s ow = false
     | None => True
     end) ->
  forwardToOpponent cur p e s = s.
Proof.
  unfold forwardToOpponent. intros [->|[->|(o & -> & H)]]; [done| |].
  - destruct cur as [|a cur]; [done|].
    change (JS.truthy (Some (String a cur))) with (Some (String a cur)).
    cbv beta iota. by rewrite String.eqb_refl.
  - destruct o as [|a o]; [done|].
    change (JS.truthy (Some (String a o))) with (Some (String a o)).
    cbv beta iota. destruct (String.eqb _ cur); [done|].
    destruct (OMap.get _ (clients s)); [|done]. by rewrite H.
Qed.

Lemma forwarded_dispatch s w c now rnd ty p e :
  w ∈ wsToClient s -> clientOf s w = Some c ->
  forwarded ty p (playerID c) = Some e ->
  handleMessage w now rnd {| type := ty; payload := Some p |} s
  = forwardToOpponent (playerID c) (Some p) e s.
Proof.
  intros Hw Hc. unfold forwarded.
  destruct (String.eqb_spec ty "game:apply_brisks") as [->|_].
  { intros [= <-]. by rewrite (dispatch_apply_brisks s w c). }
  destruct (String.eqb_spec ty "game:opponent_undo") as [->|_].
  { intros [= <-]. by rewrite (dispatch_opponent_undo s w c). }
  destruct (String.eqb_spec ty "game:reset") as [->|_]; [|done].
  intros [= <-]. by rewrite (dispatch_reset s w c).
Qed.

(** C5, as the code has it.  For the kinds [game:apply_brisks],
    [game:opponent_undo] and [game:reset], a message from a tracked socket
    whose payload names an opponent [o] other than the sender, registered
    and open, is forwarded to [o] with the sender's identifier; with the
    opponent missing, empty or equal to the sender, or not registered with
    an open socket, the state does not change.  [game:apply_points] is not
    a kind of the router: such a message never changes the state. *)
Theorem forwarding_kinds s w c now rnd ty p e :
  w ∈ wsToClient s -> clientOf s w = Some c ->
  forwarded ty p (playerID c) = Some e ->
  let s' := handleMessage w now rnd {| type := ty; payload := Some p |} s in
  (forall o ow,
      p_opponentID p = Some o -> o ≠ "" -> o ≠ playerID c ->
      OMap.get o (clients s) = Some ow -> isOpen s ow = true ->
      s' = socket_send ow e s /\ outboxOf s' ow = outboxOf s ow ++ [e] /\
      forall x, x ≠ ow -> outboxOf s' x = outboxOf s x) /\
  (p_opponentID p = None \/ p_opponentID p = Some "" \/
   p_opponentID p = Some (playerID c) -> s' = s) /\
  (forall o, p_opponentID p = Some o ->
     match OMap.get o (clients s) with
     | Some ow => isOpen s ow = false
     | None => True
     end -> s' = s) /\
  handleMessage w now rnd {| type := "game:apply_points"; payload := Some p |} s
  = s.
Proof.
  intros Hw Hc He s'.
  assert (Hs' : s' = forwardToOpponent (playerID c) (Some p) e s)
    by (by apply forwarded_dispatch).
  split_and!.
  - intros o ow Ho Hne Hself Hg Hopen.
    rewrite Hs', (forwardToOpponent_delivers _ _ _ _ o ow) by done.
    split; [done|]. split; [by apply outboxOf_socket_send_eq|].
    intros x Hx. by apply outboxOf_socket_send_ne.
  - intros H. rewrite Hs'. apply forwardToOpponent_drops. simpl.
    destruct H as [-> | [-> | ->]]; auto.
  - intros o Ho H. rewrite Hs'. apply forwardToOpponent_drops.
    right. right. by exists o.
  - apply dispatch_apply_points.
Qed.

Lemma forwarding_kinds_witness :
  let s := pairedState in
  let c := {| playerID := "1111"; name := Some "Player 1111"; location := None;
              opponentID := Some "2222"; lastState := None |} in
  let p := payloadPoints "2222" 40 in
  let s' := handleMessage 0 1700000000500 (fun _ => 0%N)
              {| type := "game:opponent_undo"; payload := Some p |} s in
  (0 ∈ wsToClient s) /\ clientOf s 0 = Some c /\
  forwarded "game:opponent_undo" p "1111"
  = Some (game_opponent_undo (Some 40%Z) None "1111") /\
  OMap.get "2222" (clients s) = Some 1 /\ isOpen s 1 = true /\
  outboxOf s' 1
  = outboxOf s 1 ++ [game_opponent_undo (Some 40%Z) None "1111"].
Proof.
  intros s c p s'.
  assert (Hw : 0 ∈ wsToClient s)
    by (apply (bool_decide_unpack _); vm_compute; exact I).
  assert (Hc : clientOf s 0 = Some c) by reflexivity.
  assert (Hg : OMap.get "2222" (clients s) = Some 1) by reflexivity.
  assert (Ho : isOpen s 1 = true) by reflexivity.
  split; [exact Hw|]. split; [exact Hc|]. split; [reflexivity|].
  split; [exact Hg|]. split; [exact Ho|].
  destruct (proj1 (forwarding_kinds s 0 c 1700000000500%Z (fun _ => 0%N)
                     "game:opponent_undo" p _ Hw Hc eq_refl)
              "2222" 1 eq_refl) as (_ & H & _); try done.
Defined.

(** C5 as stated fails for apply-points: 1111 and 2222 are bound, open and
    paired, 1111 sends [game:apply_points] naming 2222, and nothing is
    written to 2222 (nothing changes at all). *)
Lemma apply_points_is_not_forwarded :
  let s := pairedState in
  let m := {| type := "game:apply_points";
              payload := Some (payloadPoints "2222" 40) |} in
  let s' := handleMessage 0 1700000000500 (fun _ => 0%N) m s in
  bound s 0 "1111" /\ bound s 1 "2222" /\
  OMap.get "2222" (clients s) = Some 1 /\
  outboxOf s' 1 = outboxOf s 1 /\ s' = s.
Proof.
  intros s m s'.
  assert (Hs : s' = s) by apply dispatch_apply_points.
  split; [split; reflexivity|]. split; [split; reflexivity|].
  split; [reflexivity|]. split; [by rewrite Hs|exact Hs].
Qed.

(** ** Score updates *)

Lemma bound_client s w pid :
  bound s w pid -> exists c, clientOf s w = Some c /\ playerID c = pid.
Proof.
  intros [_ H]. destruct (clientOf s w) as [c|]; [|done].
  exists c. split; [done|]. by injection H.
Qed.

Lemma is4digit_nonempty pid : JS.is4digit pid = true -> pid ≠ "".
Proof. by intros H ->. Qed.

(** C9. A score update is not checked for self-targeting: when a bound
    sender names its own identifier as the opponent, [game:opponent_scored]
    with the score (0 when absent) and the sender's identifier is written
    to the sender's own socket, whereas [game:apply_brisks],
    [game:opponent_undo] and [game:reset] with the same payload change
    nothing. *)
Theorem score_update_reaches_sender_itself s w pid now rnd p :
  reachable s -> bound s w pid -> JS.is4digit pid = true ->
  p_opponentID p = Some pid ->
  let s' := handleMessage w now rnd
              {| type := "game:score_update"; payload := Some p |} s in
  let e := game_opponent_scored (default 0%Z (p_score p)) pid in
  s' = socket_send w e s /\ outboxOf s' w = outboxOf s w ++ [e] /\
  (forall ty, ty = "game:apply_brisks" \/ ty = "game:opponent_undo" \/
              ty = "game:reset" ->
     handleMessage w now rnd {| type := ty; payload := Some p |} s = s).
Proof.
  intros Hr Hb H4 Ho s' e. apply reachable_Inv in Hr.
  destruct (bound_registered s w pid Hr Hb H4) as [Hw Hg].
  destruct (bound_client s w pid Hb) as (c & Hc & Hpid).
  assert (Hs' : s' = socket_send w e s).
  { unfold s'. rewrite (dispatch_score_update s w c) by done.
    unfold handleScoreUpdate. simpl. rewrite Ho.
    rewrite truthy_Some by (by apply is4digit_nonempty).
    rewrite send_socket_send, Hg. by rewrite Hpid. }
  split; [exact Hs'|]. split.
  - rewrite Hs'. apply outboxOf_socket_send_eq. apply Hb.
  - intros ty Hty.
    assert (Hdrop : forall e', forwardToOpponent (playerID c) (Some p) e' s = s).
    { intros e'. apply forwardToOpponent_drops. right. left.
      simpl. by rewrite Hpid. }
    destruct Hty as [-> | [-> | ->]].
    + rewrite (dispatch_apply_brisks s w c) by done. apply Hdrop.
    + rewrite (dispatch_opponent_undo s w c) by done. apply Hdrop.
    + rewrite (dispatch_reset s w c) by done. apply Hdrop.
Qed.

Lemma score_update_reaches_sender_itself_witness :
  let s := pairedState in
  let p := payloadOpponent "1111" None in
  let s' := handleMessage 0 1700000000500 (fun _ => 0%N)
              {| type := "game:score_update"; payload := Some p |} s in
  reachable s /\ bound s 0 "1111" /\ JS.is4digit "1111" = true /\
  p_opponentID p = Some "1111" /\
  outboxOf s' 0 = outboxOf s 0 ++ [game_opponent_scored 0 "1111"].
Proof.
  intros s p s'.
  assert (Hr : reachable s) by apply reachable_run, reachable_init.
  assert (Hb : bound s 0 "1111") by (split; reflexivity).
  split; [exact Hr|]. split; [exact Hb|]. split; [reflexivity|].
  split; [reflexivity|].
  exact (proj1 (proj2 (score_update_reaches_sender_itself
                         s 0 "1111" 1700000000500%Z (fun _ => 0%N) p
                         Hr Hb eq_refl eq_refl))).
Defined.

(** ** Sessions on the placeholder identity *)

Lemma clientOf_update_client w f s x :
  clientOf (update_client w f s) x
  = if decide (w = x) then f <$> clientOf s w else clientOf s x.
Proof.
  unfold clientOf, update_client, update_conn. simpl.
  rewrite list_lookup_alter. case_decide; [|done].
  by destruct (conns s !! w).
Qed.

Lemma isOpen_update_client w f s x :
  isOpen (update_client w f s) x = isOpen s x.
Proof.
  unfold isOpen, update_client, update_conn. simpl.
  rewrite list_lookup_alter. case_decide as Hd; [|done].
  subst x. by destruct (conns s !! w).
Qed.

Lemma outboxOf_update_client w f s x :
  outboxOf (update_client w f s) x = outboxOf s x.
Proof. by apply outboxOf_update_conn. Qed.

Lemma temp_is_not_an_identifier pid :
  JS.startsWith pid "temp_" = true -> JS.is4digit pid = false.
Proof.
  intros H. destruct (JS.is4digit pid) eqn:H4; [|done].
  apply is4digit_not_temp in H4. congruence.
Qed.

Lemma send_unregistered s pid e :
  OMap.get pid (clients s) = None -> send pid e s = s.
Proof. intros H. by rewrite send_socket_send, H. Qed.

Lemma handleUpdateName_client w p s c :
  clientOf s w = Some c ->
  clientOf (handleUpdateName w p s) w
  = Some (set_name (Some (JS.orElse (field p_name p) (JS.orElse (name c) ""))) c).
Proof.
  intros Hc. unfold handleUpdateName. rewrite Hc.
  set (s1 := update_client w _ s).
  assert (H1 : clientOf s1 w = Some (set_name
            (Some (JS.orElse (field p_name p) (JS.orElse (name c) ""))) c)).
  { unfold s1. rewrite clientOf_update_client, decide_True by done.
    by rewrite Hc. }
  repeat case_match; try done.
  by destruct (sends_only_send (playerID c0)
       (player_name_changed (playerID c)
          (JS.orElse (field p_name p) (JS.orElse (name c) ""))) s1)
    as (_ & _ & _ & _ & _ & ->).
Qed.

Lemma handleStateUpdate_lastState w p s c :
  clientOf s w = Some c ->
  lastState <$> clientOf (handleStateUpdate w p s) w
  = Some (Some {| total := field p_total p; history := field p_history p |}).
Proof.
  intros Hc. unfold handleStateUpdate.
  rewrite clientOf_update_client, decide_True by done.
  assert (Hsome : forall f t, is_Some (clientOf t w) ->
            is_Some (clientOf (update_client w f t) w)).
  { intros f t [x Hx]. rewrite clientOf_update_client, decide_True by done.
    rewrite Hx. by eexists. }
  match goal with |- context [clientOf ?t w] =>
    assert (Hs : is_Some (clientOf t w)) end.
  { repeat case_match; repeat apply Hsome; by eexists. }
  destruct Hs as [x ->]. done.
Qed.

(** C10. The handlers do not check that the sender is bound.  For a
    tracked socket still on its placeholder identity (which is never a
    four-digit identifier): update-name sets the name; a state snapshot is
    stored; a score update is written to the target with the placeholder
    as sender; and start-pairing makes the placeholder the target
    session's opponent, records the target as the sender's opponent and
    tells the target it was paired with the placeholder. *)
Theorem placeholder_sender_is_served s w c now rnd :
  reachable s -> w ∈ wsToClient s -> clientOf s w = Some c ->
  JS.startsWith (playerID c) "temp_" = true ->
  let tmp := playerID c in
  let handle ty p := handleMessage w now rnd {| type := ty; payload := p |} s in
  JS.is4digit tmp = false /\
  (forall p,
      clientOf (handle "player:update_name" p) w
      = Some (set_name
                (Some (JS.orElse (field p_name p) (JS.orElse (name c) ""))) c)) /\
  (forall p,
      lastState <$> clientOf (handle "player:state_update" p) w
      = Some (Some {| total := field p_total p;
                      history := field p_history p |})) /\
  (forall p o ow,
      p_opponentID p = Some o -> o ≠ "" ->
      OMap.get o (clients s) = Some ow -> isOpen s ow = true ->
      let e := game_opponent_scored (default 0%Z (p_score p)) tmp in
      handle "game:score_update" (Some p) = socket_send ow e s /\
      outboxOf (handle "game:score_update" (Some p)) ow
      = outboxOf s ow ++ [e]) /\
  (forall p o ow oc,
      p_opponentID p = Some o -> o ≠ "" ->
      OMap.get o (clients s) = Some ow -> clientOf s ow = Some oc ->
      let s' := handle "game:start" (Some p) in
      clientOf s' ow = Some (set_opponentID (Some tmp) oc) /\
      clientOf s' w = Some (set_opponentID (Some o) c) /\
      (isOpen s ow = true ->
       outboxOf s' ow
       = outboxOf s ow ++ [game_auto_joined tmp (JS.orElse (name c) "")])).
Proof.
  intros Hr Hw Hc Htmp tmp handle. apply reachable_Inv in Hr.
  assert (H4 : JS.is4digit tmp = false) by (by apply temp_is_not_an_identifier).
  split_and!; [done|..].
  - intros p. unfold handle. rewrite (dispatch_update_name s w c) by done.
    by apply handleUpdateName_client.
  - intros p. unfold handle. rewrite (dispatch_state_update s w c) by done.
    by apply (handleStateUpdate_lastState w p s c).
  - intros p o ow Ho Hne Hg Hopen e. unfold handle.
    rewrite (dispatch_score_update s w c) by done.
    unfold handleScoreUpdate. simpl. rewrite Ho, truthy_Some by done.
    rewrite send_socket_send, Hg. split; [done|].
    by apply outboxOf_socket_send_eq.
  - intros p o ow oc Ho Hne Hg Hoc s'.
    destruct (inv_keys _ Hr o ow Hg) as (Ho4 & r & q & Hq & Hq4).
    assert (Hno : o ≠ tmp) by (intros ->; congruence).
    assert (Hwne : w ≠ ow).
    { intros <-. assert (q = tmp); [|congruence].
      assert (Hs : exists r', k_shapes (skel s) !! w = Some (r', tmp)).
      { apply playerID_shape. by rewrite Hc. }
      destruct Hs as [r' Hs]. congruence. }
    assert (Hnone : OMap.get tmp (clients s) = None).
    { destruct (OMap.get tmp (clients s)) as [x|] eqn:Hx; [|done].
      destruct (inv_keys _ Hr tmp x Hx) as [? _]. congruence. }
    set (s1 := update_client w (set_opponentID (Some o)) s).
    set (s2 := update_client ow (set_opponentID (Some tmp)) s1).
    set (e := game_auto_joined tmp (JS.orElse (name c) "")).
    assert (Hs' : s' = socket_send ow e s2).
    { unfold s', handle. rewrite (dispatch_game_start s w c) by done.
      unfold handleGameStart. simpl. rewrite Ho, truthy_Some by done.
      destruct (String.eqb_spec o (playerID c)) as [?|_]; [done|].
      rewrite Hg. fold s1 s2.
      rewrite (send_unregistered s2) by done.
      rewrite send_socket_send.
      change (clients s2) with (clients s). rewrite Hg.
      unfold e, nameOf, s2, s1.
      rewrite !clientOf_update_client.
      rewrite decide_False by done. rewrite decide_True by done.
      by rewrite Hc. }
    assert (H2ow : clientOf s2 ow = Some (set_opponentID (Some tmp) oc)).
    { unfold s2, s1. rewrite !clientOf_update_client.
      rewrite decide_True by done. rewrite decide_False by done.
      by rewrite Hoc. }
    assert (H2w : clientOf s2 w = Some (set_opponentID (Some o) c)).
    { unfold s2, s1. rewrite !clientOf_update_client.
      rewrite decide_False by done. rewrite decide_True by done.
      by rewrite Hc. }
    rewrite Hs'. rewrite !clientOf_socket_send. split_and!; try done.
    intros Hopen. rewrite outboxOf_socket_send_eq.
    + unfold s2, s1. by rewrite !outboxOf_update_client.
    + unfold s2, s1. by rewrite !isOpen_update_client.
Qed.

Lemma placeholder_sender_is_served_witness :
  let s := run (init ∅)
             [Connection 5 "0.1"; Connection 6 "0.2";
              reconnectAs 1 1700000000000 "2222"] in
  let c := {| playerID := "temp_5_0.1"; name := Some "Unknown Player";
              location := None; opponentID := None; lastState := None |} in
  let p := payloadOpponent "2222" (Some 40%Z) in
  let handle ty := handleMessage 0 1700000000500 (fun _ => 0%N)
                     {| type := ty; payload := Some p |} s in
  reachable s /\ (0 ∈ wsToClient s) /\ clientOf s 0 = Some c /\
  JS.startsWith (playerID c) "temp_" = true /\
  outboxOf (handle "game:score_update") 1
  = outboxOf s 1 ++ [game_opponent_scored 40 "temp_5_0.1"] /\
  opponentID <$> clientOf (handle "game:start") 1 = Some (Some "temp_5_0.1").
Proof.
  intros s c p handle.
  assert (Hr : reachable s) by apply reachable_run, reachable_init.
  assert (Hw : 0 ∈ wsToClient s)
    by (apply (bool_decide_unpack _); vm_compute; exact I).
  assert (Hc : clientOf s 0 = Some c) by reflexivity.
  assert (Ht : JS.startsWith (playerID c) "temp_" = true) by reflexivity.
  destruct (placeholder_sender_is_served s 0 c 1700000000500%Z (fun _ => 0%N)
              Hr Hw Hc Ht) as (_ & _ & _ & Hscore & Hstart).
  split; [exact Hr|]. split; [exact Hw|]. split; [exact Hc|].
  split; [exact Ht|]. split.
  - destruct (Hscore p "2222" 1 eq_refl) as [_ H]; try done.
  - set (oc := {| playerID := "2222"; name := Some "Player 2222";
                  location := None; opponentID := None; lastState := None |}).
    destruct (Hstart p "2222" 1 oc eq_refl) as (H & _); done.
Defined.

(** ** The directory *)






(** ** Search *)











(** ** What is written to the sockets *)

Section OutboxesSat.
Context (P : ServerEvent -> Prop).

Lemma sat_socket_send w e s :
  P e -> outboxes_sat P s -> outboxes_sat P (socket_send w e s).
Proof.
  intros He Hs x. destruct (decide (w = x)) as [<-|Hne].
  - destruct (isOpen s w) eqn:Ho.
    + rewrite outboxOf_socket_send_eq by done.
      apply Forall_app. split; [apply Hs|by apply Forall_singleton].
    + rewrite socket_send_closed by done. apply Hs.
  - rewrite outboxOf_socket_send_ne by done. apply Hs.
Qed.

Lemma sat_send pid e s :
  P e -> outboxes_sat P s -> outboxes_sat P (send pid e s).
Proof.
  intros He Hs. rewrite send_socket_send.
  destruct (OMap.get pid (clients s)); [by apply sat_socket_send|done].
Qed.

Lemma sat_update_client w f s :
  outboxes_sat P s -> outboxes_sat P (update_client w f s).
Proof. intros Hs x. rewrite outboxOf_update_client. apply Hs. Qed.

Lemma sat_socket_close w s :
  outboxes_sat P s -> outboxes_sat P (socket_close w s).
Proof.
  intros Hs x. unfold socket_close. rewrite outboxOf_update_conn; [apply Hs|].
  intros c. by destruct (readyState c).
Qed.

Lemma sat_with_clients f s :
  outboxes_sat P s -> outboxes_sat P (with_clients f s).
Proof. done. Qed.

Lemma sat_with_used f s :
  outboxes_sat P s -> outboxes_sat P (with_used f s).
Proof. done. Qed.

Lemma sat_with_wsToClient f s :
  outboxes_sat P s -> outboxes_sat P (with_wsToClient f s).
Proof. done. Qed.

Lemma sat_with_offlineTimers f s :
  outboxes_sat P s -> outboxes_sat P (with_offlineTimers f s).
Proof. done. Qed.

Lemma sat_with_timers f s :
  outboxes_sat P s -> outboxes_sat P (with_timers f s).
Proof. done. Qed.

Lemma sat_with_nextTimer n s :
  outboxes_sat P s -> outboxes_sat P (with_nextTimer n s).
Proof. done. Qed.

Lemma sat_with_lastOnline f s :
  outboxes_sat P s -> outboxes_sat P (with_lastOnline f s).
Proof. done. Qed.

Lemma sat_saveUsedIDs s :
  outboxes_sat P s -> outboxes_sat P (saveUsedIDs s).
Proof. done. Qed.

Lemma sat_closePrevious w pid s :
  outboxes_sat P s -> outboxes_sat P (closePrevious w pid s).
Proof.
  intros Hs x. destruct (closePrevious_quiet w pid s) as (_ & _ & ->). apply Hs.
Qed.

Lemma sat_cancelOffline pid s :
  outboxes_sat P s -> outboxes_sat P (cancelOffline pid s).
Proof.
  intros Hs x. destruct (cancelOffline_quiet pid s) as (_ & _ & ->). apply Hs.
Qed.

Lemma sat_sends_only s s' :
  sends_only s s' -> (forall x, outboxOf s' x = outboxOf s x) ->
  outboxes_sat P s -> outboxes_sat P s'.
Proof. intros _ H Hs x. rewrite H. apply Hs. Qed.

End OutboxesSat.

Lemma offlineExpired_silent pid s :
  offlineExpired pid s
  = with_lastOnline (delete pid)
      (with_offlineTimers (delete pid) (with_clients (OMap.delete pid) s)).
Proof.
  unfold offlineExpired, sendPlayerOffline. simpl.
  by rewrite omap_get_delete_eq.
Qed.

Ltac sat_step :=
  lazymatch goal with
  | H : outboxes_sat ?P ?s |- outboxes_sat ?P ?s => exact H
  | |- outboxes_sat _ (socket_send _ _ _) => apply sat_socket_send; [exact I|]
  | |- outboxes_sat _ (send _ _ _) => apply sat_send; [exact I|]
  | |- outboxes_sat _ (update_client _ _ _) => apply sat_update_client
  | |- outboxes_sat _ (socket_close _ _) => apply sat_socket_close
  | |- outboxes_sat _ (closePrevious _ _ _) => apply sat_closePrevious
  | |- outboxes_sat _ (cancelOffline _ _) => apply sat_cancelOffline
  | |- outboxes_sat _ (with_clients _ _) => apply sat_with_clients
  | |- outboxes_sat _ (with_used _ _) => apply sat_with_used
  | |- outboxes_sat _ (with_wsToClient _ _) => apply sat_with_wsToClient
  | |- outboxes_sat _ (with_offlineTimers _ _) => apply sat_with_offlineTimers
  | |- outboxes_sat _ (with_timers _ _) => apply sat_with_timers
  | |- outboxes_sat _ (with_nextTimer _ _) => apply sat_with_nextTimer
  | |- outboxes_sat _ (with_lastOnline _ _) => apply sat_with_lastOnline
  | |- outboxes_sat _ (saveUsedIDs _) => apply sat_saveUsedIDs
  end.

Lemma notOffline_sendPlayerOnline now pid s :
  outboxes_sat notOffline s -> outboxes_sat notOffline (sendPlayerOnline now pid s).
Proof.
  intros Hs. unfold sendPlayerOnline. repeat case_match; repeat sat_step.
Qed.

Lemma notOffline_resumeOpponent w pid s :
  outboxes_sat notOffline s -> outboxes_sat notOffline (resumeOpponent w pid s).
Proof.
  intros Hs. unfold resumeOpponent. repeat case_match; repeat sat_step.
Qed.

Lemma notOffline_forwardToOpponent cur p e s :
  notOffline e -> outboxes_sat notOffline s ->
  outboxes_sat notOffline (forwardToOpponent cur p e s).
Proof.
  intros He Hs. unfold forwardToOpponent. repeat case_match; try done.
  by apply sat_send.
Qed.

Lemma notOffline_handleMessage w now rnd m s :
  outboxes_sat notOffline s ->
  outboxes_sat notOffline (handleMessage w now rnd m s).
Proof.
  intros Hs. unfold handleMessage.
  destruct (bool_decide _); [|done].
  destruct (clientOf s w) as [c|]; [|done].
  repeat dispatch_type; try done.
  - unfold handleRequestID.
    destruct (generateUniquePlayerID rnd s) as [[pid s1]|] eqn:Hg; [|done].
    apply generateUniquePlayerID_fresh in Hg as (_ & _ & _ & ->).
    apply notOffline_sendPlayerOnline. repeat sat_step.
  - unfold handleReconnect. repeat case_match; repeat sat_step.
    apply notOffline_resumeOpponent, notOffline_sendPlayerOnline.
    repeat sat_step.
  - unfold handleUpdateName. repeat case_match; repeat sat_step.
  - unfold handleStateUpdate. repeat case_match; repeat sat_step.
  - unfold handleUpdateLocation. repeat sat_step.
  - unfold handleGameStart. repeat case_match; repeat sat_step.
  - unfold handleScoreUpdate. repeat case_match; repeat sat_step.
  - unfold handleApplyBrisks. destruct (payload m); [|done].
    by apply notOffline_forwardToOpponent.
  - unfold handleOpponentUndo. destruct (payload m); [|done].
    by apply notOffline_forwardToOpponent.
  - by apply notOffline_forwardToOpponent.
  - unfold handleGetAll. repeat sat_step.
  - unfold handleSearch. repeat case_match; repeat sat_step.
Qed.

Lemma notOffline_step s e :
  outboxes_sat notOffline s -> outboxes_sat notOffline (step s e).
Proof.
  intros Hs. destruct e as [now rnd|w now rnd m|w now|timer now]; simpl.
  - unfold onConnection. apply sat_socket_send; [exact I|].
    apply sat_with_wsToClient. intros x. unfold outboxOf. simpl.
    destruct (decide (x < List.length (conns s))) as [Hlt|Hge].
    + rewrite lookup_app_l by done. apply Hs.
    + destruct ((conns s ++ _) !! x) as [c|] eqn:Hx; [|done].
      apply lookup_app_Some in Hx as [Hx|[_ Hx]].
      * apply lookup_lt_Some in Hx. lia.
      * apply list_lookup_singleton_Some in Hx as [_ <-]. done.
  - by apply notOffline_handleMessage.
  - unfold onClose. repeat case_match; try done;
      unfold closeHandler; repeat case_match; unfold scheduleOffline;
      repeat sat_step;
      (intros x; rewrite outboxOf_update_conn by done; apply Hs).
  - unfold onTimeout. repeat case_match; try done.
    rewrite offlineExpired_silent. repeat sat_step.
Qed.

Lemma notOffline_run s es :
  outboxes_sat notOffline s -> outboxes_sat notOffline (run s es).
Proof.
  revert s. induction es as [|e es IH]; intros s Hs; [done|].
  simpl. by apply IH, notOffline_step.
Qed.

Lemma notOffline_reachable s : reachable s -> outboxes_sat notOffline s.
Proof.
  induction 1 as [loaded|s e _ IH]; [|by apply notOffline_step].
  intros x. unfold outboxOf. simpl. done.
Qed.

(** ** The offline timer *)

Lemma clientOf_update_conn_readyState w r s x :
  clientOf (update_conn w (with_readyState r) s) x = clientOf s x.
Proof.
  unfold clientOf, update_conn. simpl. rewrite list_lookup_alter.
  case_decide as Hd; [|done]. subst x. by destruct (conns s !! w).
Qed.

Lemma close_arms_timer s w pid t :
  Inv s -> bound s w pid -> JS.is4digit pid = true ->
  onClose w t s
  = scheduleOffline pid t
      (with_wsToClient (fun m => m ∖ {[w]})
         (update_conn w (with_readyState CLOSED) s)).
Proof.
  intros HI Hb H4.
  destruct (bound_registered s w pid HI Hb H4) as [Hw Hg].
  destruct (bound_client s w pid Hb) as (c & Hc & Hpid).
  destruct Hb as [Hopen _]. unfold onClose.
  unfold isOpen in Hopen.
  destruct (conns s !! w) as [cw|] eqn:Hcw; [|done].
  destruct (readyState cw) eqn:Hrs; try done.
  unfold closeHandler.
  change (wsToClient (update_conn w (with_readyState CLOSED) s))
    with (wsToClient s).
  rewrite bool_decide_eq_true_2 by done.
  rewrite clientOf_update_conn_readyState, Hc.
  rewrite Hpid. rewrite is4digit_not_temp by done.
  change (clients (with_wsToClient _ _)) with (clients s).
  unfold OMap.has. rewrite Hg. simpl.
  by rewrite bool_decide_eq_true_2.
Qed.

Lemma timeout_early s h pid due now :
  timers s !! h = Some (pid, due) -> (now < due)%Z ->
  step s (Timeout h now) = s.
Proof.
  intros Ht Hlt. simpl. unfold onTimeout. rewrite Ht.
  by destruct (Z.leb_spec due now); [lia|].
Qed.

Lemma timeout_unknown s h now :
  timers s !! h = None -> step s (Timeout h now) = s.
Proof. intros Ht. simpl. unfold onTimeout. by rewrite Ht. Qed.

(** A timer handle that is no longer pending is never pending again. *)
Lemma ktrans_timer_gone k k' h :
  ktrans k k' -> k_timers k !! h = None -> h < k_next k ->
  k_timers k' !! h = None /\ h < k_next k'.
Proof.
  intros [|tmp Htmp|w pid Hw H4 Hc|w pid Hw H4|w now|timer now] Hn Hlt;
    try done.
  - unfold kBind, kInstall, kClosePrevious, kCancel.
    repeat case_match; simpl; split; try done;
      by apply lookup_delete_None; right.
  - unfold kOnClose. repeat case_match; try done;
      unfold kCloseHandler; repeat case_match; simpl; try done;
      (split; [rewrite lookup_insert_ne by lia; done|lia]).
  - unfold kOnTimeout. repeat case_match; simpl; try done.
    split; [|done]. by apply lookup_delete_None; right.
Qed.

Lemma timer_gone_forever s h es :
  timers s !! h = None -> h < nextTimer s ->
  timers (run s es) !! h = None /\ h < nextTimer (run s es).
Proof.
  revert s. induction es as [|e es IH]; intros s Hn Hlt; [done|].
  simpl. destruct (ktrans_timer_gone _ _ h (step_ktrans s e) Hn Hlt).
  by apply IH.
Qed.

Lemma reconnect_skel s w now rnd p pid :
  w ∈ wsToClient s -> is_Some (clientOf s w) ->
  field p_playerID p = Some pid -> JS.is4digit pid = true ->
  skel (handleMessage w now rnd {| type := "player:reconnect"; payload := p |} s)
  = kBind w pid (kCancel pid (skel s)).
Proof.
  intros Hw [c Hc] Hf H4. unfold handleMessage.
  rewrite bool_decide_eq_true_2 by done. rewrite Hc.
  change (skel (handleReconnect w now p s) = kBind w pid (kCancel pid (skel s))).
  destruct (handleReconnect_accepted w now p s pid Hf H4)
    as (sA & -> & Hk & _).
  by rewrite skel_resumeOpponent, skel_sendPlayerOnline, skel_socket_send.
Qed.

Lemma tracked_client s w :
  Inv s -> w ∈ wsToClient s -> is_Some (clientOf s w).
Proof.
  intros HI Hw. destruct (inv_tracked_open _ HI w Hw) as [p Hp].
  rewrite shapes_lookup in Hp. unfold clientOf.
  destruct (conns s !! w); [by eexists|done].
Qed.

Lemma has_set (k k' : string) (v : nat) m :
  OMap.has k m = true -> OMap.has k (OMap.set k' v m) = true.
Proof.
  unfold OMap.has. destruct (decide (k' = k)) as [->|Hne].
  - by rewrite omap_get_set_eq.
  - by rewrite omap_get_set_ne.
Qed.

Lemma only_timeout_unbinds s e k :
  isTimeout e = false -> OMap.has k (clients s) = true ->
  OMap.has k (clients (step s e)) = true.
Proof.
  intros He Hk.
  destruct e as [now rnd|w now rnd m|w now|timer now]; try done;
    unfold step.
  - change (OMap.has k (k_clients (skel (onConnection now rnd s))) = true).
    by rewrite skel_onConnection.
  - change (OMap.has k (k_clients (skel (handleMessage w now rnd m s))) = true).
    destruct (skel_handleMessage w now rnd m s)
      as [->|(_ & pid & _ & [[_ ->]| ->])]; [done|by apply has_set|].
    unfold kBind, kInstall. simpl. apply has_set.
    unfold kClosePrevious, kCancel. by repeat case_match.
  - change (OMap.has k (k_clients (skel (onClose w now s))) = true).
    rewrite skel_onClose. unfold kOnClose.
    repeat case_match; try done;
      unfold kCloseHandler; by repeat case_match.
Qed.

Lemma kBind_next w pid k : k_next (kBind w pid (kCancel pid k)) = k_next k.
Proof.
  unfold kBind, kInstall, kClosePrevious, kCancel. by repeat case_match.
Qed.

(** C3. Offline suppression.  When the socket of a bound identifier
    closes, the close only arms a timer due 2000 ms later: the identifier
    stays in the map and nothing is written.  The timer does not run before
    it is due.  A valid reconnect with that identifier while the timer is
    pending cancels it, and the cancelled timer is never pending again, so
    its callback never runs.  No [player:offline] event is written in any
    run, and only an expiring timer removes an identifier from the map. *)
Theorem offline_suppression s w pid t :
  reachable s -> bound s w pid -> JS.is4digit pid = true ->
  let h := nextTimer s in
  let due := (t + 2000)%Z in
  let s1 := step s (Close w t) in
  (timers s1 !! h = Some (pid, due) /\ offlineTimers s1 !! pid = Some h /\
   OMap.get pid (clients s1) = Some w /\ clients s1 = clients s /\
   forall x, outboxOf s1 x = outboxOf s x) /\
  (forall s2 now,
      timers s2 !! h = Some (pid, due) -> (now < due)%Z ->
      step s2 (Timeout h now) = s2) /\
  (forall es1 w' t' rnd p,
      let s2 := run s1 es1 in
      timers s2 !! h = Some (pid, due) -> w' ∈ wsToClient s2 ->
      field p_playerID p = Some pid ->
      let s3 := step s2 (Receive w' t' rnd
                           {| type := "player:reconnect"; payload := p |}) in
      timers s3 !! h = None /\ offlineTimers s3 !! pid = None /\
      bound s3 w' pid /\
      forall es2,
        timers (run s3 es2) !! h = None /\
        forall now, step (run s3 es2) (Timeout h now) = run s3 es2) /\
  (forall es x q, player_offline q ∉ outboxOf (run s es) x) /\
  (forall s2 e k,
      isTimeout e = false -> OMap.has k (clients s2) = true ->
      OMap.has k (clients (step s2 e)) = true).
Proof.
  intros Hr Hb H4 h due s1.
  pose proof (reachable_Inv s Hr) as HI.
  destruct (bound_registered s w pid HI Hb H4) as [Hw Hg].
  assert (Hs1 : s1 = scheduleOffline pid t
            (with_wsToClient (fun m => m ∖ {[w]})
               (update_conn w (with_readyState CLOSED) s)))
    by (by apply close_arms_timer).
  split_and!.
  - rewrite Hs1. simpl. apply lookup_insert_eq.
  - rewrite Hs1. simpl. apply lookup_insert_eq.
  - by rewrite Hs1.
  - by rewrite Hs1.
  - intros x. rewrite Hs1.
    change (outboxOf (update_conn w (with_readyState CLOSED) s) x = outboxOf s x).
    by apply outboxOf_update_conn.
  - intros s2 now. apply timeout_early.
  - intros es1 w' t' rnd p s2 Hpending Hw' Hf s3.
    assert (Hr2 : reachable s2).
    { apply reachable_run. by constructor. }
    pose proof (reachable_Inv s2 Hr2) as HI2.
    destruct (inv_timers _ HI2 h pid due Hpending) as (Ho & Hlt & _).
    assert (Hk : skel s3 = kBind w' pid (kCancel pid (skel s2))).
    { apply reconnect_skel; try done. by apply tracked_client. }
    destruct (kBind_installed w' pid (skel s2) HI2 Hw')
      as (K1 & _ & _ & K4 & K5).
    rewrite <- Hk in K1, K4, K5.
    assert (Hgone : timers s3 !! h = None) by (by apply K5).
    assert (Hnext : h < nextTimer s3).
    { change (h < k_next (skel s3)). by rewrite Hk, kBind_next. }
    split_and!; try done.
    + by apply bound_shape.
    + intros es2.
      destruct (timer_gone_forever s3 h es2 Hgone Hnext) as [Hn _].
      split; [done|]. intros now. by apply timeout_unknown.
  - intros es x q Hin.
    pose proof (notOffline_run s es (notOffline_reachable s Hr) x) as Hsat.
    rewrite Forall_forall in Hsat. exact (Hsat _ Hin).
  - apply only_timeout_unbinds.
Qed.

Lemma offline_suppression_witness :
  let s := pairedState in
  let t := 1700000001000%Z in
  let s1 := step s (Close 1 t) in
  let es1 := [Connection 8 "0.3";
              Timeout 0 1700000002500] in
  let s3 := step (run s1 es1) (reconnectAs 2 1700000002900 "2222") in
  let es2 := [Timeout 0 1700000003000; Timeout 0 1700000009000] in
  reachable s /\ bound s 1 "2222" /\ JS.is4digit "2222" = true /\
  timers s1 !! 0 = Some ("2222", 1700000003000%Z) /\
  timers (run s1 es1) !! 0 = Some ("2222", 1700000003000%Z) /\
  (2 ∈ wsToClient (run s1 es1)) /\
  bound s3 2 "2222" /\
  timers (run s3 es2) !! 0 = None /\
  OMap.get "2222" (clients (run s3 es2)) = Some 2.
Proof.
  intros s t s1 es1 s3 es2.
  assert (Hr : reachable s) by apply reachable_run, reachable_init.
  assert (Hb : bound s 1 "2222") by (split; reflexivity).
  destruct (offline_suppression s 1 "2222" t Hr Hb eq_refl)
    as ((H1 & _) & _ & Hcancel & _).
  assert (Hp : timers (run s1 es1) !! 0 = Some ("2222", 1700000003000%Z))
    by (vm_compute; reflexivity).
  assert (Hw : 2 ∈ wsToClient (run s1 es1))
    by (apply (bool_decide_unpack _); vm_compute; exact I).
  destruct (Hcancel es1 2 1700000002900%Z (fun _ => 0%N)
              (Some (payloadPlayerID "2222")) Hp Hw eq_refl)
    as (_ & _ & Hb3 & Hforever).
  split; [exact Hr|]. split; [exact Hb|]. split; [reflexivity|].
  split; [exact H1|]. split; [exact Hp|]. split; [exact Hw|].
  split; [exact Hb3|]. split; [exact (proj1 (Hforever es2))|].
  vm_compute. reflexivity.
Defined.

(** ** Persisting the identity pool *)

Section persist_weights.
Import Persist.
Variables (w : Reaction -> nat) (a : nat -> nat).

Lemma sum_list_with_insert {A} (f : A -> nat) (l : list A) i x y :
  l !! i = Some y ->
  sum_list_with f (<[i := x]> l) + f y = sum_list_with f l + f x.
Proof.
  revert i. induction l as [|z l IH]; intros [|i] Hi; simplify_eq/=.
  - lia.
  - specialize (IH _ Hi). lia.
Qed.

Lemma weight_newPromise s : weight w a (newPromise s).2 = weight w a s.
Proof.
  unfold weight, newPromise. simpl. rewrite sum_list_with_app. simpl. lia.
Qed.

Lemma weight_addReaction s p r :
  p < List.length (promises s) ->
  weight w a (addReaction p r s) = weight w a s + w r.
Proof.
  intros Hp. unfold addReaction.
  destruct (promises s !! p) as [[rs|]|] eqn:E.
  - unfold weight. simpl.
    pose proof (sum_list_with_insert (wP w) (promises s) p
                  (Pending (rs ++ [r])) (Pending rs) E) as H.
    simpl in H. rewrite sum_list_with_app in H. simpl in H. lia.
  - unfold weight. simpl. rewrite sum_list_with_app. simpl. lia.
  - apply lookup_ge_None in E. lia.
Qed.

Lemma weight_resolveWith s q p :
  weight w a (resolveWith q p s) = weight w a s + a q.
Proof.
  unfold weight, resolveWith. simpl. rewrite sum_list_with_app. simpl. lia.
Qed.

Lemma sum_list_with_React rs :
  sum_list_with (wJ w a) (React <$> rs) = sum_list_with w rs.
Proof. induction rs as [|r rs IH]; csimpl; [done|]. by rewrite IH. Qed.

Lemma weight_fulfil s q : weight w a (fulfil q s) = weight w a s.
Proof.
  unfold fulfil. destruct (promises s !! q) as [[rs|]|] eqn:E; try done.
  unfold weight. simpl.
  pose proof (sum_list_with_insert (wP w) (promises s) q
                Fulfilled (Pending rs) E) as H.
  simpl in H. rewrite sum_list_with_app, sum_list_with_React. lia.
Qed.

Lemma weight_pop s j rest :
  jobs s = j :: rest ->
  weight w a (with_jobs (fun _ => rest) s) + wJ w a j = weight w a s.
Proof. intros E. unfold weight. simpl. rewrite E. simpl. lia. Qed.

Lemma weight_eq s s' :
  promises s = promises s' -> jobs s = jobs s' -> weight w a s = weight w a s'.
Proof. unfold weight. by intros -> ->. Qed.

End persist_weights.

Section persist_shapes.
Import Persist.

Lemma saveUsedIDs_chain s p :
  savingPromise s = Some p ->
  let r := List.length (promises s) in
  saveUsedIDs s =
    (r, resolveWith r (S r)
          (with_savingPromise (Some (S r))
             (addReaction p (CallSave (S r))
                (newPromise (newPromise s).2).2))).
Proof.
  intros E. unfold saveUsedIDs. simpl. rewrite E. simpl.
  rewrite length_app. simpl. by rewrite Nat.add_1_r.
Qed.

Lemma saveUsedIDs_start s :
  savingPromise s = None ->
  let r := List.length (promises s) in
  let s1 := with_inflight (fun l => l ++ [(S r, Mkdir)]) (newPromise (newPromise s).2).2 in
  saveUsedIDs s =
    (r, resolveWith r (S r)
          {| usedIDs := usedIDs s; savingPromise := Some (S r);
             promises := promises s1; jobs := jobs s; inflight := inflight s1;
             tmpFile := tmpFile s; dataFile := dataFile s;
             requests := requests s; started := S (started s) |}).
Proof.
  intros E. unfold saveUsedIDs. simpl. rewrite E. simpl.
  rewrite length_app. simpl. by rewrite Nat.add_1_r.
Qed.

Lemma length_newPromise s :
  List.length (promises (newPromise s).2) = S (List.length (promises s)).
Proof. simpl. rewrite length_app. simpl. lia. Qed.

Lemma length_addReaction s p r :
  List.length (promises (addReaction p r s)) = List.length (promises s).
Proof.
  unfold addReaction. destruct (promises s !! p) as [[rs|]|]; simpl; try done.
  by rewrite length_insert.
Qed.

Lemma length_fulfil s q :
  List.length (promises (fulfil q s)) = List.length (promises s).
Proof.
  unfold fulfil. destruct (promises s !! q) as [[rs|]|]; simpl; try done.
  by rewrite length_insert.
Qed.

Lemma length_saveUsedIDs s :
  (forall p, savingPromise s = Some p -> p < List.length (promises s)) ->
  List.length (promises (saveUsedIDs s).2) = S (S (List.length (promises s))).
Proof.
  intros Hp. destruct (savingPromise s) as [p|] eqn:E.
  - rewrite (saveUsedIDs_chain s p E). simpl.
    rewrite length_addReaction. simpl. rewrite !length_app. simpl. lia.
  - rewrite (saveUsedIDs_start s E). simpl. rewrite !length_app. simpl. lia.
Qed.

Lemma weight_saveUsedIDs w a s :
  (forall p, savingPromise s = Some p -> p < List.length (promises s)) ->
  weight w a (saveUsedIDs s).2 =
    weight w a s + a (List.length (promises s))
    + match savingPromise s with
      | Some _ => w (CallSave (S (List.length (promises s))))
      | None => 0
      end.
Proof.
  intros Hp. destruct (savingPromise s) as [p|] eqn:E.
  - rewrite (saveUsedIDs_chain s p E). simpl.
    rewrite weight_resolveWith.
    rewrite (weight_eq w a (with_savingPromise _ _)
               (addReaction p (CallSave (S (List.length (promises s))))
                  (newPromise (newPromise s).2).2)) by done.
    rewrite weight_addReaction.
    + rewrite !weight_newPromise. lia.
    + rewrite !length_newPromise. specialize (Hp p eq_refl). lia.
  - rewrite (saveUsedIDs_start s E). simpl.
    rewrite weight_resolveWith.
    match goal with |- weight w a ?x + _ = _ =>
      rewrite (weight_eq w a x (newPromise (newPromise s).2).2) by done end.
    rewrite !weight_newPromise. lia.
Qed.

Lemma inflight_saveUsedIDs s :
  inflight (saveUsedIDs s).2 =
    match savingPromise s with
    | Some _ => inflight s
    | None => inflight s ++ [(S (List.length (promises s)), Mkdir)]
    end.
Proof.
  destruct (savingPromise s) as [p|] eqn:E.
  - rewrite (saveUsedIDs_chain s p E). simpl.
    unfold addReaction. simpl. by repeat case_match.
  - by rewrite (saveUsedIDs_start s E).
Qed.

Lemma started_saveUsedIDs s :
  started (saveUsedIDs s).2 =
    match savingPromise s with
    | Some _ => started s
    | None => S (started s)
    end.
Proof.
  destruct (savingPromise s) as [p|] eqn:E.
  - rewrite (saveUsedIDs_chain s p E). simpl.
    unfold addReaction. simpl. by repeat case_match.
  - by rewrite (saveUsedIDs_start s E).
Qed.

Lemma requests_saveUsedIDs s : requests (saveUsedIDs s).2 = requests s.
Proof.
  destruct (savingPromise s) as [p|] eqn:E.
  - rewrite (saveUsedIDs_chain s p E). simpl.
    unfold addReaction. simpl. by repeat case_match.
  - by rewrite (saveUsedIDs_start s E).
Qed.

Lemma savingPromise_saveUsedIDs s :
  savingPromise (saveUsedIDs s).2 = Some (S (List.length (promises s))).
Proof.
  destruct (savingPromise s) as [p|] eqn:E.
  - by rewrite (saveUsedIDs_chain s p E).
  - by rewrite (saveUsedIDs_start s E).
Qed.

Lemma fst_saveUsedIDs s : (saveUsedIDs s).1 = List.length (promises s).
Proof.
  destruct (savingPromise s) as [p|] eqn:E.
  - by rewrite (saveUsedIDs_chain s p E).
  - by rewrite (saveUsedIDs_start s E).
Qed.

End persist_shapes.

Section persist_support.
Import Persist.

Lemma ext_refl s : ext s s.
Proof. split; eauto. Qed.

Lemma ext_trans s1 s2 s3 : ext s1 s2 -> ext s2 s3 -> ext s1 s3.
Proof.
  intros [F1 P1 J1 I1] [F2 P2 J2 I2]. split; eauto.
  - intros p rs H. destruct (P1 _ _ H) as (rs1 & H1 & S1).
    destruct (P2 _ _ H1) as (rs2 & H2 & S2). exists rs2. split; [done|].
    by etrans.
  - by etrans.
  - intros b ph H. destruct (I1 _ _ H) as [ph1 H1]. eauto.
Qed.

Lemma ext_frame s s' :
  promises s = promises s' -> jobs s ⊆ jobs s' -> inflight s ⊆ inflight s' ->
  ext s s'.
Proof.
  intros Hp Hj Hi. split; try done.
  - intros p H. by rewrite <- Hp.
  - intros p rs H. exists rs. by rewrite <- Hp.
  - intros b ph H. exists ph. by apply Hi.
Qed.

Lemma ext_newPromise s : ext s (newPromise s).2.
Proof.
  split; simpl; try done.
  - intros p H. rewrite lookup_app_l; [done|]. by eapply lookup_lt_Some.
  - intros p rs H. exists rs. split; [|done].
    rewrite lookup_app_l; [done|]. by eapply lookup_lt_Some.
  - eauto.
Qed.

Lemma ext_addReaction s p r : ext s (addReaction p r s).
Proof.
  unfold addReaction. destruct (promises s !! p) as [[rs|]|] eqn:E.
  - split; simpl; try done.
    + intros p' H. destruct (decide (p' = p)) as [->|Hne]; [congruence|].
      by rewrite list_lookup_insert_ne.
    + intros p' rs' H. destruct (decide (p' = p)) as [->|Hne].
      * exists (rs ++ [r]). rewrite list_lookup_insert_eq
          by (by eapply lookup_lt_Some).
        split; [done|]. simplify_eq. set_solver.
      * exists rs'. by rewrite list_lookup_insert_ne.
    + eauto.
  - apply ext_frame; simpl; set_solver.
  - apply ext_refl.
Qed.

Lemma ext_resolveWith s q p : ext s (resolveWith q p s).
Proof. apply ext_frame; simpl; set_solver. Qed.

Lemma ext_saveUsedIDs s : ext s (saveUsedIDs s).2.
Proof.
  destruct (savingPromise s) as [p|] eqn:E.
  - rewrite (saveUsedIDs_chain s p E). simpl.
    eapply ext_trans; [apply ext_newPromise|].
    eapply ext_trans; [apply ext_newPromise|].
    eapply ext_trans; [apply ext_addReaction|].
    eapply ext_trans; [|apply ext_resolveWith].
    apply ext_frame; done.
  - rewrite (saveUsedIDs_start s E). simpl.
    eapply ext_trans; [apply ext_newPromise|].
    eapply ext_trans; [apply ext_newPromise|].
    eapply ext_trans; [|apply ext_resolveWith].
    apply ext_frame; simpl; set_solver.
Qed.

Lemma supported_step s s' (E : nat -> Prop) :
  (forall q rs, E q -> promises s' !! q <> Some (Pending rs)) ->
  (forall b ph, (b, ph) ∈ inflight s -> supported s' b \/ E b) ->
  (forall r, React r ∈ jobs s -> supported s' (target r) \/ E (target r)) ->
  (forall q p, Adopt q p ∈ jobs s ->
     Adopt q p ∈ jobs s' \/ (supported s' q \/ E q) \/
     exists rs', promises s' !! p = Some (Pending rs') /\ Settle q ∈ rs') ->
  (forall p, promises s !! p = Some Fulfilled ->
     promises s' !! p = Some Fulfilled) ->
  (forall p rs, promises s !! p = Some (Pending rs) ->
     (exists rs', promises s' !! p = Some (Pending rs') /\ rs ⊆ rs') \/
     (promises s' !! p = Some Fulfilled /\
      forall r, r ∈ rs -> React r ∈ jobs s')) ->
  forall q, supported s q -> supported s' q \/ E q.
Proof.
  intros HE Hin Hreact Hadopt Hful Hpend q Hq.
  induction Hq as [b ph Hb|r Hr|q p Hj Hp|q p rs Hj Hp Hs IH|p rs r Hp Hr Hs IH].
  - eauto.
  - eauto.
  - destruct (Hadopt _ _ Hj) as [Hj'|[Hq|(rs' & Hp' & _)]]; [|done|].
    + left. eapply sup_adopt_done; eauto.
    + apply Hful in Hp. congruence.
  - destruct (Hadopt _ _ Hj) as [Hj'|[Hq|(rs' & Hp' & Hin')]]; [|done|].
    + destruct (Hpend _ _ Hp) as [(rs' & Hp' & _)|[Hp' _]].
      * destruct IH as [IH|IH]; [|by destruct (HE _ _ IH Hp')].
        left. eapply sup_adopt_wait; eauto.
      * left. eapply sup_adopt_done; eauto.
    + destruct IH as [IH|IH]; [|by destruct (HE _ _ IH Hp')].
      left. apply (sup_wait s' p rs' (Settle q) Hp' Hin' IH).
  - destruct (Hpend _ _ Hp) as [(rs' & Hp' & Hsub)|[Hp' Hjobs]].
    + destruct IH as [IH|IH]; [|by destruct (HE _ _ IH Hp')].
      left. eapply sup_wait; eauto.
    + left. apply sup_react. eauto.
Qed.

Lemma supported_ext s s' q : ext s s' -> supported s q -> supported s' q.
Proof.
  intros [F P J I] Hq.
  destruct (supported_step s s' (fun _ => False)) with (q := q)
    as [H|[]]; try done.
  - intros b ph H. left. destruct (I _ _ H) as [ph' H']. by eapply sup_body.
  - intros r H. left. apply sup_react; eauto.
  - intros q' p H. left. eauto.
  - intros p rs H. left. eauto.
Qed.

Lemma not_supported s q :
  inflight s = [] -> jobs s = [] -> ~ supported s q.
Proof.
  intros Hi Hj Hq. induction Hq; try done.
  - rewrite Hi in *. set_solver.
  - rewrite Hj in *. set_solver.
  - rewrite Hj in *. set_solver.
Qed.

Lemma chain_mono s s' b p :
  (forall p rs, promises s !! p = Some (Pending rs) ->
     exists rs', promises s' !! p = Some (Pending rs') /\ rs ⊆ rs') ->
  chain s b p -> chain s' b p.
Proof.
  intros P H. induction H as [rs H|p q rs rs' _ IH Hp Hr Hq].
  - destruct (P _ _ H) as (rs1 & H1 & _). by eapply chain_body.
  - destruct (P _ _ Hp) as (rs1 & H1 & S1).
    destruct (P _ _ Hq) as (rs2 & H2 & _).
    eapply chain_then; eauto.
Qed.

Lemma chain_supported s b ph p :
  (b, ph) ∈ inflight s -> chain s b p -> supported s p.
Proof.
  intros Hb H. induction H as [rs H|p q rs rs' _ IH Hp Hr Hq].
  - by eapply sup_body.
  - apply (sup_wait s p rs (CallSave q) Hp Hr IH).
Qed.

Lemma chain_pending s b p :
  chain s b p -> exists rs, promises s !! p = Some (Pending rs).
Proof. destruct 1; eauto. Qed.

End persist_support.

Section persist_tokens.
Import Persist.

Lemma holds_eq q : holds q q = 1.
Proof. unfold holds. by rewrite decide_True. Qed.

Lemma holds_ne q x : x <> q -> holds q x = 0.
Proof. intros H. unfold holds. by rewrite decide_False. Qed.

Lemma tokens_pop q s j rest :
  jobs s = j :: rest ->
  tokens q (with_jobs (fun _ => rest) s)
  + wJ (fun r => holds q (target r)) (holds q) j = tokens q s.
Proof.
  intros E. unfold tokens.
  pose proof (weight_pop (fun r => holds q (target r)) (holds q) s j rest E).
  simpl. lia.
Qed.

Lemma inflight_addReaction s p r : inflight (addReaction p r s) = inflight s.
Proof. unfold addReaction. by repeat case_match. Qed.

Lemma inflight_fulfil s x : inflight (fulfil x s) = inflight s.
Proof. unfold fulfil. by repeat case_match. Qed.

Lemma savingPromise_addReaction s p r :
  savingPromise (addReaction p r s) = savingPromise s.
Proof. unfold addReaction. by repeat case_match. Qed.

Lemma savingPromise_fulfil s x : savingPromise (fulfil x s) = savingPromise s.
Proof. unfold fulfil. by repeat case_match. Qed.

Lemma requests_addReaction s p r : requests (addReaction p r s) = requests s.
Proof. unfold addReaction. by repeat case_match. Qed.

Lemma requests_fulfil s x : requests (fulfil x s) = requests s.
Proof. unfold fulfil. by repeat case_match. Qed.

Lemma started_addReaction s p r : started (addReaction p r s) = started s.
Proof. unfold addReaction. by repeat case_match. Qed.

Lemma started_fulfil s x : started (fulfil x s) = started s.
Proof. unfold fulfil. by repeat case_match. Qed.

Lemma tokens_addReaction q s p r :
  p < List.length (promises s) ->
  tokens q (addReaction p r s) = tokens q s + holds q (target r).
Proof.
  intros Hp. unfold tokens.
  rewrite weight_addReaction, inflight_addReaction by done. lia.
Qed.

Lemma tokens_fulfil q s x : tokens q (fulfil x s) = tokens q s.
Proof. unfold tokens. by rewrite weight_fulfil, inflight_fulfil. Qed.

Lemma tokens_resolveWith q s a b :
  tokens q (resolveWith a b s) = tokens q s + holds q a.
Proof. unfold tokens. rewrite weight_resolveWith. simpl. lia. Qed.

Lemma tokens_saveUsedIDs q s :
  (forall p, savingPromise s = Some p -> p < List.length (promises s)) ->
  tokens q (saveUsedIDs s).2 =
    tokens q s + holds q (List.length (promises s))
    + holds q (S (List.length (promises s))).
Proof.
  intros Hp. unfold tokens.
  rewrite weight_saveUsedIDs, inflight_saveUsedIDs by done.
  destruct (savingPromise s); simpl; [lia|].
  rewrite sum_list_with_app. simpl. lia.
Qed.

Lemma tokens_frame q s s' :
  promises s = promises s' -> jobs s = jobs s' ->
  (inflight s).*1 = (inflight s').*1 ->
  tokens q s = tokens q s'.
Proof.
  intros Hp Hj Hi. unfold tokens.
  rewrite (weight_eq _ _ s s') by done. f_equal.
  assert (forall l : list (nat * Phase),
    sum_list_with (fun e => holds q e.1) l = sum_list_with (holds q) (l.*1))
    as Hs by (induction l as [|e l IH]; csimpl; congruence).
  by rewrite !Hs, Hi.
Qed.

(** A promise in the chain of [savingPromise] has a token that is not a
    job. *)
Lemma chain_token s b ph m :
  (b, ph) ∈ inflight s -> chain s b m ->
  1 <= sum_list_with (wP (fun r => holds m (target r))) (promises s)
       + sum_list_with (fun e => holds m e.1) (inflight s).
Proof.
  intros Hb H. destruct H as [rs H|p q rs rs' _ Hp Hr Hq].
  - pose proof (sum_list_with_in _ (fun e => holds b e.1) _ Hb) as Hle.
    simpl in Hle. rewrite holds_eq in Hle. lia.
  - pose proof (sum_list_with_in _ (wP (fun r => holds q (target r))) _
                  (list_elem_of_lookup_2 _ _ _ Hp)) as Hle.
    pose proof (sum_list_with_in _ (fun r => holds q (target r)) _ Hr) as Hle'.
    simpl in Hle, Hle'. rewrite holds_eq in Hle'. lia.
Qed.

Lemma chain_not_settling s b ph m :
  (b, ph) ∈ inflight s -> chain s b m -> tokens m s <= 1 ->
  React (Settle m) ∉ jobs s.
Proof.
  intros Hb H Hlin Hj.
  pose proof (chain_token s b ph m Hb H) as H1.
  pose proof (sum_list_with_in _
    (wJ (fun r => holds m (target r)) (holds m)) _ Hj) as H2.
  simpl in H2. rewrite holds_eq in H2.
  unfold tokens, weight in Hlin. lia.
Qed.

Lemma lookup_fulfil_ne s x p :
  p <> x -> promises (fulfil x s) !! p = promises s !! p.
Proof.
  intros Hne. unfold fulfil.
  destruct (promises s !! x) as [[rs|]|]; simpl; try done.
  by rewrite list_lookup_insert_ne.
Qed.

Lemma chain_fulfil s b x p :
  (forall m, chain s b m -> m <> x) -> chain s b p -> chain (fulfil x s) b p.
Proof.
  intros Hx H. induction H as [rs H|p q rs rs' Hc IH Hp Hr Hq].
  - apply (chain_body _ _ rs). rewrite lookup_fulfil_ne; [done|].
    apply Hx. by eapply chain_body.
  - apply (chain_then _ _ p q rs rs'); try done.
    + rewrite lookup_fulfil_ne; [done|]. by apply Hx.
    + rewrite lookup_fulfil_ne; [done|]. apply Hx. by eapply chain_then.
Qed.

Lemma fulfil_fulfilled s x p :
  promises s !! p = Some Fulfilled -> promises (fulfil x s) !! p = Some Fulfilled.
Proof.
  intros H. destruct (decide (p = x)) as [->|Hne].
  - unfold fulfil. by rewrite H.
  - by rewrite lookup_fulfil_ne.
Qed.

Lemma fulfil_at s x :
  x < List.length (promises s) -> promises (fulfil x s) !! x = Some Fulfilled.
Proof.
  intros Hx. unfold fulfil.
  destruct (promises s !! x) as [[rs|]|] eqn:E; simpl.
  - by rewrite list_lookup_insert_eq.
  - done.
  - apply lookup_ge_None in E. lia.
Qed.

Lemma fulfil_not_pending s x rs :
  promises (fulfil x s) !! x <> Some (Pending rs).
Proof.
  unfold fulfil. destruct (promises s !! x) as [[rs'|]|] eqn:E; simpl.
  - rewrite list_lookup_insert_eq by (by eapply lookup_lt_Some). done.
  - congruence.
  - congruence.
Qed.

Lemma fulfil_pending s x p rs :
  promises s !! p = Some (Pending rs) ->
  (exists rs', promises (fulfil x s) !! p = Some (Pending rs') /\ rs ⊆ rs') \/
  (promises (fulfil x s) !! p = Some Fulfilled /\
   forall r, r ∈ rs -> React r ∈ jobs (fulfil x s)).
Proof.
  intros H. destruct (decide (p = x)) as [->|Hne].
  - right. split; [apply fulfil_at; by eapply lookup_lt_Some|].
    intros r Hr. unfold fulfil. rewrite H. simpl.
    apply elem_of_app. right. by apply list_elem_of_fmap_2.
  - left. exists rs. by rewrite lookup_fulfil_ne.
Qed.

Lemma jobs_fulfil s x : jobs s ⊆ jobs (fulfil x s).
Proof.
  unfold fulfil. destruct (promises s !! x) as [[rs|]|]; simpl; set_solver.
Qed.

Lemma adopt_fulfil s x q p :
  Adopt q p ∈ jobs (fulfil x s) -> Adopt q p ∈ jobs s.
Proof.
  unfold fulfil. destruct (promises s !! x) as [[rs|]|]; simpl; try done.
  rewrite elem_of_app. intros [H|H]; [done|].
  apply list_elem_of_fmap in H as (r & ? & _). done.
Qed.

Lemma pending_fulfil s x p rs :
  promises (fulfil x s) !! p = Some (Pending rs) ->
  p <> x /\ promises s !! p = Some (Pending rs).
Proof.
  intros H. destruct (decide (p = x)) as [->|Hne].
  - by destruct (fulfil_not_pending s x rs).
  - by rewrite lookup_fulfil_ne in H.
Qed.

End persist_tokens.

Section persist_invariant.
Import Persist.

Lemma serial_valid s p :
  serial s -> savingPromise s = Some p -> p < List.length (promises s).
Proof.
  unfold serial. intros H E. rewrite E in H.
  destruct H as (b & ph & _ & Hc).
  destruct (chain_pending _ _ _ Hc) as [rs Hp]. by eapply lookup_lt_Some.
Qed.

Lemma serial_inflight s : serial s -> List.length (inflight s) <= 1.
Proof.
  unfold serial. destruct (savingPromise s).
  - intros (b & ph & -> & _). simpl. lia.
  - intros ->. simpl. lia.
Qed.

Lemma serial_frame s s' :
  promises s' = promises s -> inflight s' = inflight s ->
  savingPromise s' = savingPromise s -> serial s -> serial s'.
Proof.
  unfold serial. intros Hp Hi Hs. rewrite Hs, Hi.
  destruct (savingPromise s); [|done].
  intros (b & ph & E & Hc). exists b, ph. split; [done|].
  eapply chain_mono; [|done]. intros p rs H. exists rs. by rewrite Hp.
Qed.

Lemma Inv_frame s s' :
  promises s' = promises s -> jobs s' = jobs s -> inflight s' = inflight s ->
  savingPromise s' = savingPromise s ->
  Inv s -> Inv s'.
Proof.
  intros Hp Hj Hi Hs [I1 I2 I3 I4 I6 I7].
  assert (ext s s') as Hext by (apply ext_frame; by rewrite ?Hp, ?Hj, ?Hi).
  assert (forall q, tokens q s' = tokens q s) as Ht
    by (intros q; apply tokens_frame; by rewrite ?Hp, ?Hj, ?Hi).
  split.
  - intros q. rewrite Hp, Ht. apply I1.
  - intros q. rewrite Ht. apply I2.
  - intros q p. rewrite Hp, Hj. apply I3.
  - by apply (serial_frame s).
  - intros p rs. rewrite Hp. intros H1 H2.
    eapply supported_ext; [done|]. by eapply I6.
  - intros q p. rewrite Hp, Hj. intros H.
    destruct (I7 _ _ H); [by left|right]. by eapply supported_ext.
Qed.

Lemma promises_saveUsedIDs s :
  serial s ->
  let r := List.length (promises s) in
  let l := (promises s ++ [Pending []]) ++ [Pending []] in
  promises (saveUsedIDs s).2 =
    match savingPromise s with
    | Some p =>
        match promises s !! p with
        | Some (Pending rs) => <[p := Pending (rs ++ [CallSave (S r)])]> l
        | _ => l
        end
    | None => l
    end
  /\ jobs (saveUsedIDs s).2 = jobs s ++ [Adopt r (S r)].
Proof.
  intros Hser. destruct (savingPromise s) as [p|] eqn:E.
  - pose proof Hser as Hser'. unfold serial in Hser'. rewrite E in Hser'.
    destruct Hser' as (b & ph & _ & Hc).
    destruct (chain_pending _ _ _ Hc) as [rs Hp].
    rewrite (saveUsedIDs_chain s p E). simpl. rewrite Hp.
    unfold addReaction. simpl.
    pose proof (lookup_lt_Some _ _ _ Hp) as Hlt.
    rewrite !lookup_app_l by (rewrite ?length_app; simpl; lia).
    by rewrite Hp.
  - by rewrite (saveUsedIDs_start s E).
Qed.

Lemma lookup_saveUsedIDs_new s :
  serial s ->
  let r := List.length (promises s) in
  promises (saveUsedIDs s).2 !! r = Some (Pending []) /\
  promises (saveUsedIDs s).2 !! (S r) = Some (Pending []).
Proof.
  intros Hser r.
  destruct (promises_saveUsedIDs s Hser) as [Hp _]. rewrite Hp.
  assert (((promises s ++ [Pending []]) ++ [Pending []]) !! r
          = Some (Pending []) /\
          ((promises s ++ [Pending []]) ++ [Pending []]) !! S r
          = Some (Pending [])) as [H1 H2].
  { split.
    - rewrite lookup_app_l by (rewrite length_app; simpl; lia).
      rewrite lookup_app_r by done. by rewrite Nat.sub_diag.
    - rewrite lookup_app_r by (rewrite length_app; simpl; lia).
      rewrite length_app. simpl.
      by replace (S r - (List.length (promises s) + 1)) with 0 by lia. }
  destruct (savingPromise s) as [p|] eqn:E; [|done].
  destruct (promises s !! p) as [[rs|]|] eqn:E'; try done.
  pose proof (lookup_lt_Some _ _ _ E') as Hlt.
  rewrite !list_lookup_insert_ne by lia. done.
Qed.

Lemma serial_saveUsedIDs s : serial s -> serial (saveUsedIDs s).2.
Proof.
  intros Hser. pose proof Hser as Hser'. unfold serial in Hser'.
  destruct (lookup_saveUsedIDs_new s Hser) as [_ Hnew].
  unfold serial. rewrite savingPromise_saveUsedIDs, inflight_saveUsedIDs.
  destruct (savingPromise s) as [p|] eqn:E.
  - destruct Hser' as (b & ph & Hi & Hc). exists b, ph. split; [done|].
    destruct (chain_pending _ _ _ Hc) as [rs Hp].
    destruct (ext_pending _ _ (ext_saveUsedIDs s) _ _ Hp) as (rs' & Hp' & _).
    apply (chain_then _ _ p _ rs' []); try done.
    + eapply chain_mono; [|done]. apply (ext_saveUsedIDs s).
    + destruct (promises_saveUsedIDs s Hser) as [Hpr _].
      rewrite E, Hp in Hpr. rewrite Hpr in Hp'.
      rewrite list_lookup_insert_eq in Hp'.
      * simplify_eq. set_solver.
      * rewrite !length_app. apply lookup_lt_Some in Hp. simpl. lia.
  - rewrite Hser'. simpl. eexists _, _. split; [done|].
    by eapply chain_body.
Qed.

Lemma supported_saving s p :
  serial s -> savingPromise s = Some p -> supported s p.
Proof.
  unfold serial. intros H E. rewrite E in H.
  destruct H as (b & ph & Hi & Hc).
  apply (chain_supported s b ph); [|done]. rewrite Hi. set_solver.
Qed.

Lemma regs_saveUsedIDs s p rs :
  serial s ->
  promises (saveUsedIDs s).2 !! p = Some (Pending rs) -> rs <> [] ->
  (exists rs0, promises s !! p = Some (Pending rs0) /\ rs0 <> []) \/
  savingPromise s = Some p.
Proof.
  intros Hser H Hne.
  destruct (lookup_saveUsedIDs_new s Hser) as [Hn1 Hn2].
  destruct (decide (p = List.length (promises s))) as [->|N1]; [congruence|].
  destruct (decide (p = S (List.length (promises s)))) as [->|N2];
    [congruence|].
  destruct (promises_saveUsedIDs s Hser) as [Hpr _]. rewrite Hpr in H.
  assert (((promises s ++ [Pending []]) ++ [Pending []]) !! p
          = promises s !! p) as Hold.
  { destruct (decide (p < List.length (promises s))).
    - by rewrite !lookup_app_l by (rewrite ?length_app; simpl; lia).
    - rewrite (proj2 (lookup_ge_None (promises s) p)) by lia.
      apply lookup_ge_None. rewrite !length_app. simpl. lia. }
  destruct (savingPromise s) as [p'|] eqn:E.
  - destruct (decide (p = p')) as [->|N3]; [by right|].
    left. exists rs. split; [|done].
    destruct (promises s !! p') as [[rs'|]|];
      rewrite ?list_lookup_insert_ne in H by done; congruence.
  - left. exists rs. split; [|done]. congruence.
Qed.

Lemma Inv_save s : Inv s -> Inv (saveUsedIDs s).2.
Proof.
  intros [I1 I2 I3 I4 I6 I7].
  pose proof (serial_saveUsedIDs s I4) as Hser'.
  pose proof (ext_saveUsedIDs s) as Hext.
  destruct (promises_saveUsedIDs s I4) as [_ Hjobs].
  pose proof (length_saveUsedIDs s (fun p => serial_valid s p I4)) as Hlen.
  pose proof (tokens_saveUsedIDs) as Htok.
  specialize (fun q => Htok q s (fun p => serial_valid s p I4)).
  assert (supported (saveUsedIDs s).2 (S (List.length (promises s)))) as Hsup.
  { apply supported_saving; [done|]. apply savingPromise_saveUsedIDs. }
  split.
  - intros q Hq. rewrite Htok, I1, !holds_ne by lia. done.
  - intros q. rewrite Htok.
    destruct (decide (q < List.length (promises s))).
    + rewrite !holds_ne by lia. specialize (I2 q). lia.
    + rewrite I1 by lia. unfold holds. repeat case_decide; lia.
  - intros q p. rewrite Hjobs, Hlen, elem_of_app, list_elem_of_singleton.
    intros [H|H]; [apply I3 in H; lia|]. simplify_eq. lia.
  - done.
  - intros p rs H Hne.
    destruct (regs_saveUsedIDs s p rs I4 H Hne) as [(rs0 & H0 & Hne0)|Hs].
    + eapply supported_ext; [done|]. by eapply I6.
    + eapply supported_ext; [done|]. by apply supported_saving.
  - intros q p. rewrite Hjobs, elem_of_app, list_elem_of_singleton.
    intros [H|H].
    + destruct (I7 _ _ H) as [H'|H'].
      * left. by apply (ext_fulfilled _ _ Hext).
      * right. by eapply supported_ext.
    + simplify_eq. by right.
Qed.

Lemma counted_save s :
  serial s ->
  requests (saveUsedIDs s).2 = requests s /\
  started (saveUsedIDs s).2 + chained (saveUsedIDs s).2
  = S (started s + chained s).
Proof.
  intros Hser. unfold chained in *.
  rewrite weight_saveUsedIDs by (intros p; by apply serial_valid).
  rewrite requests_saveUsedIDs, started_saveUsedIDs.
  destruct (savingPromise s); simpl; lia.
Qed.

End persist_invariant.

Section persist_steps.
Import Persist.

Lemma Inv_adopt s q0 p0 rest :
  Inv s -> jobs s = Adopt q0 p0 :: rest ->
  Inv (addReaction p0 (Settle q0) (with_jobs (fun _ => rest) s)).
Proof.
  intros [I1 I2 I3 I4 I6 I7] E.
  set (s1 := with_jobs (fun _ => rest) s).
  assert (p0 < List.length (promises s)) as Hp0
    by (apply (I3 q0); rewrite E; set_solver).
  pose proof (ext_addReaction s1 p0 (Settle q0)) as Hext.
  assert (forall q p, Adopt q p ∈ jobs (addReaction p0 (Settle q0) s1) ->
                      Adopt q p ∈ rest) as Hrest.
  { intros q p. unfold addReaction.
    destruct (promises s1 !! p0) as [[rs|]|]; simpl; try done.
    rewrite elem_of_app, list_elem_of_singleton. by intros [H|H]. }
  assert (forall q, supported s q ->
                    supported (addReaction p0 (Settle q0) s1) q) as Hmono.
  { intros q Hq.
    destruct (supported_step s (addReaction p0 (Settle q0) s1)
                (fun _ => False)) with (q := q) as [H|[]]; try done.
    - intros b ph H. left. apply (sup_body _ b ph).
      by rewrite inflight_addReaction.
    - intros r H. left. apply sup_react. apply (ext_jobs _ _ Hext).
      rewrite E in H. by apply elem_of_cons in H as [H|H].
    - intros q' p' H. rewrite E in H.
      apply elem_of_cons in H as [H|H].
      + simplify_eq. right.
        destruct (promises s !! p0) as [[rs|]|] eqn:E0.
        * right. exists (rs ++ [Settle q0]). split; [|set_solver].
          unfold addReaction. simpl. rewrite E0. simpl.
          by rewrite list_lookup_insert_eq.
        * left. left. apply (sup_react _ (Settle q0)).
          unfold addReaction. simpl. rewrite E0. simpl. set_solver.
        * apply lookup_ge_None in E0. lia.
      + left. by apply (ext_jobs _ _ Hext).
    - intros p H. by apply (ext_fulfilled _ _ Hext).
    - intros p rs H. left. by apply (ext_pending _ _ Hext). }
  assert (forall q, tokens q (addReaction p0 (Settle q0) s1) = tokens q s)
    as Htok.
  { intros q. rewrite tokens_addReaction by done.
    by rewrite <- (tokens_pop q s _ rest E). }
  split.
  - intros q. rewrite Htok, length_addReaction. apply I1.
  - intros q. rewrite Htok. apply I2.
  - intros q p H. rewrite length_addReaction. apply (I3 q).
    rewrite E. apply Hrest in H. set_solver.
  - unfold serial in *.
    rewrite inflight_addReaction, savingPromise_addReaction.
    change (savingPromise s1) with (savingPromise s).
    change (inflight s1) with (inflight s).
    destruct (savingPromise s); [|done].
    destruct I4 as (b & ph & Hi & Hc). exists b, ph. split; [done|].
    eapply chain_mono; [|done].
    intros p rs H. apply (ext_pending _ _ Hext). exact H.
  - intros p rs H Hne.
    destruct (decide (p = p0)) as [->|Hp].
    + apply Hmono.
      destruct (I7 q0 p0) as [H'|H']; [rewrite E; set_solver| |done].
      apply (ext_fulfilled _ _ Hext) in H'. congruence.
    + apply Hmono. apply (I6 p rs); [|done].
      unfold addReaction in H. change (promises s1) with (promises s) in H.
      destruct (promises s !! p0) as [[rs0|]|]; simpl in H; try done.
      by rewrite list_lookup_insert_ne in H.
  - intros q p H. apply Hrest in H.
    destruct (I7 q p) as [H'|H']; [rewrite E; set_solver| |].
    + left. by apply (ext_fulfilled _ _ Hext).
    + right. by apply Hmono.
Qed.

Lemma supported_fulfil s s1 x q :
  promises s1 = promises s ->
  (forall b ph, (b, ph) ∈ inflight s -> (b, ph) ∈ inflight s1 \/ b = x) ->
  (forall j, j ∈ jobs s -> j ∈ jobs s1 \/ j = React (Settle x)) ->
  supported s q -> supported (fulfil x s1) q \/ q = x.
Proof.
  intros Hp Hi Hj.
  apply (supported_step s (fulfil x s1) (fun q => q = x)).
  - intros q' rs ->. apply fulfil_not_pending.
  - intros b ph H. destruct (Hi _ _ H) as [H'|H']; [left|by right].
    apply (sup_body _ b ph). by rewrite inflight_fulfil.
  - intros r H. destruct (Hj _ H) as [H'|H'].
    + left. apply sup_react. by apply jobs_fulfil.
    + right. by simplify_eq.
  - intros q' p H. destruct (Hj _ H) as [H'|H']; [|done].
    left. by apply jobs_fulfil.
  - intros p H. apply fulfil_fulfilled. by rewrite Hp.
  - intros p rs H. apply fulfil_pending. by rewrite Hp.
Qed.

Lemma Inv_settle s x rest :
  Inv s -> jobs s = React (Settle x) :: rest ->
  Inv (fulfil x (with_jobs (fun _ => rest) s)).
Proof.
  intros [I1 I2 I3 I4 I6 I7] E.
  set (s1 := with_jobs (fun _ => rest) s).
  assert (forall q, supported s q -> supported (fulfil x s1) q \/ q = x)
    as Hsup.
  { intros q. apply supported_fulfil; try done.
    - intros b ph H. by left.
    - intros j H. rewrite E in H.
      apply elem_of_cons in H as [H|H]; [by right|by left]. }
  assert (forall q, tokens q (fulfil x s1) <= tokens q s) as Htok.
  { intros q. rewrite tokens_fulfil.
    pose proof (tokens_pop q s _ rest E). fold s1 in H. lia. }
  split.
  - intros q Hq. rewrite length_fulfil in Hq. specialize (Htok q).
    specialize (I1 q Hq). lia.
  - intros q. specialize (Htok q). specialize (I2 q). lia.
  - intros q p H. apply adopt_fulfil in H. rewrite length_fulfil.
    apply (I3 q). rewrite E. by apply elem_of_cons; right.
  - unfold serial in *. rewrite savingPromise_fulfil, inflight_fulfil.
    change (savingPromise s1) with (savingPromise s).
    change (inflight s1) with (inflight s).
    destruct (savingPromise s); [|done].
    destruct I4 as (b & ph & Hi & Hc). exists b, ph. split; [done|].
    assert (forall m, chain s1 b m -> chain s b m) as Hs1
      by (intros m; apply chain_mono; eauto).
    assert (forall m, chain s b m -> chain s1 b m) as Hs1'
      by (intros m; apply chain_mono; eauto).
    apply chain_fulfil; [|by apply Hs1'].
    intros m Hm ->. apply Hs1 in Hm.
    apply (chain_not_settling s b ph x); try done.
    + rewrite Hi. by apply list_elem_of_singleton.
    + rewrite E. by apply elem_of_cons; left.
  - intros p rs H Hne. apply pending_fulfil in H as [Hpx H].
    destruct (Hsup p); [by apply (I6 p rs)|done|done].
  - intros q p H. apply adopt_fulfil in H.
    assert (Adopt q p ∈ jobs s) as H' by (rewrite E; by apply elem_of_cons; right).
    destruct (I7 _ _ H') as [Hf|Hs].
    + left. by apply fulfil_fulfilled.
    + destruct (Hsup _ Hs) as [Hs'| ->]; [by right|].
      left. apply fulfil_at. by apply (I3 q).
Qed.

Lemma Inv_finish s b ph :
  Inv s -> (b, ph) ∈ inflight s -> Inv (finish b s).
Proof.
  intros [I1 I2 I3 I4 I6 I7] Hb. unfold finish.
  set (s1 := with_savingPromise None _).
  assert (inflight s = [(b, ph)]) as Hi.
  { unfold serial in I4. destruct (savingPromise s).
    - destruct I4 as (b' & ph' & Hi & _). rewrite Hi in Hb |- *.
      apply list_elem_of_singleton in Hb. by rewrite Hb.
    - rewrite I4 in Hb. by apply elem_of_nil in Hb. }
  assert (inflight s1 = []) as Hi1.
  { unfold s1. simpl. rewrite Hi.
    rewrite filter_cons_False by (simpl; intros H; by apply H). done. }
  assert (forall q, supported s q -> supported (fulfil b s1) q \/ q = b)
    as Hsup.
  { intros q. apply supported_fulfil; try done.
    - intros b' ph' H. right. rewrite Hi in H.
      apply list_elem_of_singleton in H. by simplify_eq.
    - intros j H. by left. }
  assert (forall q, tokens q (fulfil b s1) <= tokens q s) as Htok.
  { intros q. rewrite tokens_fulfil. unfold tokens. rewrite Hi1. simpl.
    unfold weight. simpl. lia. }
  split.
  - intros q Hq. rewrite length_fulfil in Hq. specialize (Htok q).
    specialize (I1 q Hq). lia.
  - intros q. specialize (Htok q). specialize (I2 q). lia.
  - intros q p H. apply adopt_fulfil in H. rewrite length_fulfil.
    by apply (I3 q).
  - unfold serial. by rewrite savingPromise_fulfil, inflight_fulfil.
  - intros p rs H Hne. apply pending_fulfil in H as [Hpx H].
    destruct (Hsup p); [by apply (I6 p rs)|done|done].
  - intros q p H. apply adopt_fulfil in H.
    destruct (I7 _ _ H) as [Hf|Hs].
    + left. by apply fulfil_fulfilled.
    + destruct (Hsup _ Hs) as [Hs'| ->]; [by right|].
      left. apply fulfil_at. by apply (I3 q).
Qed.

End persist_steps.

Section persist_steps2.
Import Persist.

Lemma runJob_CallSave s x :
  runJob (React (CallSave x)) s
  = resolveWith x (List.length (promises s)) (saveUsedIDs s).2.
Proof.
  simpl. rewrite <- (fst_saveUsedIDs s). by destruct (saveUsedIDs s).
Qed.

Lemma Inv_callSave s x rest :
  Inv s -> jobs s = React (CallSave x) :: rest ->
  Inv (runJob (React (CallSave x)) (with_jobs (fun _ => rest) s)).
Proof.
  intros [I1 I2 I3 I4 I6 I7] E. rewrite runJob_CallSave.
  set (s1 := with_jobs (fun _ => rest) s).
  set (r := List.length (promises s1)).
  set (s2 := (saveUsedIDs s1).2).
  assert (serial s1) as Hser1 by (by apply (serial_frame s)).
  pose proof (serial_saveUsedIDs s1 Hser1) as Hser2. fold s2 in Hser2.
  destruct (promises_saveUsedIDs s1 Hser1) as [_ Hjobs]. fold s2 r in Hjobs.
  change (jobs s1) with rest in Hjobs.
  destruct (lookup_saveUsedIDs_new s1 Hser1) as [Hn1 Hn2]. fold s2 r in Hn1, Hn2.
  pose proof (length_saveUsedIDs s1 (fun p => serial_valid s1 p Hser1)) as Hlen.
  fold s2 r in Hlen.
  assert (ext s1 (resolveWith x r s2)) as Hext.
  { eapply ext_trans; [apply ext_saveUsedIDs|apply ext_resolveWith]. }
  assert (forall q, tokens q (resolveWith x r s2)
                    = tokens q s + holds q r + holds q (S r)) as Htok.
  { intros q. rewrite tokens_resolveWith. unfold s2.
    rewrite tokens_saveUsedIDs by (intros p; by apply serial_valid).
    pose proof (tokens_pop q s _ rest E) as Hpop. simpl in Hpop.
    fold s1 in Hpop. fold r. lia. }
  assert (supported (resolveWith x r s2) (S r)) as HsupS.
  { apply (supported_ext s2); [apply ext_resolveWith|].
    apply supported_saving; [done|]. apply savingPromise_saveUsedIDs. }
  assert (supported (resolveWith x r s2) r) as Hsupr.
  { apply (sup_adopt_wait _ r (S r) []); try done.
    simpl. rewrite Hjobs. set_solver. }
  assert (supported (resolveWith x r s2) x) as Hsupx.
  { apply (sup_adopt_wait _ x r []); try done. simpl. set_solver. }
  assert (forall q, supported s q -> supported (resolveWith x r s2) q)
    as Hmono.
  { intros q Hq.
    destruct (supported_step s (resolveWith x r s2) (fun _ => False))
      with (q := q) as [H|[]]; try done.
    - intros b ph H. left.
      destruct (ext_inflight _ _ Hext b ph H) as [ph' H'].
      by apply (sup_body _ b ph').
    - intros r' H. left. rewrite E in H.
      apply elem_of_cons in H as [H|H]; [by simplify_eq|].
      apply sup_react. by apply (ext_jobs _ _ Hext).
    - intros q' p' H. left. rewrite E in H.
      apply elem_of_cons in H as [H|H]; [done|].
      by apply (ext_jobs _ _ Hext).
    - intros p H. by apply (ext_fulfilled _ _ Hext).
    - intros p rs H. left. by apply (ext_pending _ _ Hext). }
  assert (r = List.length (promises s)) as Hr by done.
  clearbody r.
  split.
  - intros q Hq. simpl in Hq. rewrite Hlen in Hq. rewrite Htok.
    rewrite I1, !holds_ne; lia.
  - intros q. rewrite Htok.
    destruct (decide (q < List.length (promises s))).
    + rewrite !holds_ne by lia. specialize (I2 q). lia.
    + rewrite I1 by lia. unfold holds. repeat case_decide; lia.
  - intros q p. simpl. rewrite Hjobs, Hlen.
    rewrite !elem_of_app, !list_elem_of_singleton. intros [[H|H]|H].
    + assert (Adopt q p ∈ jobs s) as H'
        by (rewrite E; by apply elem_of_cons; right).
      apply I3 in H'. lia.
    + simplify_eq. lia.
    + simplify_eq. lia.
  - by apply (serial_frame s2).
  - intros p rs H Hne. simpl in H.
    destruct (regs_saveUsedIDs s1 p rs Hser1 H Hne) as [(rs0 & H0 & Hne0)|Hs].
    + apply Hmono. by apply (I6 p rs0).
    + apply (supported_ext s1); [done|]. by apply supported_saving.
  - intros q p. simpl. rewrite Hjobs.
    rewrite !elem_of_app, !list_elem_of_singleton. intros [[H|H]|H].
    + assert (Adopt q p ∈ jobs s) as H'
        by (rewrite E; by apply elem_of_cons; right).
      destruct (I7 _ _ H') as [Hf|Hs].
      * left. by apply (ext_fulfilled _ _ Hext).
      * right. by apply Hmono.
    + simplify_eq. by right.
    + simplify_eq. by right.
Qed.

Lemma fst_setPhase (l : list (nat * Phase)) b ph :
  (fmap (fun e => if decide (e.1 = b) then (b, ph) else e) l).*1 = l.*1.
Proof.
  induction l as [|e l IH]; csimpl; [done|]. rewrite IH. f_equal.
  by case_decide.
Qed.

Lemma Inv_setPhase s b ph : Inv s -> Inv (setPhase b ph s).
Proof.
  intros [I1 I2 I3 I4 I6 I7].
  pose proof (fst_setPhase (inflight s) b ph) as Hfst.
  assert (ext s (setPhase b ph s)) as Hext.
  { split; simpl; eauto.
    intros b' ph' H.
    assert (b' ∈ (inflight (setPhase b ph s)).*1) as H'.
    { simpl. rewrite Hfst. apply list_elem_of_fmap. by exists (b', ph'). }
    apply list_elem_of_fmap in H' as ([b'' ph''] & -> & H'). eauto. }
  assert (forall q, tokens q (setPhase b ph s) = tokens q s) as Htok
    by (intros q; by apply tokens_frame).
  split.
  - intros q. rewrite Htok. apply I1.
  - intros q. rewrite Htok. apply I2.
  - done.
  - unfold serial in *. simpl. destruct (savingPromise s).
    + destruct I4 as (b' & ph' & Hi & Hc). rewrite Hi. csimpl.
      assert (chain (setPhase b ph s) b' n) as Hc'
        by (eapply chain_mono; [|done]; eauto).
      case_decide; simplify_eq/=; eauto.
    + by rewrite I4.
  - intros p rs H Hne. apply (supported_ext s); [done|]. by apply (I6 p rs).
  - intros q p H. destruct (I7 _ _ H); [by left|right].
    by apply (supported_ext s).
Qed.

Lemma Inv_files s t d : Inv s -> Inv (with_files t d s).
Proof. by apply Inv_frame. Qed.

Lemma find_inflight s b e :
  List.find (fun e => bool_decide (e.1 = b)) (inflight s) = Some e ->
  e ∈ inflight s /\ e.1 = b.
Proof.
  intros H. apply find_some in H as [H1 H2].
  split; [by apply list_elem_of_In|]. by apply bool_decide_eq_true in H2.
Qed.

Lemma Inv_ioDone s b ok : Inv s -> Inv (ioDone b ok s).
Proof.
  intros HI. unfold ioDone.
  destruct (List.find _ (inflight s)) as [[b' ph]|] eqn:E; [|done].
  apply find_inflight in E as [Hin Hb]. simpl in Hb. subst b'.
  destruct ph, ok; try destruct (tmpFile s);
    first [ apply Inv_setPhase; try apply Inv_files; done
          | eapply Inv_finish; [try apply Inv_files; done|exact Hin] ].
Qed.

Lemma persist_Inv_step s e : Inv s -> Inv (step s e).
Proof.
  intros HI. destruct e as [id| |b ok]; simpl.
  - apply Inv_save. by apply (Inv_frame s).
  - destruct (jobs s) as [|[q p|[x|x]] rest] eqn:E; [done|..].
    + by apply Inv_adopt.
    + by apply Inv_callSave.
    + by apply Inv_settle.
  - by apply Inv_ioDone.
Qed.

Lemma persist_Inv_init loaded : Inv (init loaded).
Proof.
  split.
  - done.
  - intros q. unfold tokens, weight. simpl. lia.
  - intros q p H. by apply elem_of_nil in H.
  - done.
  - intros p rs H. simpl in H. by rewrite lookup_nil in H.
  - intros q p H. by apply elem_of_nil in H.
Qed.

Lemma persist_reachable_Inv s : reachable s -> Inv s.
Proof. induction 1; [apply persist_Inv_init|by apply persist_Inv_step]. Qed.

End persist_steps2.

Section persist_count.
Import Persist.

Lemma chained_pop s j rest :
  jobs s = j :: rest ->
  chained (with_jobs (fun _ => rest) s) + wJ callSaves (fun _ => 0) j
  = chained s.
Proof. apply weight_pop. Qed.

Lemma counted_finish s b :
  requests (finish b s) = requests s /\ started (finish b s) = started s /\
  chained (finish b s) = chained s.
Proof.
  unfold finish. rewrite requests_fulfil, started_fulfil.
  unfold chained. rewrite weight_fulfil. done.
Qed.

Lemma counted_ioDone s b ok :
  requests (ioDone b ok s) = requests s /\
  started (ioDone b ok s) = started s /\
  chained (ioDone b ok s) = chained s.
Proof.
  unfold ioDone.
  destruct (List.find _ (inflight s)) as [[b' ph]|]; [|done].
  destruct ph, ok; try destruct (tmpFile s);
    first [ done | apply (counted_finish (with_files _ _ s))
          | apply counted_finish ].
Qed.

Lemma counted_step s e : Inv s -> counted s -> counted (step s e).
Proof.
  intros HI Hc. unfold counted in *. destruct e as [id| |b ok]; simpl.
  - assert (serial (addID id s)) as Hser
      by (apply (serial_frame s); try done; apply HI).
    destruct (counted_save (addID id s) Hser) as [-> ->]. simpl.
    change (chained (addID id s)) with (chained s). lia.
  - destruct (jobs s) as [|[q p|[x|x]] rest] eqn:E; [done|..].
    + pose proof (chained_pop s _ rest E) as Hpop. simpl in Hpop.
      unfold runJob. rewrite requests_addReaction, started_addReaction. unfold chained.
      rewrite weight_addReaction.
      * fold (chained (with_jobs (fun _ => rest) s)). simpl. lia.
      * apply (inv_adopt _ HI q). rewrite E. by apply elem_of_cons; left.
    + pose proof (chained_pop s _ rest E) as Hpop. simpl in Hpop.
      rewrite runJob_CallSave.
      assert (serial (with_jobs (fun _ => rest) s)) as Hser
        by (apply (serial_frame s); try done; apply HI).
      destruct (counted_save _ Hser) as [Hr Hs]. simpl in *.
      unfold chained at 1. rewrite weight_resolveWith.
      fold (chained (saveUsedIDs (with_jobs (fun _ => rest) s)).2).
      change (requests (resolveWith _ _ ?t)) with (requests t).
      change (started (resolveWith _ _ ?t)) with (started t).
      rewrite Hr. lia.
    + pose proof (chained_pop s _ rest E) as Hpop. simpl in Hpop.
      unfold runJob. rewrite requests_fulfil, started_fulfil. unfold chained.
      rewrite weight_fulfil.
      fold (chained (with_jobs (fun _ => rest) s)). simpl. lia.
  - destruct (counted_ioDone s b ok) as (-> & -> & ->). done.
Qed.

Lemma reachable_counted s : reachable s -> counted s.
Proof.
  induction 1 as [loaded|s e H IH]; [done|].
  apply counted_step; [by apply persist_reachable_Inv|done].
Qed.

Lemma quiescent_chained s :
  Inv s -> inflight s = [] -> jobs s = [] -> chained s = 0.
Proof.
  intros HI Hi Hj. unfold chained, weight. rewrite Hj. simpl.
  assert (forall p, p ∈ promises s -> wP callSaves p = 0) as Hz.
  { intros [rs|] Hp; [|done].
    apply list_elem_of_lookup_1 in Hp as [i Hp].
    destruct rs as [|r rs]; [done|].
    destruct (not_supported s i Hi Hj). by apply (inv_regs _ HI i (r :: rs)). }
  induction (promises s) as [|p l IH]; [done|]. simpl.
  rewrite (Hz p) by (by apply elem_of_cons; left).
  rewrite Nat.add_0_r in IH. rewrite IH; [done|].
  intros p' Hp'. apply Hz. by apply elem_of_cons; right.
Qed.

Lemma request_during_write s id :
  Inv s -> inflight s <> [] ->
  inflight (step s (Request id)) = inflight s /\
  started (step s (Request id)) = started s /\
  chained (step s (Request id)) = S (chained s).
Proof.
  intros HI Hne. simpl.
  assert (serial (addID id s)) as Hser
    by (apply (serial_frame s); try done; apply HI).
  destruct (counted_save _ Hser) as [_ Hs].
  rewrite inflight_saveUsedIDs, started_saveUsedIDs in *. simpl in *.
  pose proof (inv_serial _ HI) as Hser'. unfold serial in Hser'.
  destruct (savingPromise s); [|done].
  change (chained (addID id s)) with (chained s) in Hs.
  repeat split; try done. lia.
Qed.

Lemma request_at_rest s id :
  Inv s -> inflight s = [] ->
  inflight (step s (Request id))
  = [(S (List.length (promises s)), Mkdir)] /\
  started (step s (Request id)) = S (started s) /\
  chained (step s (Request id)) = chained s.
Proof.
  intros HI Hi. simpl.
  assert (serial (addID id s)) as Hser
    by (apply (serial_frame s); try done; apply HI).
  destruct (counted_save _ Hser) as [_ Hs].
  rewrite inflight_saveUsedIDs, started_saveUsedIDs in *. simpl in *.
  pose proof (inv_serial _ HI) as Hser'. unfold serial in Hser'.
  change (chained (addID id s)) with (chained s) in Hs.
  destruct (savingPromise s).
  - destruct Hser' as (b & ph & Hi' & _). congruence.
  - rewrite Hi. repeat split; try done. lia.
Qed.

Lemma files_saveUsedIDs s :
  tmpFile (saveUsedIDs s).2 = tmpFile s /\
  dataFile (saveUsedIDs s).2 = dataFile s.
Proof.
  destruct (savingPromise s) as [p|] eqn:E.
  - rewrite (saveUsedIDs_chain s p E). simpl.
    unfold addReaction. simpl. by repeat case_match.
  - by rewrite (saveUsedIDs_start s E).
Qed.

Lemma write_is_full_set s b :
  Inv s -> (b, Mkdir) ∈ inflight s ->
  inflight (step s (IoDone b true)) = [(b, WriteTmp (usedIDs s))].
Proof.
  intros HI Hb. simpl. unfold ioDone.
  pose proof (inv_serial _ HI) as Hser. unfold serial in Hser.
  destruct (savingPromise s).
  - destruct Hser as (b' & ph & Hi & _). rewrite Hi in Hb |- *.
    apply list_elem_of_singleton in Hb. simplify_eq. simpl.
    rewrite bool_decide_eq_true_2 by done. simpl. rewrite Hi. csimpl.
    by rewrite decide_True.
  - rewrite Hser in Hb. by apply elem_of_nil in Hb.
Qed.

End persist_count.

(** C8, as the code has it.  In every state that the requests, the job
    queue and the completions of file operations can reach: at most one
    write body is in flight; a request that arrives while one is in flight
    starts no write and chains one more call of [saveUsedIDs], a request
    that arrives while none is in flight starts a write body, which stops
    at its first [await]; the call completes no file operation, so the
    caller does not wait for the write; the body, once the directory is
    there, writes the whole identifier set of that moment; every request
    has started a write body of its own or is still chained; and once no
    body is in flight and no job is queued, as many write bodies have been
    started as requests were made.  Chained requests are not merged: each
    of them runs a write of its own. *)
Theorem persist_requests_are_chained (s : Persist.St) (id : string) (b : nat) :
  Persist.reachable s ->
  List.length (Persist.inflight s) <= 1 /\
  (Persist.inflight s <> [] ->
   Persist.inflight (Persist.step s (Persist.Request id)) = Persist.inflight s /\
   Persist.started (Persist.step s (Persist.Request id)) = Persist.started s /\
   Persist.chained (Persist.step s (Persist.Request id))
   = S (Persist.chained s)) /\
  (Persist.inflight s = [] ->
   Persist.inflight (Persist.step s (Persist.Request id))
   = [(S (List.length (Persist.promises s)), Persist.Mkdir)] /\
   Persist.started (Persist.step s (Persist.Request id))
   = S (Persist.started s) /\
   Persist.chained (Persist.step s (Persist.Request id))
   = Persist.chained s) /\
  (Persist.tmpFile (Persist.step s (Persist.Request id)) = Persist.tmpFile s /\
   Persist.dataFile (Persist.step s (Persist.Request id))
   = Persist.dataFile s) /\
  ((b, Persist.Mkdir) ∈ Persist.inflight s ->
   Persist.inflight (Persist.step s (Persist.IoDone b true))
   = [(b, Persist.WriteTmp (Persist.usedIDs s))]) /\
  Persist.requests s = Persist.started s + Persist.chained s /\
  (Persist.inflight s = [] -> Persist.jobs s = [] ->
   Persist.requests s = Persist.started s).
Proof.
  intros Hr.
  pose proof (persist_reachable_Inv s Hr) as HI.
  pose proof (reachable_counted s Hr) as Hc.
  split; [apply serial_inflight, HI|].
  split; [by apply request_during_write|].
  split; [by apply request_at_rest|].
  split; [apply (files_saveUsedIDs (Persist.addID id s))|].
  split; [by apply write_is_full_set|].
  split; [exact Hc|].
  intros Hi Hj. unfold Persist.counted in Hc.
  rewrite (quiescent_chained s HI Hi Hj) in Hc. lia.
Qed.

Lemma persist_requests_are_chained_witness :
  let s := Persist.step (Persist.step (Persist.init []) (Persist.Request "1000"))
             Persist.Tick in
  let s' := Persist.step s (Persist.Request "1001") in
  Persist.reachable s /\ Persist.inflight s = [(1, Persist.Mkdir)] /\
  Persist.inflight s' = [(1, Persist.Mkdir)] /\
  Persist.started s' = 1 /\ Persist.chained s' = 1 /\
  Persist.requests s' = 2 /\
  Persist.inflight (Persist.step s (Persist.IoDone 1 true))
  = [(1, Persist.WriteTmp ["1000"])].
Proof.
  intros s s'.
  assert (Hr : Persist.reachable s)
    by (do 2 apply Persist.reachable_step; apply Persist.reachable_init).
  destruct (persist_requests_are_chained s "1001" 1 Hr)
    as (_ & Hbusy & _ & _ & Hfull & _ & _).
  assert (Hne : Persist.inflight s <> []) by done.
  destruct (Hbusy Hne) as (H1 & H2 & H3).
  split; [exact Hr|]. split; [reflexivity|]. split; [exact H1|].
  split; [exact H2|]. split; [exact H3|]. split; [reflexivity|].
  apply Hfull. vm_compute. apply list_elem_of_here.
Defined.

(** C8 as stated fails when two requests arrive during one write: they are
    not merged into a single further write.  Three identifiers are issued,
    the second and the third while the write for the first is in flight;
    every file operation succeeds and the job queue is drained after each
    event.  Each of the two chained requests runs a write body of its
    own: three bodies are started, two of them after the first write. *)
Lemma chained_requests_are_not_merged :
  let s1 := Persist.run (Persist.init []) (take 6 Persist.threeRequests) in
  let s := Persist.run (Persist.init []) Persist.threeRequests in
  (Persist.inflight s1 = [(1, Persist.Mkdir)] /\ Persist.jobs s1 = [] /\
   Persist.requests s1 = 3 /\ Persist.started s1 = 1 /\
   Persist.chained s1 = 2) /\
  (Persist.inflight s = [] /\ Persist.jobs s = [] /\
   Persist.requests s = 3 /\ Persist.started s = 3 /\
   Persist.dataFile s = Some ["1000"; "1001"; "1002"]).
Proof. vm_compute. repeat split. Qed.

(** X1. The offline timer's callback deletes the identifier from the map
    before [sendPlayerOffline] looks it up there: in no run from the
    initial state is a [player:offline] event written to any socket. *)
Theorem player_offline_is_never_written loaded es x q :
  player_offline q ∉ outboxOf (run (init loaded) es) x.
Proof.
  intros Hin.
  assert (Hsat : outboxes_sat notOffline (run (init loaded) es)).
  { apply notOffline_run, notOffline_reachable, reachable_init. }
  specialize (Hsat x). rewrite Forall_forall in Hsat. exact (Hsat _ Hin).
Qed.

(** ** The identifier file *)

Section persist_files.
Import Persist.

Lemma rest_addReaction s p r :
  usedIDs (addReaction p r s) = usedIDs s /\
  tmpFile (addReaction p r s) = tmpFile s /\
  dataFile (addReaction p r s) = dataFile s.
Proof. unfold addReaction. by repeat case_match. Qed.

Lemma rest_fulfil s x :
  usedIDs (fulfil x s) = usedIDs s /\
  tmpFile (fulfil x s) = tmpFile s /\
  dataFile (fulfil x s) = dataFile s.
Proof. unfold fulfil. by repeat case_match. Qed.

Lemma rest_saveUsedIDs s :
  usedIDs (saveUsedIDs s).2 = usedIDs s /\
  tmpFile (saveUsedIDs s).2 = tmpFile s /\
  dataFile (saveUsedIDs s).2 = dataFile s.
Proof.
  destruct (savingPromise s) as [p|] eqn:E.
  - rewrite (saveUsedIDs_chain s p E). simpl.
    unfold addReaction. simpl. by repeat case_match.
  - by rewrite (saveUsedIDs_start s E).
Qed.

Lemma rest_runJob j s :
  usedIDs (runJob j s) = usedIDs s /\
  tmpFile (runJob j s) = tmpFile s /\
  dataFile (runJob j s) = dataFile s.
Proof.
  destruct j as [q p|[x|x]].
  - apply rest_addReaction.
  - rewrite runJob_CallSave. apply rest_saveUsedIDs.
  - apply rest_fulfil.
Qed.

Lemma rest_tick s :
  usedIDs (step s Tick) = usedIDs s /\
  tmpFile (step s Tick) = tmpFile s /\
  dataFile (step s Tick) = dataFile s.
Proof.
  simpl. destruct (jobs s) as [|j rest]; [done|].
  apply (rest_runJob j (with_jobs (fun _ => rest) s)).
Qed.

(** The bodies in flight after an event are those before, or the one that
    the event starts. *)
Lemma inflight_runJob j s b ph :
  (b, ph) ∈ inflight (runJob j s) ->
  (b, ph) ∈ inflight s \/
  (b = S (List.length (promises s)) /\ ph = Mkdir /\ savingPromise s = None).
Proof.
  destruct j as [q p|[x|x]].
  - simpl. rewrite inflight_addReaction. by left.
  - rewrite runJob_CallSave. simpl. rewrite inflight_saveUsedIDs.
    destruct (savingPromise s); [by left|].
    rewrite elem_of_app, list_elem_of_singleton. intros [H|H]; [by left|].
    right. by simplify_eq.
  - simpl. rewrite inflight_fulfil. by left.
Qed.

Lemma usedIDs_addID id s : usedIDs s `prefix_of` usedIDs (addID id s).
Proof.
  simpl. case_bool_decide; [done|]. by apply prefix_app_r.
Qed.

Lemma snapshots_grow s s' :
  usedIDs s `prefix_of` usedIDs s' -> tmpFile s' = tmpFile s ->
  dataFile s' = dataFile s ->
  (forall b ph, (b, ph) ∈ inflight s' -> (b, ph) ∈ inflight s \/ ph = Mkdir) ->
  snapshots s -> snapshots s'.
Proof.
  intros Hu Ht Hd Hi (S1 & S2 & S3). unfold snapshots. rewrite Ht, Hd.
  split; [|split].
  - intros d H. etrans; [by apply S1|done].
  - intros d H. etrans; [by apply S2|done].
  - intros b ph d H Hph. destruct (Hi _ _ H) as [H'| ->]; [|done].
    etrans; [by eapply S3|done].
Qed.

Lemma snapshots_setPhase s b ph :
  (forall d, dataOf ph = Some d -> d `prefix_of` usedIDs s) ->
  snapshots s -> snapshots (setPhase b ph s).
Proof.
  intros Hph (S1 & S2 & S3). split; [done|]. split; [done|].
  intros b' ph' d H Hd. simpl in H.
  apply list_elem_of_fmap in H as ([b0 ph0] & Heq & H0).
  case_decide; simplify_eq/=; eauto.
Qed.

Lemma snapshots_finish s b : snapshots s -> snapshots (finish b s).
Proof.
  intros (S1 & S2 & S3). unfold finish.
  destruct (rest_fulfil (with_savingPromise None
              (with_inflight (filter (fun e => e.1 ≠ b)) s)) b)
    as (Hu & Ht & Hd).
  unfold snapshots. rewrite Hu, Ht, Hd, inflight_fulfil. simpl.
  split; [done|]. split; [done|].
  intros b' ph d H. apply list_elem_of_filter in H as [_ H]. by eapply S3.
Qed.

Lemma snapshots_files s t d :
  (forall x, t = Some x -> x `prefix_of` usedIDs s) ->
  (forall x, d = Some x -> x `prefix_of` usedIDs s) ->
  snapshots s -> snapshots (with_files t d s).
Proof. intros Ht Hd (S1 & S2 & S3). split; [done|]. split; done. Qed.

Lemma snapshots_ioDone s b ok : snapshots s -> snapshots (ioDone b ok s).
Proof.
  intros HS. pose proof HS as (S1 & S2 & S3). unfold ioDone.
  destruct (List.find _ (inflight s)) as [[b' ph]|] eqn:E; [|done].
  apply find_inflight in E as [Hin Hb]. simpl in Hb. subst b'.
  assert (forall d, dataOf ph = Some d -> d `prefix_of` usedIDs s) as Hd
    by (intros d; by apply (S3 b)).
  destruct ph, ok; simpl in Hd.
  - apply snapshots_setPhase; [|done]. by intros d [= <-].
  - by apply snapshots_finish.
  - apply snapshots_setPhase; [done|].
    apply snapshots_files; [|done|done]. intros x [= <-]. by apply Hd.
  - apply snapshots_setPhase; [|done]. by intros d [= <-].
  - apply snapshots_finish.
    apply snapshots_files; [done| |done]. intros x [= <-]. by apply Hd.
  - by apply snapshots_finish.
  - destruct (tmpFile s) as [d|] eqn:Et; [|by apply snapshots_finish].
    apply snapshots_finish.
    apply snapshots_files; [done| |done]. intros x [= <-]. by apply S1.
  - apply snapshots_setPhase; [|done]. by intros d [= <-].
  - apply snapshots_setPhase; [done|].
    apply snapshots_files; [done| |done]. intros x [= <-]. by apply Hd.
  - by apply snapshots_finish.
  - apply snapshots_finish. by apply snapshots_files.
  - by apply snapshots_finish.
Qed.

Lemma snapshots_step s e : snapshots s -> snapshots (step s e).
Proof.
  intros HS. destruct e as [id| |b ok].
  - simpl. destruct (rest_saveUsedIDs (addID id s)) as (Hu & Ht & Hd).
    apply (snapshots_grow s); rewrite ?Hu, ?Ht, ?Hd; try done.
    + apply usedIDs_addID.
    + intros b ph. rewrite inflight_saveUsedIDs.
      destruct (savingPromise (addID id s)); [by left|].
      rewrite elem_of_app, list_elem_of_singleton. intros [H|H]; [by left|].
      right. by simplify_eq.
  - destruct (rest_tick s) as (Hu & Ht & Hd).
    apply (snapshots_grow s); rewrite ?Hu, ?Ht, ?Hd; try done.
    simpl. destruct (jobs s) as [|j rest]; [by left|].
    intros b ph H. apply inflight_runJob in H as [H|(_ & -> & _)]; [by left|by right].
  - by apply snapshots_ioDone.
Qed.

End persist_files.

(** X2. Whatever the identifier file or its temporary file holds, and
    whatever a write under way is writing, is the list that the used set
    held at an earlier moment: an initial segment of the current list.  So
    the file never holds an identifier that is not in the set, whatever
    the outcomes of the file operations. *)
Theorem file_holds_a_snapshot (s : Persist.St) :
  Persist.reachable s ->
  (forall d, Persist.dataFile s = Some d -> d `prefix_of` Persist.usedIDs s) /\
  (forall d, Persist.tmpFile s = Some d -> d `prefix_of` Persist.usedIDs s) /\
  (forall b ph d, (b, ph) ∈ Persist.inflight s -> dataOf ph = Some d ->
                  d `prefix_of` Persist.usedIDs s).
Proof.
  intros Hr.
  assert (snapshots s) as (S1 & S2 & S3).
  { induction Hr as [loaded|s e _ IH]; [|by apply snapshots_step].
    split; [done|]. split; [done|]. intros b ph d H. by apply elem_of_nil in H. }
  done.
Qed.

Lemma file_holds_a_snapshot_witness :
  let s := Persist.run (Persist.init ["0999"])
             ([Persist.Request "1000"; Persist.Tick]
              ++ Persist.writeSucceeds 1
              ++ [Persist.Request "1001"]) in
  Persist.reachable s /\
  Persist.dataFile s = Some ["0999"; "1000"] /\
  Persist.usedIDs s = ["0999"; "1000"; "1001"] /\
  ["0999"; "1000"] `prefix_of` Persist.usedIDs s.
Proof.
  intros s.
  assert (Hr : Persist.reachable s)
    by (do 6 apply Persist.reachable_step; apply Persist.reachable_init).
  split; [exact Hr|]. split; [reflexivity|]. split; [reflexivity|].
  exact (proj1 (file_holds_a_snapshot s Hr) _ eq_refl).
Defined.

Section persist_track.
Import Persist.

Lemma requests_tick s : requests (step s Tick) = requests s.
Proof.
  simpl. destruct (jobs s) as [|[q p|[x|x]] rest]; [done|..].
  - unfold runJob. by rewrite requests_addReaction.
  - rewrite runJob_CallSave. simpl. by rewrite requests_saveUsedIDs.
  - unfold runJob. by rewrite requests_fulfil.
Qed.

(** A tick leaves the bodies in flight and the chained calls as they are,
    or starts the write of a chained call while none is in flight. *)
Lemma tick_effect s :
  Inv s -> counted s ->
  (inflight (step s Tick) = inflight s /\
   chained (step s Tick) = chained s) \/
  (inflight s = [] /\ exists b, inflight (step s Tick) = [(b, Mkdir)]).
Proof.
  intros HI Hc.
  pose proof (counted_step s Tick HI Hc) as Hc'.
  pose proof (requests_tick s) as Hr.
  unfold counted in *. revert Hc' Hr. simpl.
  destruct (jobs s) as [|[q p|[x|x]] rest] eqn:E; intros Hc' Hr.
  - by left.
  - left. unfold runJob in *.
    rewrite started_addReaction in Hc'. rewrite inflight_addReaction.
    simpl in *. split; [done|lia].
  - rewrite runJob_CallSave in *. simpl in *.
    rewrite started_saveUsedIDs in Hc'. rewrite inflight_saveUsedIDs.
    simpl in *. pose proof (inv_serial _ HI) as Hser. unfold serial in Hser.
    destruct (savingPromise s).
    + left. split; [done|lia].
    + right. rewrite Hser. split; [done|]. by eexists.
  - left. unfold runJob in *.
    rewrite started_fulfil in Hc'. rewrite inflight_fulfil.
    simpl in *. split; [done|lia].
Qed.

Lemma onTrack_started s b :
  inflight s = [(b, Mkdir)] -> onTrack s.
Proof.
  intros Hi. split; rewrite Hi.
  - intros b' ph H. apply list_elem_of_singleton in H. left. by simplify_eq.
  - intros b' d H. apply list_elem_of_singleton in H. by simplify_eq.
  - intros b' H. apply list_elem_of_singleton in H. by simplify_eq.
  - done.
Qed.

Lemma onTrack_busy s s' :
  inflight s <> [] -> inflight s' = inflight s -> tmpFile s' = tmpFile s ->
  0 < chained s' -> onTrack s -> onTrack s'.
Proof.
  intros Hne Hi Ht Hc [T1 T2 T3 T4]. split; rewrite Hi.
  - done.
  - intros b d H. by right.
  - intros b H. destruct (T3 _ H) as (d & Hd & _). exists d.
    split; [by rewrite Ht|by right].
  - done.
Qed.

Lemma onTrack_same s s' :
  inflight s' = inflight s -> tmpFile s' = tmpFile s ->
  dataFile s' = dataFile s -> usedIDs s' = usedIDs s ->
  chained s' = chained s -> requests s' = requests s ->
  onTrack s -> onTrack s'.
Proof.
  intros Hi Ht Hd Hu Hc Hr [T1 T2 T3 T4].
  assert (forall d, upToDate s d -> upToDate s' d) as Hup
    by (intros d; unfold upToDate; by rewrite Hu, Hc).
  split; rewrite Hi.
  - done.
  - intros b d H. apply Hup. by eapply T2.
  - intros b H. destruct (T3 _ H) as (d & Hd' & Hd''). exists d.
    split; [by rewrite Ht|by apply Hup].
  - intros H. rewrite Hr, Ht, Hd. destruct (T4 H) as [|(? & d & ? & ?)];
      [by left|right]. split; [done|]. exists d. split; [done|by apply Hup].
Qed.

Lemma onTrack_request s id :
  Inv s -> onTrack s -> onTrack (step s (Request id)).
Proof.
  intros HI HT.
  destruct (rest_saveUsedIDs (addID id s)) as (_ & Ht & _).
  destruct (decide (inflight s = [])) as [Hi|Hi].
  - destruct (request_at_rest s id HI Hi) as (Hi' & _). by eapply onTrack_started.
  - destruct (request_during_write s id HI Hi) as (Hi' & _ & Hc).
    apply (onTrack_busy s); try done. lia.
Qed.

Lemma onTrack_tick s :
  Inv s -> counted s -> onTrack s -> onTrack (step s Tick).
Proof.
  intros HI Hc HT. destruct (rest_tick s) as (Hu & Ht & Hd).
  destruct (tick_effect s HI Hc) as [[Hi Hch]|(_ & b & Hi)].
  - apply (onTrack_same s); try done. apply requests_tick.
  - by eapply onTrack_started.
Qed.

Lemma onTrack_ioDone s b :
  Inv s -> onTrack s -> onTrack (step s (IoDone b true)).
Proof.
  intros HI HT. simpl. unfold ioDone.
  destruct (List.find _ (inflight s)) as [[b' ph]|] eqn:E; [|done].
  apply find_inflight in E as [Hin Hb]. simpl in Hb. subst b'.
  assert (inflight s = [(b, ph)]) as Hi.
  { pose proof (inv_serial _ HI) as Hser. unfold serial in Hser.
    destruct (savingPromise s).
    - destruct Hser as (b' & ph' & Hi & _). rewrite Hi in Hin |- *.
      apply list_elem_of_singleton in Hin. by rewrite Hin.
    - rewrite Hser in Hin. by apply elem_of_nil in Hin. }
  destruct HT as [T1 T2 T3 T4].
  destruct (T1 _ _ Hin) as [->|[[d ->]| ->]].
  - split; simpl; rewrite Hi; csimpl; rewrite decide_True by done.
    + intros b' ph H. apply list_elem_of_singleton in H. simplify_eq. eauto.
    + intros b' d H. apply list_elem_of_singleton in H. simplify_eq. by left.
    + intros b' H. apply list_elem_of_singleton in H. by simplify_eq.
    + done.
  - pose proof (T2 _ _ Hin) as Hup.
    split; simpl; rewrite Hi; csimpl; rewrite decide_True by done.
    + intros b' ph H. apply list_elem_of_singleton in H. simplify_eq. eauto.
    + intros b' d' H. apply list_elem_of_singleton in H. by simplify_eq.
    + intros b' H. exists d. done.
    + done.
  - destruct (T3 _ Hin) as (d & Ht & Hup). rewrite Ht.
    set (s0 := with_files None (Some d) s).
    destruct (rest_fulfil (with_savingPromise None
                (with_inflight (filter (fun e => e.1 ≠ b)) s0)) b)
      as (Hu' & Ht' & Hd').
    destruct (counted_finish s0 b) as (Hr & _ & Hc).
    assert (inflight (finish b s0) = []) as Hi'.
    { unfold finish. rewrite inflight_fulfil. simpl. rewrite Hi.
      rewrite filter_cons_False by (simpl; intros H; by apply H). done. }
    split; rewrite Hi'.
    + intros b' ph H. by apply elem_of_nil in H.
    + intros b' d' H. by apply elem_of_nil in H.
    + intros b' H. by apply elem_of_nil in H.
    + intros _. right. unfold finish. rewrite Ht', Hd'. simpl.
      split; [done|]. exists d. split; [done|].
      unfold upToDate in *. fold (finish b s0). rewrite Hc.
      unfold finish. rewrite Hu'. exact Hup.
Qed.

Lemma onTrack_run es s :
  Inv s -> counted s -> onTrack s -> forallb succeeds es = true ->
  Inv (run s es) /\ counted (run s es) /\ onTrack (run s es).
Proof.
  revert s. induction es as [|e es IH]; intros s HI Hc HT Hok; [done|].
  simpl in Hok. apply andb_prop in Hok as [He Hes]. simpl.
  apply IH; try done.
  - by apply persist_Inv_step.
  - by apply counted_step.
  - destruct e as [id| |b ok].
    + by apply onTrack_request.
    + by apply onTrack_tick.
    + simpl in He. subst ok. by apply onTrack_ioDone.
Qed.

End persist_track.

(** X3. While no file operation fails, the latest state is persisted:
    once a run with at least one request has come to rest (no write body in
    flight, no job queued), the identifier file holds exactly the current
    identifier list and the temporary file is gone. *)
Theorem latest_set_reaches_the_file (loaded : list string)
    (es : list Persist.Event) :
  forallb succeeds es = true ->
  Persist.inflight (Persist.run (Persist.init loaded) es) = [] ->
  Persist.jobs (Persist.run (Persist.init loaded) es) = [] ->
  0 < Persist.requests (Persist.run (Persist.init loaded) es) ->
  Persist.dataFile (Persist.run (Persist.init loaded) es)
  = Some (Persist.usedIDs (Persist.run (Persist.init loaded) es)) /\
  Persist.tmpFile (Persist.run (Persist.init loaded) es) = None.
Proof.
  intros Hok Hi Hj Hr.
  destruct (onTrack_run es (Persist.init loaded)) as (HI & Hc & HT);
    try done.
  - apply persist_Inv_init.
  - split.
    + intros b ph H. by apply elem_of_nil in H.
    + intros b d H. by apply elem_of_nil in H.
    + intros b H. by apply elem_of_nil in H.
    + intros _. by left.
  - pose proof (quiescent_chained _ HI Hi Hj) as Hz.
    destruct (track_rest _ HT Hi) as [H0|(Ht & d & Hd & [->|Hup])].
    + lia.
    + done.
    + lia.
Qed.

Lemma latest_set_reaches_the_file_witness :
  let s := Persist.run (Persist.init ["0999"]) Persist.threeRequests in
  Persist.dataFile s = Some ["0999"; "1000"; "1001"; "1002"] /\
  Persist.tmpFile s = None.
Proof.
  intros s.
  destruct (latest_set_reaches_the_file ["0999"] Persist.threeRequests)
    as [Hd Ht]; try reflexivity.
  - vm_compute. lia.
  - split; [exact Hd|exact Ht].
Defined.

Section persist_progress.
Import Persist.

Lemma length_promises_step s e :
  List.length (promises s) <= List.length (promises (step s e)).
Proof.
  assert (forall t, List.length (promises t)
                    <= List.length (promises (saveUsedIDs t).2)) as Hsave.
  { intros t. destruct (savingPromise t) as [p|] eqn:E.
    - rewrite (saveUsedIDs_chain t p E). simpl.
      rewrite length_addReaction. simpl. rewrite !length_app. lia.
    - rewrite (saveUsedIDs_start t E). simpl. rewrite !length_app. lia. }
  destruct e as [id| |b ok]; simpl.
  - apply (Hsave (addID id s)).
  - destruct (jobs s) as [|[q p|[x|x]] rest]; [done|..].
    + unfold runJob. by rewrite length_addReaction.
    + rewrite runJob_CallSave. apply (Hsave (with_jobs (fun _ => rest) s)).
    + unfold runJob. by rewrite length_fulfil.
  - unfold ioDone. destruct (List.find _ _) as [[b' ph]|]; [|done].
    destruct ph, ok; try destruct (tmpFile s); simpl;
      unfold finish; rewrite ?length_fulfil; done.
Qed.

Lemma inflight_singleton s b ph :
  Inv s -> (b, ph) ∈ inflight s ->
  inflight s = [(b, ph)] /\ b < List.length (promises s).
Proof.
  intros HI Hin. pose proof (inv_serial _ HI) as Hser. unfold serial in Hser.
  destruct (savingPromise s).
  - destruct Hser as (b' & ph' & Hi & Hc). rewrite Hi in Hin |- *.
    apply list_elem_of_singleton in Hin. simplify_eq. split; [done|].
    assert (exists rs, promises s !! b' = Some (Pending rs)) as [rs Hrs]
      by (clear Hi; induction Hc; eauto).
    by eapply lookup_lt_Some.
  - rewrite Hser in Hin. by apply elem_of_nil in Hin.
Qed.

(** Only a completion for [b] moves the body [b]. *)
Lemma body_stays s b ph e :
  Inv s -> (b, ph) ∈ inflight s ->
  (forall ok, e <> IoDone b ok) -> (b, ph) ∈ inflight (step s e).
Proof.
  intros HI Hin He. destruct (inflight_singleton s b ph HI Hin) as [Hi _].
  destruct e as [id| |b' ok].
  - simpl. rewrite inflight_saveUsedIDs.
    destruct (savingPromise (addID id s)); [done|].
    apply elem_of_app. by left.
  - simpl. destruct (jobs s) as [|[q p|[x|x]] rest]; [done|..].
    + unfold runJob. by rewrite inflight_addReaction.
    + rewrite runJob_CallSave. simpl. rewrite inflight_saveUsedIDs.
      destruct (savingPromise _); [done|]. apply elem_of_app. by left.
    + unfold runJob. by rewrite inflight_fulfil.
  - simpl. unfold ioDone. rewrite Hi. simpl.
    rewrite bool_decide_eq_false_2; [exact Hin|].
    intros ->. by destruct (He ok).
Qed.

(** A body that has ended does not come back. *)
Lemma body_gone s b e :
  b < List.length (promises s) ->
  (forall ph, (b, ph) ∉ inflight s) ->
  forall ph, (b, ph) ∉ inflight (step s e).
Proof.
  intros Hb Hgone ph Hin. destruct e as [id| |b' ok].
  - simpl in Hin. rewrite inflight_saveUsedIDs in Hin.
    destruct (savingPromise (addID id s)); [by destruct (Hgone ph)|].
    apply elem_of_app in Hin as [Hin|Hin]; [by destruct (Hgone ph)|].
    apply list_elem_of_singleton in Hin. simplify_eq/=. lia.
  - simpl in Hin. destruct (jobs s) as [|j rest]; [by destruct (Hgone ph)|].
    apply inflight_runJob in Hin as [Hin|(-> & _)];
      [by destruct (Hgone ph)|]. simpl in Hb. lia.
  - simpl in Hin. unfold ioDone in Hin.
    assert (forall t d p, (b, ph) ∈ inflight (setPhase b' p (with_files t d s))
                          -> False) as Hset.
    { intros t d p H. simpl in H.
      apply list_elem_of_fmap in H as ([b0 ph0] & Heq & H0).
      case_decide; simplify_eq/=; by destruct (Hgone ph0). }
    assert (forall t d, (b, ph) ∈ inflight (finish b' (with_files t d s))
                        -> False) as Hfin.
    { intros t d H. unfold finish in H. rewrite inflight_fulfil in H.
      simpl in H. apply list_elem_of_filter in H as [_ H].
      by destruct (Hgone ph). }
    assert (forall p, (b, ph) ∈ inflight (setPhase b' p s) -> False) as Hset'.
    { intros p H. simpl in H.
      apply list_elem_of_fmap in H as ([b0 ph0] & Heq & H0).
      case_decide; simplify_eq/=; by destruct (Hgone ph0). }
    assert ((b, ph) ∈ inflight (finish b' s) -> False) as Hfin'.
    { intros H. unfold finish in H. rewrite inflight_fulfil in H.
      simpl in H. apply list_elem_of_filter in H as [_ H].
      by destruct (Hgone ph). }
    destruct (List.find _ _) as [[b0 ph0]|]; [|by destruct (Hgone ph)].
    destruct ph0, ok; try destruct (tmpFile s); eauto.
Qed.

(** A completion for [b] ends the body or leaves it with fewer operations
    to await. *)
Lemma body_moves s b ph ok :
  Inv s -> (b, ph) ∈ inflight s ->
  (forall ph', (b, ph') ∉ inflight (step s (IoDone b ok))) \/
  exists ph', (b, ph') ∈ inflight (step s (IoDone b ok)) /\
              remaining ph' < remaining ph.
Proof.
  intros HI Hin. destruct (inflight_singleton s b ph HI Hin) as [Hi _].
  assert (forall s0, inflight s0 = [(b, ph)] ->
                     forall ph', (b, ph') ∉ inflight (finish b s0)) as Hfin.
  { intros s0 Hi0 ph' H. unfold finish in H. rewrite inflight_fulfil in H.
    simpl in H. rewrite Hi0 in H.
    rewrite filter_cons_False in H by (simpl; intros H'; by apply H').
    by apply elem_of_nil in H. }
  assert (forall s0 p, inflight s0 = [(b, ph)] ->
                       (b, p) ∈ inflight (setPhase b p s0)) as Hset.
  { intros s0 p Hi0. simpl. rewrite Hi0. csimpl.
    rewrite decide_True by done. by apply list_elem_of_singleton. }
  simpl. unfold ioDone. rewrite Hi. simpl.
  rewrite bool_decide_eq_true_2 by done.
  destruct ph, ok; try destruct (tmpFile s);
    first [ left; by apply Hfin
          | right; eexists; split; [by apply Hset|simpl; lia] ].
Qed.

Lemma body_ends es s b ph :
  Inv s -> (b, ph) ∈ inflight s -> remaining ph <= completions b es ->
  forall ph', (b, ph') ∉ inflight (run s es).
Proof.
  assert (forall es s, Inv s -> b < List.length (promises s) ->
            (forall ph, (b, ph) ∉ inflight s) ->
            forall ph', (b, ph') ∉ inflight (run s es)) as Hgone.
  { clear. intros es. induction es as [|e es IH]; intros s HI Hb Hg; [done|].
    simpl. apply IH.
    - by apply persist_Inv_step.
    - pose proof (length_promises_step s e). lia.
    - by apply body_gone. }
  revert s ph. induction es as [|e es IH]; intros s ph HI Hin Hrem.
  - unfold completions in Hrem. simpl in Hrem. destruct ph; simpl in Hrem; lia.
  - destruct (inflight_singleton s b ph HI Hin) as [_ Hb].
    pose proof (persist_Inv_step s e HI) as HI'.
    pose proof (length_promises_step s e) as Hlen.
    assert ((exists ok, e = IoDone b ok) \/ ~ (exists ok, e = IoDone b ok))
      as [[ok ->]|Hne].
    { destruct e as [id| |b' ok]; try (right; by intros [? ?]).
      destruct (decide (b' = b)) as [->|Hb']; [left; by exists ok|].
      right. intros [? ?]. congruence. }
    + unfold completions in Hrem. simpl in Hrem.
      rewrite bool_decide_eq_true_2 in Hrem by done. simpl in Hrem.
      destruct (body_moves s b ph ok HI Hin) as [Hg|(ph1 & Hin1 & Hlt)].
      * change (run s (IoDone b ok :: es))
          with (run (step s (IoDone b ok)) es).
        apply Hgone; [done|lia|done].
      * change (run s (IoDone b ok :: es))
          with (run (step s (IoDone b ok)) es).
        apply (IH _ ph1); [done|done|]. unfold completions. lia.
    + change (run s (e :: es)) with (run (step s e) es).
      apply (IH _ ph); [done| |].
      * apply body_stays; [done|done|]. intros ok ->. apply Hne. by exists ok.
      * unfold completions in *. simpl in Hrem.
        destruct e as [id| |b' ok]; try done.
        case_bool_decide; [|done]. subst b'. destruct Hne. by exists ok.
Qed.

End persist_progress.

(** X4. A write body cannot hold the write forever: whatever the outcomes
    of the file operations and whatever requests and jobs come in between,
    the body is over once as many of its operations have completed as it
    can still await from its phase on, five at most (the [finally] clause
    is reached on every path). *)
Theorem write_body_ends (s : Persist.St) (b : nat) (ph : Persist.Phase)
    (es : list Persist.Event) :
  Persist.reachable s -> (b, ph) ∈ Persist.inflight s ->
  remaining ph <= completions b es ->
  remaining ph <= 5 /\
  forall ph', (b, ph') ∉ Persist.inflight (Persist.run s es).
Proof.
  intros Hr Hin Hrem. split; [destruct ph; simpl; lia|].
  apply (body_ends es s b ph); try done. by apply persist_reachable_Inv.
Qed.

Lemma write_body_ends_witness :
  let s := Persist.step (Persist.init []) (Persist.Request "1000") in
  let es := [Persist.IoDone 1 true; Persist.Tick; Persist.IoDone 1 true;
             Persist.Request "1001"; Persist.IoDone 1 false;
             Persist.IoDone 1 true; Persist.IoDone 1 false] in
  Persist.reachable s /\ (1, Persist.Mkdir) ∈ Persist.inflight s /\
  forall ph', (1, ph') ∉ Persist.inflight (Persist.run s es).
Proof.
  intros s es.
  assert (Hr : Persist.reachable s)
    by (apply Persist.reachable_step, Persist.reachable_init).
  assert (Hin : (1, Persist.Mkdir) ∈ Persist.inflight s)
    by (vm_compute; apply list_elem_of_here).
  split; [exact Hr|]. split; [exact Hin|].
  apply (write_body_ends s 1 Persist.Mkdir es Hr Hin). vm_compute. lia.
Defined.

(** ** The used set along a run *)

Lemma used_socket_send w e s :
  usedPlayerIDs (socket_send w e s) = usedPlayerIDs s.
Proof. apply (sends_only_socket_send w e s). Qed.

Lemma used_send pid e s : usedPlayerIDs (send pid e s) = usedPlayerIDs s.
Proof. apply (sends_only_send pid e s). Qed.

Lemma used_sendPlayerOnline now pid s :
  usedPlayerIDs (sendPlayerOnline now pid s) = usedPlayerIDs s.
Proof. apply (sends_only_sendPlayerOnline now pid s). Qed.

Lemma used_resumeOpponent w pid s :
  usedPlayerIDs (resumeOpponent w pid s) = usedPlayerIDs s.
Proof. apply (sends_only_resumeOpponent w pid s). Qed.

Lemma used_forwardToOpponent cur p e s :
  usedPlayerIDs (forwardToOpponent cur p e s) = usedPlayerIDs s.
Proof.
  unfold forwardToOpponent. repeat case_match; rewrite ?used_send; done.
Qed.

(** What a message does to the identifier map and to the used set: nothing
    to the map, or the sender is registered under an identifier that the
    used set then holds. *)
Lemma registry_handleMessage w now rnd m s :
  (clients (handleMessage w now rnd m s) = clients s /\
   usedPlayerIDs (handleMessage w now rnd m s) = usedPlayerIDs s) \/
  exists pid, JS.is4digit pid = true /\
    clients (handleMessage w now rnd m s) = OMap.set pid w (clients s) /\
    usedPlayerIDs (handleMessage w now rnd m s) = {[pid]} ∪ usedPlayerIDs s.
Proof.
  unfold handleMessage. case_bool_decide as Hw; [|by left].
  destruct (clientOf s w) as [c|]; [|by left].
  dispatch_type.
  { unfold handleRequestID.
    destruct (generateUniquePlayerID rnd s) as [[pid s1]|] eqn:Hg; [|by left].
    apply generateUniquePlayerID_fresh in Hg as (_ & Hc & H4 & ->).
    right. exists pid. split; [done|].
    rewrite used_sendPlayerOnline, used_socket_send.
    change (clients ?t) with (k_clients (skel t)).
    rewrite skel_sendPlayerOnline, skel_socket_send.
    unfold closePrevious. simpl. rewrite Hc. done. }
  dispatch_type.
  { unfold handleReconnect.
    destruct (JS.truthy (field p_playerID (payload m))) as [pid|] eqn:Hp;
      [|left; rewrite used_socket_send;
        change (clients ?t) with (k_clients (skel t));
        by rewrite skel_socket_send].
    destruct (JS.is4digit pid) eqn:H4;
      [|left; rewrite used_socket_send;
        change (clients ?t) with (k_clients (skel t));
        by rewrite skel_socket_send].
    right. exists pid. split; [done|].
    rewrite used_resumeOpponent, used_sendPlayerOnline, used_socket_send.
    change (clients ?t) with (k_clients (skel t)).
    rewrite skel_resumeOpponent, skel_sendPlayerOnline, skel_socket_send.
    simpl. destruct (closePrevious_quiet w pid (cancelOffline pid s))
      as (Hu & _). rewrite Hu.
    destruct (cancelOffline_quiet pid s) as (Hu' & _). rewrite Hu'.
    split; [|done]. f_equal.
    change (k_clients (skel (closePrevious w pid (cancelOffline pid s)))
            = clients s).
    rewrite skel_closePrevious, skel_cancelOffline.
    unfold kClosePrevious, kCancel. by repeat case_match. }
  left. split.
  - change (clients ?t) with (k_clients (skel t)).
    f_equal. repeat dispatch_type;
      first
        [ done | apply skel_handleUpdateName | apply skel_handleStateUpdate
        | apply skel_update_client_location | apply skel_handleGameStart
        | apply skel_handleScoreUpdate | apply skel_handleApplyBrisks
        | apply skel_handleOpponentUndo | apply skel_forwardToOpponent
        | apply skel_send | apply skel_handleSearch ].
  - repeat dispatch_type; try done.
    + unfold handleUpdateName. repeat case_match; rewrite ?used_send; done.
    + unfold handleStateUpdate. by repeat case_match.
    + unfold handleGameStart.
      repeat case_match; rewrite ?used_send, ?used_socket_send; done.
    + unfold handleScoreUpdate. repeat case_match; rewrite ?used_send; done.
    + unfold handleApplyBrisks. destruct (payload m); [|done].
      apply used_forwardToOpponent.
    + unfold handleOpponentUndo. destruct (payload m); [|done].
      apply used_forwardToOpponent.
    + apply used_forwardToOpponent.
    + apply used_send.
    + unfold handleSearch. repeat case_match; rewrite ?used_send; done.
Qed.

(** What an event does to the map and the set. *)
Lemma registry_step s e :
  usedPlayerIDs s ⊆ usedPlayerIDs (step s e) /\
  forall pid w, OMap.get pid (clients (step s e)) = Some w ->
    OMap.get pid (clients s) = Some w \/
    (JS.is4digit pid = true /\ pid ∈ usedPlayerIDs (step s e)).
Proof.
  destruct e as [now rnd|w now rnd m|w now|timer now]; simpl.
  - unfold onConnection. rewrite used_socket_send.
    change (clients (socket_send ?a ?b ?t)) with (k_clients (skel (socket_send a b t))).
    rewrite skel_socket_send. simpl. split; [done|]. by left.
  - destruct (registry_handleMessage w now rnd m s)
      as [[-> ->]|(pid & H4 & -> & ->)].
    + split; [done|]. by left.
    + split; [set_solver|]. intros pid' w' H.
      destruct (decide (pid' = pid)) as [->|Hne].
      * right. split; [done|set_solver].
      * left. by rewrite omap_get_set_ne in H.
  - change (clients (onClose w now s)) with (k_clients (skel (onClose w now s))).
    rewrite skel_onClose.
    assert (usedPlayerIDs (onClose w now s) = usedPlayerIDs s) as ->.
    { unfold onClose. repeat case_match; try done;
        unfold closeHandler; repeat case_match; done. }
    split; [done|]. intros pid w' H. left. revert H.
    unfold kOnClose, kCloseHandler, kAlter, kUntrack, kSchedule.
    repeat case_match; simpl; done.
  - unfold onTimeout. destruct (timers s !! timer) as [[pid due]|];
      [|split; [done|by left]].
    destruct (due <=? now)%Z; [|split; [done|by left]].
    rewrite offlineExpired_silent. simpl. split; [done|].
    intros pid' w' H. left.
    destruct (decide (pid' = pid)) as [->|Hne].
    + by rewrite omap_get_delete_eq in H.
    + by rewrite omap_get_delete_ne in H.
Qed.

Lemma used_run s es : usedPlayerIDs s ⊆ usedPlayerIDs (run s es).
Proof.
  revert s. induction es as [|e es IH]; intros s; [done|].
  simpl. etrans; [apply (registry_step s e)|apply IH].
Qed.

(** X5. Identifiers are never released: the used set only grows along a
    run, so an identifier that was ever allocated or accepted on a
    reconnect is not returned by any later allocation, also after its
    session has gone offline. *)
Theorem allocation_never_repeats (s : State) (es : list Event)
    (rnd : nat -> N) (pid pid' : string) (s' : State) :
  pid ∈ usedPlayerIDs s ->
  generateUniquePlayerID rnd (run s es) = Some (pid', s') ->
  pid ∈ usedPlayerIDs (run s es) /\ pid' <> pid /\ pid ∈ usedPlayerIDs s'.
Proof.
  intros Hin Hg.
  assert (pid ∈ usedPlayerIDs (run s es)) as Hin' by (by apply used_run).
  apply generateUniquePlayerID_fresh in Hg as (Hfresh & _ & _ & ->).
  split; [done|]. split; [by intros ->|]. simpl. set_solver.
Qed.

Lemma allocation_never_repeats_witness :
  let s := run (init ∅)
             [Connection 5 "0.1";
              Receive 0 1700000000000 (fun _ => 0%N)
                (msg "player:request_id" emptyPayload)] in
  let es := [Close 0 1700000001000; Timeout 0 1700000003000;
             Connection 6 "0.2"] in
  "1000" ∈ usedPlayerIDs s /\
  OMap.get "1000" (clients (run s es)) = None /\
  exists s', generateUniquePlayerID (fun i => N.of_nat i) (run s es)
             = Some ("1001", s') /\ "1000" ∈ usedPlayerIDs s'.
Proof.
  intros s es.
  assert (Hin : "1000" ∈ usedPlayerIDs s)
    by (apply (bool_decide_unpack _); vm_compute; exact I).
  split; [exact Hin|]. split; [vm_compute; reflexivity|].
  destruct (generateUniquePlayerID (fun i => N.of_nat i) (run s es))
    as [[p s']|] eqn:Hg; [|vm_compute in Hg; discriminate Hg].
  assert (p = "1001") as -> by (vm_compute in Hg; congruence).
  exists s'. split; [reflexivity|].
  exact (proj2 (proj2 (allocation_never_repeats s es _ "1000" "1001" s' Hin Hg))).
Defined.

(** ** The allocation loop *)

Lemma generateLoop_all_taken rnd s fuel a :
  (forall j, a <= j -> j < 1000 -> taken s (draw rnd j) = true) ->
  generateLoop rnd s a fuel = None.
Proof.
  revert a. induction fuel as [|fuel IH]; intros a Ht; simpl.
  - destruct (Nat.ltb_spec 1000 (S a)); [done|].
    fold (draw rnd a). by rewrite Ht by lia.
  - destruct (Nat.ltb_spec 1000 (S a)); [done|].
    fold (draw rnd a). rewrite Ht by lia. apply IH. intros j ? ?. apply Ht; lia.
Qed.

Lemma generateLoop_first_free rnd s fuel a i :
  a <= i -> i < 1000 -> i - a <= fuel ->
  (forall j, a <= j -> j < i -> taken s (draw rnd j) = true) ->
  taken s (draw rnd i) = false ->
  generateLoop rnd s a fuel = Some (draw rnd i).
Proof.
  revert a. induction fuel as [|fuel IH]; intros a Ha Hi Hf Ht Hfree.
  - assert (a = i) as -> by lia. simpl.
    destruct (Nat.ltb_spec 1000 (S i)); [lia|].
    fold (draw rnd i). by rewrite Hfree.
  - simpl. destruct (Nat.ltb_spec 1000 (S a)); [lia|].
    fold (draw rnd a). destruct (decide (a = i)) as [->|Hne].
    + by rewrite Hfree.
    + rewrite Ht by lia. apply IH; try lia; [|done].
      intros j ? ?. apply Ht; lia.
Qed.

Lemma request_id_fails w now rnd p s :
  generateUniquePlayerID rnd s = None ->
  handleMessage w now rnd {| type := "player:request_id"; payload := p |} s = s.
Proof.
  intros Hg. unfold handleMessage. simpl.
  destruct (bool_decide _); [|done]. destruct (clientOf s w); [|done].
  unfold handleRequestID. by rewrite Hg.
Qed.

(** X6. The allocation loop returns the first of its first 1000 draws that
    is neither in the used set nor registered, and adds it to the used
    set; when all of them are taken it fails although free identifiers may
    exist, and it always fails once the 9000 identifiers are used up.
    When it fails, a [player:request_id] message changes nothing and gets
    no reply: the error is caught by the message listener. *)
Theorem allocation_takes_first_free_draw (rnd : nat -> N) (s : State) :
  (forall i, i < 1000 -> taken s (draw rnd i) = false ->
     (forall j, j < i -> taken s (draw rnd j) = true) ->
     generateUniquePlayerID rnd s
     = Some (draw rnd i,
             saveUsedIDs (with_used (fun u => {[draw rnd i]} ∪ u) s))) /\
  ((forall j, j < 1000 -> taken s (draw rnd j) = true) ->
     generateUniquePlayerID rnd s = None /\
     forall w now p,
       handleMessage w now rnd
         {| type := "player:request_id"; payload := p |} s = s) /\
  ((forall n, (1000 <= n < 10000)%N -> JS.toString n ∈ usedPlayerIDs s) ->
     generateUniquePlayerID rnd s = None).
Proof.
  assert ((forall j, j < 1000 -> taken s (draw rnd j) = true) ->
          generateUniquePlayerID rnd s = None) as Hnone.
  { intros Ht. unfold generateUniquePlayerID.
    rewrite (generateLoop_all_taken rnd s 1000 0); [done|].
    intros j _ Hj. by apply Ht. }
  split; [|split].
  - intros i Hi Hfree Ht. unfold generateUniquePlayerID.
    rewrite (generateLoop_first_free rnd s 1000 0 i); try done; try lia.
    intros j _ Hj. by apply Ht.
  - intros Ht. split; [by apply Hnone|].
    intros w now p. apply request_id_fails. by apply Hnone.
  - intros Hall. apply Hnone. intros j _. unfold taken, draw, randomNum.
    rewrite bool_decide_eq_true_2; [done|]. apply Hall.
    assert ((rnd j mod 9000 < 9000)%N) as Hlt
      by (apply N.mod_upper_bound; lia).
    set (r := (rnd j mod 9000)%N) in *. clearbody r. lia.
Qed.

Lemma allocation_takes_first_free_draw_witness :
  let s := init {["1000"]} in
  generateUniquePlayerID (fun i => N.of_nat i) s
  = Some ("1001", saveUsedIDs (with_used (fun u => {["1001"]} ∪ u) s)) /\
  generateUniquePlayerID (fun _ => 0%N) s = None /\
  handleMessage 0 1700000000000 (fun _ => 0%N)
    {| type := "player:request_id"; payload := None |} s = s.
Proof.
  intros s.
  destruct (allocation_takes_first_free_draw (fun i => N.of_nat i) s)
    as (Hfirst & _ & _).
  destruct (allocation_takes_first_free_draw (fun _ => 0%N) s)
    as (_ & Hfail & _).
  assert (Ht : forall j, j < 1000 -> taken s (draw (fun _ => 0%N) j) = true)
    by (intros j _; vm_compute; reflexivity).
  destruct (Hfail Ht) as [Hnone Hmsg].
  split; [|split; [exact Hnone|apply Hmsg]].
  apply (Hfirst 1); [lia|vm_compute; reflexivity|].
  intros j Hj. assert (j = 0) as -> by lia. vm_compute. reflexivity.
Defined.

(** X7. In every reachable state an identifier registered in the
    live-session map is four digits long and in the used set: a
    placeholder identity is never registered, so that [send] to an
    identifier that is not four digits never delivers, and the test
    [clients.has] of the allocation loop never decides. *)
Theorem registered_identifiers_are_used (s : State) :
  reachable s ->
  (forall pid w, OMap.get pid (clients s) = Some w ->
     JS.is4digit pid = true /\ pid ∈ usedPlayerIDs s) /\
  (forall pid e, JS.is4digit pid = false -> send pid e s = s) /\
  (forall pid, taken s pid = bool_decide (pid ∈ usedPlayerIDs s)).
Proof.
  intros Hr.
  assert (forall pid w, OMap.get pid (clients s) = Some w ->
            JS.is4digit pid = true /\ pid ∈ usedPlayerIDs s) as Hreg.
  { induction Hr as [loaded|s e _ IH]; [done|].
    intros pid w H. destruct (registry_step s e) as [Hu Hc].
    destruct (Hc _ _ H) as [H'|H']; [|done].
    destruct (IH _ _ H') as [H4 Hin]. split; [done|]. by apply Hu. }
  split; [done|]. split.
  - intros pid e H4. apply send_unregistered.
    destruct (OMap.get pid (clients s)) as [w|] eqn:E; [|done].
    destruct (Hreg _ _ E). congruence.
  - intros pid. unfold taken, OMap.has.
    destruct (OMap.get pid (clients s)) as [w|] eqn:E;
      [|by rewrite orb_false_r].
    destruct (Hreg _ _ E) as [_ Hin].
    by rewrite bool_decide_eq_true_2.
Qed.

Lemma registered_identifiers_are_used_witness :
  "1111" ∈ usedPlayerIDs pairedState /\
  send "temp_5_0.1" connection_established pairedState = pairedState.
Proof.
  assert (Hr : reachable pairedState) by apply reachable_run, reachable_init.
  destruct (registered_identifiers_are_used pairedState Hr) as (Hreg & Hsend & _).
  split.
  - exact (proj2 (Hreg "1111" 0 eq_refl)).
  - apply Hsend. reflexivity.
Defined.

(** ** Who can end a live session *)

Lemma truthy_inv o x : JS.truthy o = Some x -> o = Some x.
Proof. destruct o as [[|a t]|]; simpl; congruence. Qed.

(** The skeleton after a message: unchanged, or the sender took a fresh
    identifier, or the message is a [player:reconnect] and the sender took
    the identifier it names. *)
Lemma skel_handleMessage_kind w now rnd m s :
  skel (handleMessage w now rnd m s) = skel s \/
  (exists pid, JS.is4digit pid = true /\ OMap.get pid (clients s) = None /\
     skel (handleMessage w now rnd m s) = kInstall w pid (skel s)) \/
  (type m = "player:reconnect" /\
   exists pid, field p_playerID (payload m) = Some pid /\
     JS.is4digit pid = true /\
     skel (handleMessage w now rnd m s) = kBind w pid (kCancel pid (skel s))).
Proof.
  unfold handleMessage. case_bool_decide as Hw; [|by left].
  destruct (clientOf s w) as [c|]; [|by left].
  dispatch_type.
  { destruct (skel_handleRequestID w now rnd (payload m) s)
      as [Hs|(pid & H4 & Hc & Hs)]; [by left|].
    right. left. by exists pid. }
  dispatch_type.
  { apply String.eqb_eq in Etype0. unfold handleReconnect.
    destruct (JS.truthy (field p_playerID (payload m))) as [pid|] eqn:Hp;
      [|left; apply skel_socket_send].
    destruct (JS.is4digit pid) eqn:H4; [|left; apply skel_socket_send].
    right. right. split; [done|]. exists pid.
    split; [by apply truthy_inv|]. split; [done|].
    rewrite skel_resumeOpponent, skel_sendPlayerOnline, skel_socket_send.
    apply skel_install.
    by rewrite skel_update_client_name, skel_update_client_playerID,
      skel_closePrevious, skel_cancelOffline. }
  left. repeat dispatch_type;
    first
      [ done | apply skel_handleUpdateName | apply skel_handleStateUpdate
      | apply skel_update_client_location | apply skel_handleGameStart
      | apply skel_handleScoreUpdate | apply skel_handleApplyBrisks
      | apply skel_handleOpponentUndo | apply skel_forwardToOpponent
      | apply skel_send | apply skel_handleSearch ].
Qed.

(** What "the session of [w] holds [pid], is open, tracked and registered"
    is on the skeleton. *)
Lemma live_skel k w pid :
  SInv k -> k_shapes k !! w = Some (OPEN, pid) -> JS.is4digit pid = true ->
  w ∈ k_tracked k /\ OMap.get pid (k_clients k) = Some w.
Proof.
  intros HI Hs H4.
  assert (w ∈ k_tracked k) as Hw by (by eapply inv_open_tracked).
  split; [done|]. by eapply (inv_bound _ HI).
Qed.

Lemma kCancel_frame pid k :
  k_shapes (kCancel pid k) = k_shapes k /\
  k_clients (kCancel pid k) = k_clients k /\
  k_tracked (kCancel pid k) = k_tracked k.
Proof. unfold kCancel. by case_match. Qed.

Lemma live_kBind k w pid c q :
  k_shapes k !! w = Some (OPEN, pid) -> w ∈ k_tracked k ->
  OMap.get pid (k_clients k) = Some w ->
  c <> w -> OMap.get q (k_clients k) <> Some w ->
  let k' := kBind c q (kCancel q k) in
  k_shapes k' !! w = Some (OPEN, pid) /\ (w ∈ k_tracked k') /\
  OMap.get pid (k_clients k') = Some w.
Proof.
  intros Hs Hw Hc Hcw Hq. destruct (kCancel_frame q k) as (E1 & E2 & E3).
  simpl. unfold kBind, kInstall, kClosePrevious. rewrite E2.
  assert (q <> pid) as Hqp by (intros ->; congruence).
  destruct (OMap.get q (k_clients k)) as [prev|] eqn:Eq.
  - case_bool_decide; simpl; rewrite ?E1, ?E2, ?E3.
    + assert (prev <> w) by congruence.
      rewrite !list_lookup_alter_ne by done.
      rewrite omap_get_set_ne by done.
      split; [done|]. split; [|done].
      rewrite elem_of_union, elem_of_difference, elem_of_singleton.
      right. split; [done|]. by rewrite elem_of_singleton.
    + rewrite !list_lookup_alter_ne by done.
      rewrite omap_get_set_ne by done.
      split; [done|]. split; [|done]. rewrite elem_of_union. by right.
  - simpl. rewrite ?E1, ?E2, ?E3.
    rewrite !list_lookup_alter_ne by done.
    rewrite omap_get_set_ne by done.
    split; [done|]. split; [|done]. rewrite elem_of_union. by right.
Qed.

Lemma live_kOnClose k w pid x now :
  k_shapes k !! w = Some (OPEN, pid) -> w ∈ k_tracked k ->
  OMap.get pid (k_clients k) = Some w -> x <> w ->
  let k' := kOnClose x now k in
  k_shapes k' !! w = Some (OPEN, pid) /\ (w ∈ k_tracked k') /\
  OMap.get pid (k_clients k') = Some w.
Proof.
  intros Hs Hw Hc Hx. simpl. unfold kOnClose.
  destruct (k_shapes k !! x) as [[r p]|] eqn:Ex; [|done].
  assert (forall k0, k_shapes k0 = alter (fun y => (CLOSED, y.2)) x (k_shapes k) ->
            k_tracked k0 = k_tracked k -> k_clients k0 = k_clients k ->
            k_shapes (kCloseHandler x now k0) !! w = Some (OPEN, pid) /\
            (w ∈ k_tracked (kCloseHandler x now k0)) /\
            OMap.get pid (k_clients (kCloseHandler x now k0)) = Some w) as H.
  { intros k0 E1 E2 E3. unfold kCloseHandler, kUntrack, kSchedule.
    repeat case_match; simpl; rewrite ?E1, ?E2, ?E3;
      rewrite ?list_lookup_alter_ne by done;
      (split; [done|]; split; [|done]);
      rewrite ?elem_of_difference, ?elem_of_singleton; try done;
      by split. }
  destruct r; [apply H; done|apply H; done|done].
Qed.

Lemma live_kOnTimeout k w pid h now :
  SInv k -> k_shapes k !! w = Some (OPEN, pid) -> w ∈ k_tracked k ->
  OMap.get pid (k_clients k) = Some w ->
  let k' := kOnTimeout h now k in
  k_shapes k' !! w = Some (OPEN, pid) /\ (w ∈ k_tracked k') /\
  OMap.get pid (k_clients k') = Some w.
Proof.
  intros HI Hs Hw Hc. simpl. unfold kOnTimeout.
  destruct (k_timers k !! h) as [[pid' due]|] eqn:Et; [|done].
  destruct (due <=? now)%Z; [|done]. simpl.
  split; [done|]. split; [done|].
  destruct (inv_timers _ HI _ _ _ Et) as (_ & _ & w' & p' & Hc' & Hs').
  rewrite omap_get_delete_ne; [done|].
  intros ->. congruence.
Qed.

(** X8. A live session can only be ended by its own close, by a message
    of its own, or by a [player:reconnect] naming an identifier that is
    registered to it: under every other event the session stays open,
    tracked, and registered under its identifier.  In particular the
    offline timers never unregister an open session, and neither does the
    close of another socket. *)
Theorem live_session_stays (s : State) (w : nat) (pid : string) (e : Event) :
  reachable s -> bound s w pid -> JS.is4digit pid = true ->
  match e with
  | Close x _ => x <> w
  | Receive c _ _ m =>
      c <> w /\
      (type m = "player:reconnect" ->
       forall q, field p_playerID (payload m) = Some q ->
                 OMap.get q (clients s) <> Some w)
  | _ => True
  end ->
  bound (step s e) w pid /\ (w ∈ wsToClient (step s e)) /\
  OMap.get pid (clients (step s e)) = Some w.
Proof.
  intros Hr Hb H4 He. pose proof (reachable_Inv s Hr) as HI.
  apply bound_shape in Hb.
  destruct (live_skel _ w pid HI Hb H4) as [Hw Hc].
  rewrite bound_shape.
  change (wsToClient (step s e)) with (k_tracked (skel (step s e))).
  change (clients (step s e)) with (k_clients (skel (step s e))).
  destruct e as [now rnd|c now rnd m|x now|h now]; unfold step.
  - rewrite skel_onConnection. unfold kConnect. simpl.
    rewrite lookup_app_l by (by eapply lookup_lt_Some).
    split; [done|]. split; [rewrite elem_of_union; by right|done].
  - destruct He as [Hcw Hq].
    destruct (skel_handleMessage_kind c now rnd m s)
      as [->|[(q & Hq4 & Hqn & ->)|(Hty & q & Hf & Hq4 & ->)]].
    + done.
    + simpl. rewrite list_lookup_alter_ne by done.
      rewrite omap_get_set_ne by (intros ->; simpl in *; congruence).
      split; [done|]. split; [rewrite elem_of_union; by right|done].
    + apply live_kBind; try done. by apply Hq.
  - rewrite skel_onClose. by apply live_kOnClose.
  - rewrite skel_onTimeout. by apply live_kOnTimeout.
Qed.

Lemma live_session_stays_witness :
  bound (step pairedState (Timeout 0 1700000009000)) 0 "1111" /\
  bound (step pairedState (Close 1 1700000001000)) 0 "1111" /\
  OMap.get "1111" (clients (step pairedState (reconnectAs 1 1700000001000 "3333")))
  = Some 0.
Proof.
  assert (Hr : reachable pairedState) by apply reachable_run, reachable_init.
  assert (Hb : bound pairedState 0 "1111") by (split; reflexivity).
  split; [|split].
  - apply (live_session_stays pairedState 0 "1111" _ Hr Hb eq_refl). exact I.
  - apply (live_session_stays pairedState 0 "1111" _ Hr Hb eq_refl). lia.
  - apply (live_session_stays pairedState 0 "1111" _ Hr Hb eq_refl).
    split; [lia|]. intros _ q [= <-]. vm_compute. discriminate.
Defined.

(** ** Whose close arms the offline timer *)

Lemma kSchedule_other k pid pid' now :
  pid' <> pid ->
  k_offline (kSchedule pid' now k) !! pid = k_offline k !! pid /\
  (forall h due, k_timers (kSchedule pid' now k) !! h = Some (pid, due) ->
                 k_timers k !! h = Some (pid, due)) /\
  k_clients (kSchedule pid' now k) = k_clients k.
Proof.
  intros Hne. simpl. split; [by rewrite lookup_insert_ne|]. split; [|done].
  intros h due. destruct (decide (h = k_next k)) as [->|Hh].
  - rewrite lookup_insert_eq. congruence.
  - by rewrite lookup_insert_ne.
Qed.

Lemma kCloseHandler_other k w pid c now :
  NoDup (k_clients k).*1 -> OMap.get pid (k_clients k) = Some c -> c <> w ->
  k_offline (kCloseHandler w now k) !! pid = k_offline k !! pid /\
  (forall h due, k_timers (kCloseHandler w now k) !! h = Some (pid, due) ->
                 k_timers k !! h = Some (pid, due)) /\
  k_clients (kCloseHandler w now k) = k_clients k.
Proof.
  intros Hnd Hc Hcw. unfold kCloseHandler. case_bool_decide as Hw.
  - destruct (k_shapes k !! w) as [[r pid']|]; [|done].
    destruct (negb _ && _); [|done]. simpl.
    destruct (OMap.get pid' (k_clients k)) as [existing|] eqn:Ee; [|done].
    case_bool_decide as Hex; [|done]. subst existing.
    apply (kSchedule_other (kUntrack w k)). intros ->. congruence.
  - destruct (List.find _ (k_clients k)) as [[pid' cw]|] eqn:Ef; [|done].
    apply find_some in Ef as [Hin Hp]. apply bool_decide_eq_true in Hp.
    subst cw. apply list_elem_of_In in Hin.
    apply omap_elem_get in Hin; [|done].
    apply kSchedule_other. intros ->. congruence.
Qed.

(** X9. The close of a socket arms the offline timer of an identifier only
    if that socket is the one registered under it: when the identifier is
    registered to another socket (the closing one was replaced), its
    timer entry, its pending timeouts and its registration are left as
    they are. *)
Theorem close_of_a_replaced_socket_is_harmless (s : State) (w c : nat)
    (pid : string) (now : Z) :
  reachable s -> OMap.get pid (clients s) = Some c -> c <> w ->
  offlineTimers (step s (Close w now)) !! pid = offlineTimers s !! pid /\
  (forall h due, timers (step s (Close w now)) !! h = Some (pid, due) ->
                 timers s !! h = Some (pid, due)) /\
  OMap.get pid (clients (step s (Close w now))) = Some c.
Proof.
  intros Hr Hc Hcw. pose proof (reachable_Inv s Hr) as HI.
  change (offlineTimers (step s (Close w now)))
    with (k_offline (skel (step s (Close w now)))).
  change (timers (step s (Close w now)))
    with (k_timers (skel (step s (Close w now)))).
  change (clients (step s (Close w now)))
    with (k_clients (skel (step s (Close w now)))).
  unfold step. rewrite skel_onClose. unfold kOnClose.
  destruct (k_shapes (skel s) !! w) as [[r p]|]; [|done].
  assert (NoDup (k_clients (skel s)).*1) as Hnd by apply (inv_nodup _ HI).
  destruct r;
    first [ done
          | destruct (kCloseHandler_other
                        (kAlter (fun x => (CLOSED, x.2)) w (skel s))
                        w pid c now Hnd Hc Hcw) as (H1 & H2 & H3);
            rewrite H1, H3; done ].
Qed.

Lemma close_of_a_replaced_socket_is_harmless_witness :
  let s := run (init ∅)
             [Connection 5 "0.1"; reconnectAs 0 1700000000000 "1111";
              Connection 6 "0.2"; reconnectAs 1 1700000000500 "1111"] in
  reachable s /\ OMap.get "1111" (clients s) = Some 1 /\
  isOpen s 0 = false /\
  offlineTimers (step s (Close 0 1700000001000)) !! "1111" = None /\
  OMap.get "1111" (clients (step s (Close 0 1700000001000))) = Some 1.
Proof.
  intros s.
  assert (Hr : reachable s) by apply reachable_run, reachable_init.
  assert (Hc : OMap.get "1111" (clients s) = Some 1) by reflexivity.
  destruct (close_of_a_replaced_socket_is_harmless s 0 1 "1111"
              1700000001000 Hr Hc) as (H1 & _ & H3); [lia|].
  split; [exact Hr|]. split; [exact Hc|]. split; [reflexivity|].
  split; [|exact H3]. rewrite H1. reflexivity.
Defined.

(** ** A session that takes a second identifier *)

Lemma kBind_keeps k w pid q :
  OMap.get pid (k_clients k) = Some w -> q <> pid ->
  OMap.get pid (k_clients (kBind w q (kCancel q k))) = Some w.
Proof.
  intros Hc Hne. destruct (kCancel_frame q k) as (_ & E2 & _).
  unfold kBind, kInstall, kClosePrevious. rewrite E2.
  destruct (OMap.get q (k_clients k)) as [prev|];
    [case_bool_decide|]; simpl; rewrite ?E2;
    by rewrite omap_get_set_ne by done.
Qed.

(** X10. A session that reconnects under a second identifier stays
    registered under the first one as well.  When it closes, only the
    identifier it holds then gets an offline timer: after that timer has
    expired the first identifier is still registered, to a socket that is
    closed. *)
Theorem rebinding_keeps_the_old_registration (s : State) (w : nat)
    (pid q : string) (now t : Z) (rnd : nat -> N) (p : option Payload) :
  reachable s -> bound s w pid -> JS.is4digit pid = true ->
  field p_playerID p = Some q -> JS.is4digit q = true -> q <> pid ->
  let s1 := step s (Receive w now rnd
                      {| type := "player:reconnect"; payload := p |}) in
  let s2 := step (step s1 (Close w t))
              (Timeout (nextTimer s1) (t + OFFLINE_DEBOUNCE_MS)) in
  (bound s1 w q /\ OMap.get q (clients s1) = Some w /\
   OMap.get pid (clients s1) = Some w) /\
  (OMap.get q (clients s2) = None /\ OMap.get pid (clients s2) = Some w /\
   isOpen s2 w = false).
Proof.
  intros Hr Hb H4 Hf Hq4 Hne s1 s2.
  pose proof (reachable_Inv s Hr) as HI.
  pose proof Hb as Hshape. apply bound_shape in Hshape.
  destruct (live_skel _ w pid HI Hshape H4) as [Hw Hc].
  assert (Hk : skel s1 = kBind w q (kCancel q (skel s))).
  { apply reconnect_skel; try done. by apply tracked_client. }
  destruct (kBind_installed w q (skel s) HI Hw) as (Hs1 & Hc1 & _).
  assert (Hb1 : bound s1 w q) by (apply bound_shape; by rewrite Hk).
  assert (Hq1 : OMap.get q (clients s1) = Some w)
    by (change (clients s1) with (k_clients (skel s1)); by rewrite Hk).
  assert (Hp1 : OMap.get pid (clients s1) = Some w).
  { change (clients s1) with (k_clients (skel s1)). rewrite Hk.
    by apply kBind_keeps. }
  split; [done|].
  assert (Hr1 : reachable s1) by (by constructor).
  pose proof (reachable_Inv s1 Hr1) as HI1.
  assert (Hs2 : s2 = with_lastOnline (delete q)
                      (with_offlineTimers (delete q)
                         (with_clients (OMap.delete q)
                            (with_timers (delete (nextTimer s1))
                               (scheduleOffline q t
                                  (with_wsToClient (fun m => m ∖ {[w]})
                                     (update_conn w (with_readyState CLOSED)
                                        s1))))))).
  { subst s2. change (step s1 (Close w t)) with (onClose w t s1).
    rewrite (close_arms_timer s1 w q t HI1 Hb1 Hq4).
    unfold step, onTimeout, scheduleOffline. simpl.
    rewrite lookup_insert_eq.
    destruct (Z.leb_spec (t + OFFLINE_DEBOUNCE_MS) (t + OFFLINE_DEBOUNCE_MS));
      [|lia].
    by rewrite offlineExpired_silent. }
  rewrite Hs2. simpl.
  rewrite omap_get_delete_eq, omap_get_delete_ne by done.
  split; [done|]. split; [done|].
  unfold isOpen. simpl. rewrite list_lookup_alter_eq.
  destruct (conns s1 !! w); done.
Qed.

Lemma rebinding_keeps_the_old_registration_witness :
  let s1 := step pairedState (reconnectAs 0 1700000001000 "3333") in
  let s2 := step (step s1 (Close 0 1700000002000))
              (Timeout (nextTimer s1) (1700000002000 + OFFLINE_DEBOUNCE_MS)) in
  OMap.get "1111" (clients s1) = Some 0 /\
  OMap.get "3333" (clients s1) = Some 0 /\
  OMap.get "3333" (clients s2) = None /\
  OMap.get "1111" (clients s2) = Some 0 /\ isOpen s2 0 = false.
Proof.
  intros s1 s2.
  assert (Hr : reachable pairedState) by apply reachable_run, reachable_init.
  assert (Hb : bound pairedState 0 "1111") by (split; reflexivity).
  destruct (rebinding_keeps_the_old_registration pairedState 0 "1111" "3333"
              1700000001000 1700000002000 (fun _ => 0%N)
              (Some (payloadPlayerID "3333")) Hr Hb eq_refl eq_refl eq_refl)
    as [(_ & H1 & H2) (H3 & H4 & H5)]; [done|].
  repeat split; assumption.
Defined.

(** ** What [send] writes *)

Lemma isOpen_socket_send w e s x : isOpen (socket_send w e s) x = isOpen s x.
Proof. apply isOpen_skel, skel_socket_send. Qed.

Lemma isOpen_send pid e s x : isOpen (send pid e s) x = isOpen s x.
Proof. apply isOpen_skel, skel_send. Qed.

Lemma clients_send pid e s : clients (send pid e s) = clients s.
Proof.
  change (k_clients (skel (send pid e s)) = clients s). by rewrite skel_send.
Qed.

Lemma clientOf_send pid e s x : clientOf (send pid e s) x = clientOf s x.
Proof. apply (sends_only_send pid e s). Qed.

Lemma outboxOf_socket_send w e s x :
  outboxOf (socket_send w e s) x
  = outboxOf s x ++ (if decide (w = x) then if isOpen s x then [e] else []
                     else []).
Proof.
  case_decide as Hx.
  - subst x. destruct (isOpen s w) eqn:Ho.
    + by apply outboxOf_socket_send_eq.
    + rewrite socket_send_closed by done. by rewrite app_nil_r.
  - rewrite outboxOf_socket_send_ne by done. by rewrite app_nil_r.
Qed.

(** [send] appends to the outbox of the socket registered under the
    identifier, if it is open, and to no other. *)
Lemma outboxOf_send pid e s x :
  outboxOf (send pid e s) x
  = outboxOf s x
    ++ (if decide (OMap.get pid (clients s) = Some x)
        then if isOpen s x then [e] else [] else []).
Proof.
  rewrite send_socket_send.
  destruct (OMap.get pid (clients s)) as [w|] eqn:E.
  - rewrite outboxOf_socket_send.
    destruct (decide (w = x)) as [->|Hx].
    + by rewrite decide_True.
    + by rewrite decide_False by congruence.
  - rewrite decide_False by done. by rewrite app_nil_r.
Qed.

(** The holder of a placeholder identity is registered nowhere, the
    tracked holder of an identifier is registered under it. *)
Lemma own_registration s w c :
  Inv s -> w ∈ wsToClient s -> clientOf s w = Some c ->
  isOpen s w = true /\
  OMap.get (playerID c) (clients s)
  = if JS.is4digit (playerID c) then Some w else None.
Proof.
  intros HI Hw Hc.
  destruct (inv_tracked_open _ HI w Hw) as [p Hp].
  assert (isOpen s w = true) as Ho by (apply isOpen_shape; by exists p).
  split; [done|].
  assert (p = playerID c) as ->.
  { rewrite shapes_lookup in Hp. unfold clientOf in Hc.
    destruct (conns s !! w) as [cn|]; simpl in *; [|done].
    unfold shape in Hp. by simplify_eq. }
  destruct (JS.is4digit (playerID c)) eqn:H4.
  - by eapply (inv_bound _ HI).
  - destruct (OMap.get (playerID c) (clients s)) as [x|] eqn:E; [|done].
    destruct (inv_keys _ HI _ _ E) as [H4' _]. congruence.
Qed.

(** ** Pairing ([game:start]) *)

Lemma clients_update_client w f s : clients (update_client w f s) = clients s.
Proof. reflexivity. Qed.

Lemma nameOf_client s w c : clientOf s w = Some c -> nameOf s w = JS.orElse (name c) "".
Proof. intros H. unfold nameOf. by rewrite H. Qed.

(** X11. [game:start] from a tracked socket.  Without an opponent
    identifier, or with the sender's own, the sender gets [game:error] and
    nothing else happens; with an identifier that is not registered nothing
    happens at all, and no reply is sent.  With the identifier of another
    session the two sessions are made each other's opponent, whether the
    other socket is open or not, no third session is touched, the other
    socket is told if it is open, and the sender is told if it holds a
    four-digit identifier (a placeholder sender is not). *)
Theorem game_start_pairs (s : State) (w : nat) (c : ClientInfo) (now : Z)
    (rnd : nat -> N) (p : option Payload) :
  reachable s -> w ∈ wsToClient s -> clientOf s w = Some c ->
  let cur := playerID c in
  let s' := handleMessage w now rnd {| type := "game:start"; payload := p |} s in
  (JS.truthy (field p_opponentID p) = None \/
   JS.truthy (field p_opponentID p) = Some cur ->
   s' = socket_send w (game_error "Cannot start a game with yourself") s /\
   outboxOf s' w
   = outboxOf s w ++ [game_error "Cannot start a game with yourself"]) /\
  (forall o, JS.truthy (field p_opponentID p) = Some o -> o <> cur ->
     OMap.get o (clients s) = None -> s' = s) /\
  (forall o ow oc, JS.truthy (field p_opponentID p) = Some o -> o <> cur ->
     OMap.get o (clients s) = Some ow -> ow <> w -> clientOf s ow = Some oc ->
     skel s' = skel s /\
     clientOf s' w = Some (set_opponentID (Some o) c) /\
     clientOf s' ow = Some (set_opponentID (Some cur) oc) /\
     (forall x, x <> w -> x <> ow ->
        clientOf s' x = clientOf s x /\ outboxOf s' x = outboxOf s x) /\
     outboxOf s' ow
     = outboxOf s ow
       ++ (if isOpen s ow
           then [game_auto_joined cur (JS.orElse (name c) "")] else []) /\
     outboxOf s' w
     = outboxOf s w
       ++ (if JS.is4digit cur
           then [game_auto_joined o (JS.orElse (name oc) "")] else [])).
Proof.
  intros Hr Hw Hc cur s'. pose proof (reachable_Inv s Hr) as HI.
  destruct (own_registration s w c HI Hw Hc) as [Ho Hreg].
  subst s'. rewrite (dispatch_game_start s w c now rnd Hw Hc).
  unfold handleGameStart. fold cur. fold cur in Hreg.
  split; [|split].
  - intros [-> | ->].
    + split; [done|]. by apply outboxOf_socket_send_eq.
    + rewrite String.eqb_refl. split; [done|].
      by apply outboxOf_socket_send_eq.
  - intros o -> Hne Hn. apply String.eqb_neq in Hne. by rewrite Hne, Hn.
  - intros o ow oc -> Hne Hg Hwo Hoc.
    pose proof Hne as Hne'. apply String.eqb_neq in Hne'. rewrite Hne', Hg.
    set (s1 := update_client w (set_opponentID (Some o)) s).
    set (s2 := update_client ow (set_opponentID (Some cur)) s1).
    assert (Hc2w : clientOf s2 w = Some (set_opponentID (Some o) c)).
    { unfold s2, s1. rewrite !clientOf_update_client.
      rewrite decide_False by done. rewrite decide_True by done.
      by rewrite Hc. }
    assert (Hc2o : clientOf s2 ow = Some (set_opponentID (Some cur) oc)).
    { unfold s2, s1. rewrite !clientOf_update_client.
      rewrite decide_True by done. rewrite decide_False by done.
      by rewrite Hoc. }
    assert (Hc2x : forall x, x <> w -> x <> ow -> clientOf s2 x = clientOf s x).
    { intros x Hx1 Hx2. unfold s2, s1. rewrite !clientOf_update_client.
      by rewrite !decide_False by done. }
    assert (Ho2 : forall x, isOpen s2 x = isOpen s x)
      by (intros x; unfold s2, s1; by rewrite !isOpen_update_client).
    assert (Hb2 : forall x, outboxOf s2 x = outboxOf s x)
      by (intros x; unfold s2, s1; by rewrite !outboxOf_update_client).
    assert (Hcl2 : clients s2 = clients s) by reflexivity.
    assert (Hk2 : skel s2 = skel s)
      by (unfold s2, s1; by rewrite !skel_update_client_opponent).
    rewrite (nameOf_client s2 ow _ Hc2o). simpl name.
    clearbody s2. clear s1.
    set (e1 := game_auto_joined o (JS.orElse (name oc) "")).
    set (s3 := send cur e1 s2).
    assert (Hc3 : forall x, clientOf s3 x = clientOf s2 x)
      by (intros x; apply clientOf_send).
    assert (Hcl3 : clients s3 = clients s)
      by (unfold s3; by rewrite clients_send).
    assert (Ho3 : forall x, isOpen s3 x = isOpen s x)
      by (intros x; unfold s3; by rewrite isOpen_send).
    assert (Hb3 : forall x, outboxOf s3 x
              = outboxOf s x
                ++ (if decide (x = w)
                    then if JS.is4digit cur then [e1] else [] else [])).
    { intros x. unfold s3. rewrite outboxOf_send, Hcl2, Hreg, Hb2, Ho2.
      destruct (JS.is4digit cur).
      - destruct (decide (x = w)) as [->|Hx].
        + by rewrite decide_True, Ho.
        + by rewrite decide_False by congruence.
      - rewrite decide_False by done. by destruct (decide (x = w)). }
    assert (Hk3 : skel s3 = skel s) by (unfold s3; by rewrite skel_send).
    rewrite (nameOf_client s3 w (set_opponentID (Some o) c))
      by (by rewrite Hc3).
    simpl name. clearbody s3.
    set (e2 := game_auto_joined cur (JS.orElse (name c) "")).
    assert (Hb' : forall x, outboxOf (send o e2 s3) x
              = outboxOf s3 x
                ++ (if decide (x = ow)
                    then if isOpen s ow then [e2] else [] else [])).
    { intros x. rewrite outboxOf_send, Hcl3, Hg, Ho3.
      destruct (decide (x = ow)) as [->|Hx].
      - by rewrite decide_True.
      - by rewrite decide_False by congruence. }
    split; [|split; [|split; [|split; [|split]]]].
    + by rewrite skel_send.
    + by rewrite clientOf_send, Hc3.
    + by rewrite clientOf_send, Hc3.
    + intros x Hx1 Hx2. rewrite clientOf_send, Hc3, Hb', Hb3.
      split; [by apply Hc2x|].
      by rewrite !decide_False, !app_nil_r by done.
    + rewrite Hb', Hb3. rewrite decide_False by done.
      by rewrite app_nil_r, decide_True.
    + rewrite Hb', Hb3. rewrite decide_True by done.
      rewrite (decide_False (P := w = ow)) by congruence.
      by rewrite app_nil_r.
Qed.

Lemma game_start_pairs_witness :
  let s := run (init ∅)
             [Connection 5 "0.1"; Connection 6 "0.2";
              reconnectAs 0 1700000000000 "1111";
              reconnectAs 1 1700000000000 "2222"] in
  let s' := handleMessage 0 1700000000500 (fun _ => 0%N)
              {| type := "game:start";
                 payload := Some (payloadOpponent "2222" None) |} s in
  (opponentID <$> clientOf s' 0) = Some (Some "2222") /\
  (opponentID <$> clientOf s' 1) = Some (Some "1111") /\
  outboxOf s' 1 = outboxOf s 1 ++ [game_auto_joined "1111" "Player 1111"] /\
  outboxOf s' 0 = outboxOf s 0 ++ [game_auto_joined "2222" "Player 2222"].
Proof.
  intros s s'.
  assert (Hr : reachable s) by apply reachable_run, reachable_init.
  assert (Hw : 0 ∈ wsToClient s)
    by (apply (bool_decide_unpack _); vm_compute; exact I).
  set (c := {| playerID := "1111"; name := Some "Player 1111";
               location := None; opponentID := None; lastState := None |}).
  set (oc := {| playerID := "2222"; name := Some "Player 2222";
                location := None; opponentID := None; lastState := None |}).
  assert (Hc : clientOf s 0 = Some c) by reflexivity.
  destruct (game_start_pairs s 0 c 1700000000500 (fun _ => 0%N)
              (Some (payloadOpponent "2222" None)) Hr Hw Hc)
    as (_ & _ & Hpair).
  destruct (Hpair "2222" 1 oc eq_refl) as (_ & H1 & H2 & _ & H3 & H4);
    [done|reflexivity|lia|reflexivity|].
  fold s' in H1, H2, H3, H4. rewrite H1, H2.
  split; [reflexivity|]. split; [reflexivity|]. split; [exact H3|exact H4].
Defined.

(** ** A published location in the directory *)





(** ** The session after a reconnect *)

Lemma clientOf_closePrevious w pid s x :
  clientOf (closePrevious w pid s) x = clientOf s x.
Proof.
  unfold closePrevious. destruct (OMap.get pid (clients s)) as [prev|]; [|done].
  case_bool_decide; [|done].
  change (clientOf (with_wsToClient _ ?t) x) with (clientOf t x).
  unfold clientOf, socket_close, update_conn. simpl.
  rewrite list_lookup_alter. case_decide as Hd; [|done]. subst x.
  destruct (conns s !! prev) as [cn|]; [|done]. simpl.
  by destruct (readyState cn).
Qed.

Lemma clientOf_cancelOffline pid s x :
  clientOf (cancelOffline pid s) x = clientOf s x.
Proof. unfold cancelOffline. by destruct (offlineTimers s !! pid). Qed.

(** An announcement for a session that has declared no opponent is
    written to nobody. *)
Lemma sendPlayerOnline_no_opponent now pid s w c :
  OMap.get pid (clients s) = Some w -> clientOf s w = Some c ->
  JS.truthy (opponentID c) = None ->
  forall x, outboxOf (sendPlayerOnline now pid s) x = outboxOf s x.
Proof.
  intros Hg Hc Ht x. unfold sendPlayerOnline.
  destruct (_ <? _)%Z; [done|]. cbv zeta.
  change (clients (with_lastOnline ?f s)) with (clients s). rewrite Hg.
  change (clientOf (with_lastOnline ?f s) w) with (clientOf s w). rewrite Hc.
  simpl. by rewrite Ht.
Qed.

Lemma resumeOpponent_no_opponent w pid s c :
  clientOf s w = Some c ->
  JS.truthy (opponentID c) = None \/ lastState c = None ->
  resumeOpponent w pid s = s.
Proof.
  intros Hc H. unfold resumeOpponent. rewrite Hc.
  destruct H as [-> | ->]; [by destruct (lastState c)|done].
Qed.

(** The accepted branch of [handleReconnect], in three steps: the
    rebinding [sA], the reply, and the two notifications. *)
Lemma handleReconnect_parts w now p s pid c :
  clientOf s w = Some c ->
  field p_playerID p = Some pid -> JS.is4digit pid = true ->
  let c' := set_name (Some (JS.orElse (field p_name p) ("Player " +:+ pid)))
              (set_playerID pid c) in
  exists sA,
    handleReconnect w now p s
    = resumeOpponent w pid
        (sendPlayerOnline now pid
           (socket_send w (player_reconnected pid) sA)) /\
    skel sA = kBind w pid (kCancel pid (skel s)) /\
    (forall x, clientOf sA x = if decide (x = w) then Some c' else clientOf s x) /\
    (forall x, outboxOf sA x = outboxOf s x).
Proof.
  intros Hc Hf H4 c'. unfold handleReconnect. rewrite Hf.
  assert (JS.truthy (Some pid) = Some pid) as -> by (by destruct pid).
  rewrite H4. eexists. split; [reflexivity|]. split; [|split].
  - change (skel (saveUsedIDs (with_used ?f ?t))) with (skel t).
    apply skel_install.
    by rewrite skel_update_client_name, skel_update_client_playerID,
      skel_closePrevious, skel_cancelOffline.
  - intros x.
    change (clientOf (saveUsedIDs (with_used ?f (with_wsToClient ?g
              (with_clients ?h ?t)))) x) with (clientOf t x).
    rewrite !clientOf_update_client.
    rewrite !clientOf_closePrevious, !clientOf_cancelOffline.
    destruct (decide (x = w)) as [->|Hx].
    + rewrite !decide_True by done. by rewrite Hc.
    + by rewrite !decide_False by done.
  - intros x.
    change (outboxOf (saveUsedIDs (with_used ?f (with_wsToClient ?g
              (with_clients ?h ?t)))) x) with (outboxOf t x).
    rewrite !outboxOf_update_client.
    destruct (closePrevious_quiet w pid (cancelOffline pid s)) as (_ & _ & ->).
    by destruct (cancelOffline_quiet pid s) as (_ & _ & ->).
Qed.

Lemma dispatch_reconnect s w c now rnd p :
  w ∈ wsToClient s -> clientOf s w = Some c ->
  handleMessage w now rnd {| type := "player:reconnect"; payload := p |} s
  = handleReconnect w now p s.
Proof.
  intros Hw Hc. unfold handleMessage.
  by rewrite (bool_decide_eq_true_2 _ Hw), Hc.
Qed.

(** X13. After an accepted [player:reconnect] the session registered
    under the identifier is the record of the connection that sent it,
    with the identifier and the name set: the opponent, the location and
    the last state are those of this connection, nothing is taken over
    from the session that held the identifier before.  For a connection
    that has declared no opponent, as a new connection has not, the
    reconnect is answered and nobody else is written to. *)
Theorem reconnect_starts_from_the_connection (s : State) (w : nat)
    (c : ClientInfo) (now : Z) (rnd : nat -> N) (p : option Payload)
    (pid : string) :
  reachable s -> w ∈ wsToClient s -> clientOf s w = Some c ->
  field p_playerID p = Some pid -> JS.is4digit pid = true ->
  let s' := handleMessage w now rnd
              {| type := "player:reconnect"; payload := p |} s in
  let c' := set_name (Some (JS.orElse (field p_name p) ("Player " +:+ pid)))
              (set_playerID pid c) in
  OMap.get pid (clients s') = Some w /\ clientOf s' w = Some c' /\
  (forall x, x <> w -> clientOf s' x = clientOf s x) /\
  (JS.truthy (opponentID c) = None ->
   outboxOf s' w = outboxOf s w ++ [player_reconnected pid] /\
   forall x, x <> w -> outboxOf s' x = outboxOf s x).
Proof.
  intros Hr Hw Hc Hf H4 s' c'. pose proof (reachable_Inv s Hr) as HI.
  destruct (kBind_installed w pid (skel s) HI Hw) as (Hshape & Hreg & _).
  destruct (handleReconnect_parts w now p s pid c Hc Hf H4)
    as (sA & Hs' & HkA & HcA & HbA).
  fold c' in HcA.
  assert (Hs : s' = resumeOpponent w pid
                      (sendPlayerOnline now pid
                         (socket_send w (player_reconnected pid) sA)))
    by (unfold s'; by rewrite (dispatch_reconnect s w c)).
  clearbody s'. subst s'.
  set (sB := socket_send w (player_reconnected pid) sA).
  set (sC := sendPlayerOnline now pid sB).
  assert (HkB : skel sB = skel sA) by apply skel_socket_send.
  assert (HkC : skel (resumeOpponent w pid sC) = skel sB)
    by (unfold sC; by rewrite skel_resumeOpponent, skel_sendPlayerOnline).
  assert (HgB : OMap.get pid (clients sB) = Some w).
  { change (clients sB) with (k_clients (skel sB)). by rewrite HkB, HkA. }
  assert (HoA : isOpen sA w = true)
    by (apply isOpen_shape; exists pid; by rewrite HkA).
  assert (HcB : forall x, clientOf sB x = clientOf sA x)
    by (intros x; apply clientOf_socket_send).
  assert (HcC : forall x, clientOf sC x = clientOf sB x)
    by (intros x; apply (sends_only_sendPlayerOnline now pid sB)).
  assert (HcR : forall x, clientOf (resumeOpponent w pid sC) x = clientOf sC x)
    by (intros x; apply (sends_only_resumeOpponent w pid sC)).
  split; [|split; [|split]].
  - change (clients ?t) with (k_clients (skel t)). by rewrite HkC, HkB, HkA.
  - by rewrite HcR, HcC, HcB, HcA, decide_True.
  - intros x Hx. by rewrite HcR, HcC, HcB, HcA, decide_False.
  - intros Ht.
    assert (HcBw : clientOf sB w = Some c')
      by (by rewrite HcB, HcA, decide_True).
    assert (HbC : forall x, outboxOf sC x = outboxOf sB x)
      by (apply (sendPlayerOnline_no_opponent now pid sB w c'); done).
    rewrite (resumeOpponent_no_opponent w pid sC c');
      [|by rewrite HcC|by left].
    split.
    + rewrite HbC. unfold sB. rewrite outboxOf_socket_send_eq by done.
      by rewrite HbA.
    + intros x Hx. rewrite HbC. unfold sB.
      rewrite outboxOf_socket_send_ne by done. by rewrite HbA.
Qed.

Lemma reconnect_starts_from_the_connection_witness :
  let s := step pairedState (Connection 7 "0.3") in
  let s' := handleMessage 2 1700000005000 (fun _ => 0%N)
              {| type := "player:reconnect";
                 payload := Some (payloadPlayerID "1111") |} s in
  (opponentID <$> clientOf s 0) = Some (Some "2222") /\
  OMap.get "1111" (clients s') = Some 2 /\
  (opponentID <$> clientOf s' 2) = Some None /\
  outboxOf s' 1 = outboxOf s 1.
Proof.
  intros s s'.
  assert (Hr : reachable s)
    by (apply reachable_step, reachable_run, reachable_init).
  assert (Hw : 2 ∈ wsToClient s)
    by (apply (bool_decide_unpack _); vm_compute; exact I).
  set (c := {| playerID := "temp_7_0.3"; name := Some "Unknown Player";
               location := None; opponentID := None; lastState := None |}).
  destruct (reconnect_starts_from_the_connection s 2 c 1700000005000
              (fun _ => 0%N) (Some (payloadPlayerID "1111")) "1111"
              Hr Hw eq_refl eq_refl eq_refl) as (H1 & H2 & _ & H3).
  fold s' in H1, H2, H3.
  split; [reflexivity|]. split; [exact H1|]. split; [by rewrite H2|].
  destruct (H3 eq_refl) as [_ H4]. apply H4. lia.
Defined.

(** ** The published state and [game:resume] *)

(** The session record after [player:state_update]. *)
Lemma handleStateUpdate_session w p s c :
  clientOf s w = Some c ->
  clientOf (handleStateUpdate w p s) w
  = Some {| playerID := playerID c;
            name := match JS.truthy (field p_name p) with
                    | Some n => Some n
                    | None => name c
                    end;
            location := match field p_location p with
                        | Some l => Some l
                        | None => location c
                        end;
            opponentID := match JS.truthy (field p_opponentID p) with
                          | Some o => Some o
                          | None => opponentID c
                          end;
            lastState := Some {| total := field p_total p;
                                 history := field p_history p |} |} /\
  (forall x, x <> w -> clientOf (handleStateUpdate w p s) x = clientOf s x) /\
  (forall x, outboxOf (handleStateUpdate w p s) x = outboxOf s x).
Proof.
  intros Hc. unfold handleStateUpdate. split; [|split].
  - destruct (JS.truthy (field p_name p)), (field p_location p),
      (JS.truthy (field p_opponentID p));
      rewrite !clientOf_update_client, ?decide_True by done;
      rewrite Hc; destruct c; reflexivity.
  - intros x Hx.
    destruct (JS.truthy (field p_name p)), (field p_location p),
      (JS.truthy (field p_opponentID p));
      by rewrite !clientOf_update_client, ?decide_False by done.
  - intros x.
    destruct (JS.truthy (field p_name p)), (field p_location p),
      (JS.truthy (field p_opponentID p));
      by rewrite !outboxOf_update_client.
Qed.

Lemma orElse_some_empty x : JS.orElse (Some x) "" = x.
Proof. by destruct x. Qed.

Lemma kBind_other k w q x r pid :
  k_shapes k !! x = Some (r, pid) -> x <> w ->
  OMap.get q (k_clients k) <> Some x ->
  k_shapes (kBind w q (kCancel q k)) !! x = Some (r, pid).
Proof.
  intros Hs Hx Hq. destruct (kCancel_frame q k) as (E1 & E2 & _).
  unfold kBind, kInstall, kClosePrevious. rewrite E2.
  destruct (OMap.get q (k_clients k)) as [prev|];
    [case_bool_decide|]; simpl; rewrite ?E1;
    rewrite !list_lookup_alter_ne by congruence; done.
Qed.

(** X14. [player:state_update] writes to no socket and changes only the
    sender's own record: the name and the opponent when the payload has
    non-empty ones, the location when it has one, and always the last
    state.  The state comes back when the same connection reconnects: the
    opponent it declared, if registered on another open socket that does
    not hold the identifier asked for, is sent [game:resume] with exactly
    the total and history published, as the last event of the
    reconnect. *)
Theorem published_state_is_resumed (s : State) (w ow : nat) (c : ClientInfo)
    (now : Z) (rnd : nat -> N) (p : Payload) (pr : option Payload)
    (o q : string) :
  reachable s -> w ∈ wsToClient s -> clientOf s w = Some c ->
  JS.truthy (p_opponentID p) = Some o ->
  OMap.get o (clients s) = Some ow -> ow <> w -> isOpen s ow = true ->
  field p_playerID pr = Some q -> JS.is4digit q = true ->
  OMap.get q (clients s) <> Some ow ->
  let s1 := handleMessage w now rnd
              {| type := "player:state_update"; payload := Some p |} s in
  let s2 := handleMessage w now rnd
              {| type := "player:reconnect"; payload := pr |} s1 in
  (skel s1 = skel s /\ (forall x, outboxOf s1 x = outboxOf s x) /\
   (forall x, x <> w -> clientOf s1 x = clientOf s x) /\
   (lastState <$> clientOf s1 w)
   = Some (Some {| total := p_total p; history := p_history p |})) /\
  exists pre,
    outboxOf s2 ow
    = outboxOf s ow ++ pre
      ++ [game_resume q (JS.orElse (field p_name pr) ("Player " +:+ q))
            {| total := p_total p; history := p_history p |}].
Proof.
  intros Hr Hw Hc Ht Hg Hne Ho Hf H4 Hq s1 s2.
  pose proof (reachable_Inv s Hr) as HI.
  assert (Hs1 : s1 = handleStateUpdate w (Some p) s)
    by (unfold s1; by rewrite (dispatch_state_update s w c)).
  destruct (handleStateUpdate_session w (Some p) s c Hc) as (Hc1 & Hx1 & Hb1).
  simpl in Hc1. rewrite Ht in Hc1.
  assert (Hk1 : skel s1 = skel s)
    by (rewrite Hs1; apply skel_handleStateUpdate).
  rewrite <- Hs1 in Hc1, Hx1, Hb1.
  split.
  { split; [done|]. split; [done|]. split; [done|]. by rewrite Hc1. }
  assert (Hr1 : reachable s1).
  { unfold s1. apply (reachable_step s (Receive w now rnd _) Hr). }
  assert (HI1 : Inv s1) by (by apply reachable_Inv).
  assert (Hw1 : w ∈ wsToClient s1)
    by (change (w ∈ k_tracked (skel s1)); by rewrite Hk1).
  destruct (handleReconnect_parts w now pr s1 q _ Hc1 Hf H4)
    as (sA & Hs2 & HkA & HcA & HbA).
  assert (Hs : s2 = resumeOpponent w q
                      (sendPlayerOnline now q
                         (socket_send w (player_reconnected q) sA)))
    by (unfold s2; by rewrite (dispatch_reconnect s1 w _ now rnd pr Hw1 Hc1)).
  clearbody s1 s2. subst s2.
  set (sB := socket_send w (player_reconnected q) sA).
  set (sC := sendPlayerOnline now q sB).
  assert (HkC : skel sC = skel sA)
    by (unfold sC, sB; by rewrite skel_sendPlayerOnline, skel_socket_send).
  assert (HcC : forall x, clientOf sC x = clientOf sA x).
  { intros x. unfold sC.
    rewrite (proj2 (proj2 (proj2 (proj2 (proj2
               (sends_only_sendPlayerOnline now q sB)))))).
    apply clientOf_socket_send. }
  assert (o <> q) as Hoq by (intros ->; congruence).
  assert (HgC : OMap.get o (clients sC) = Some ow).
  { change (clients sC) with (k_clients (skel sC)). rewrite HkC, HkA, Hk1.
    unfold kBind, kInstall. simpl. rewrite omap_get_set_ne by done.
    destruct (kCancel_frame q (skel s)) as (_ & E2 & _).
    unfold kClosePrevious. rewrite E2.
    destruct (OMap.get q (k_clients (skel s))) as [prev|];
      [case_bool_decide|]; simpl; by rewrite ?E2. }
  assert (HoC : isOpen sC ow = true).
  { apply isOpen_shape. apply isOpen_shape in Ho as [po Hpo].
    exists po. rewrite HkC, HkA, Hk1. by apply kBind_other. }
  assert (exists pre, outboxOf sC ow = outboxOf s ow ++ pre) as [pre Hpre].
  { destruct (sends_only_sendPlayerOnline now q sB) as (_ & _ & _ & _ & Hp & _).
    destruct (Hp ow) as [pre Hpre]. exists pre. fold sC in Hpre.
    rewrite Hpre. unfold sB.
    rewrite outboxOf_socket_send_ne by done. by rewrite HbA, Hb1. }
  assert (Hto : JS.truthy (Some o) = Some o)
    by (pose proof (truthy_inv _ _ Ht) as E; by rewrite E in Ht).
  exists pre. unfold resumeOpponent.
  rewrite HcC, HcA, decide_True by done. cbn [lastState opponentID name
    set_name set_playerID]. rewrite Hto, HgC, HoC.
  rewrite outboxOf_send, HgC, decide_True, HoC, Hpre by done.
  rewrite orElse_some_empty. by rewrite <- app_assoc.
Qed.

Lemma published_state_is_resumed_witness :
  let p := {| p_name := None; p_playerID := None; p_opponentID := Some "2222";
              p_score := None; p_briskCount := None; p_points := None;
              p_briskValue := None; p_searchTerm := None;
              p_total := Some 120%Z; p_history := Some [JNum 40; JNum 80];
              p_location := None; p_latitude := None; p_longitude := None |} in
  let s1 := handleMessage 0 1700000001000 (fun _ => 0%N)
              {| type := "player:state_update"; payload := Some p |}
              pairedState in
  let s2 := handleMessage 0 1700000001000 (fun _ => 0%N)
              {| type := "player:reconnect";
                 payload := Some (payloadPlayerID "1111") |} s1 in
  exists pre,
    outboxOf s2 1
    = outboxOf pairedState 1 ++ pre
      ++ [game_resume "1111" "Player 1111"
            {| total := Some 120%Z; history := Some [JNum 40; JNum 80] |}].
Proof.
  intros p s1 s2.
  assert (Hr : reachable pairedState) by apply reachable_run, reachable_init.
  assert (Hw : 0 ∈ wsToClient pairedState)
    by (apply (bool_decide_unpack _); vm_compute; exact I).
  set (c := {| playerID := "1111"; name := Some "Player 1111";
               location := None; opponentID := Some "2222";
               lastState := None |}).
  destruct (published_state_is_resumed pairedState 0 1 c 1700000001000
              (fun _ => 0%N) p (Some (payloadPlayerID "1111")) "2222" "1111"
              Hr Hw eq_refl eq_refl eq_refl) as [_ (pre & Hpre)];
    [lia|reflexivity|reflexivity|reflexivity|vm_compute; discriminate|].
  exists pre. exact Hpre.
Defined.

(** ** Renaming ([player:update_name]) *)

(** An open socket that is registered is registered under the identifier
    its session holds. *)
Lemma open_registration s o ow oc :
  Inv s -> OMap.get o (clients s) = Some ow -> isOpen s ow = true ->
  clientOf s ow = Some oc ->
  OMap.get (playerID oc) (clients s) = Some ow.
Proof.
  intros HI Hg Ho Hoc.
  destruct (proj1 (isOpen_shape s ow) Ho) as [q Hq].
  pose proof (inv_open_tracked _ HI _ _ Hq) as Ht.
  destruct (own_registration s ow oc HI Ht Hoc) as [_ Hreg].
  destruct (inv_keys _ HI _ _ Hg) as (_ & r & q' & Hs & H4).
  assert (q' = playerID oc) as ->.
  { rewrite shapes_lookup in Hs. unfold clientOf in Hoc.
    destruct (conns s !! ow) as [cn|]; simpl in *; [|done].
    unfold shape in Hs. by simplify_eq. }
  by rewrite H4 in Hreg.
Qed.

(** X15. [player:update_name] from a tracked socket: the session's name
    becomes the payload's name, else stays what it was, else becomes the
    empty string; nothing else of the registry or of any session changes.
    The notice [player:name_changed], with the sender's identifier and the
    new name, is written once to the socket registered under the sender's
    declared opponent, if that socket is open, and to no other socket: a
    sender with no opponent, or whose opponent is unregistered or closed,
    notifies nobody. *)
Theorem name_change_is_told_to_the_opponent (s : State) (w : nat)
    (c : ClientInfo) (now : Z) (rnd : nat -> N) (p : option Payload) :
  reachable s -> w ∈ wsToClient s -> clientOf s w = Some c ->
  let newName := JS.orElse (field p_name p) (JS.orElse (name c) "") in
  let s' := handleMessage w now rnd
              {| type := "player:update_name"; payload := p |} s in
  skel s' = skel s /\
  clientOf s' w = Some (set_name (Some newName) c) /\
  (forall x, x <> w -> clientOf s' x = clientOf s x) /\
  (forall x,
     outboxOf s' x
     = outboxOf s x
       ++ (if decide (JS.truthy (opponentID c)
                        ≫= (fun o => OMap.get o (clients s)) = Some x)
           then if isOpen s x
                then [player_name_changed (playerID c) newName] else []
           else [])).
Proof.
  intros Hr Hw Hc newName s'. pose proof (reachable_Inv s Hr) as HI.
  subst s'. rewrite (dispatch_update_name s w c now rnd Hw Hc).
  split; [apply skel_handleUpdateName|].
  split; [by apply handleUpdateName_client|].
  unfold handleUpdateName. rewrite Hc. fold newName.
  set (s1 := update_client w (set_name (Some newName)) s).
  assert (Hk1 : skel s1 = skel s) by apply skel_update_client_name.
  assert (Hx1 : forall x, x <> w -> clientOf s1 x = clientOf s x).
  { intros x Hx. unfold s1. by rewrite clientOf_update_client, decide_False. }
  assert (Hb1 : forall x, outboxOf s1 x = outboxOf s x)
    by (intros x; apply outboxOf_update_client).
  assert (Hg1 : clients s1 = clients s) by reflexivity.
  assert (Ho1 : forall x, isOpen s1 x = isOpen s x)
    by (intros x; apply isOpen_update_client).
  assert (HI1 : Inv s1) by (unfold Inv; by rewrite Hk1).
  clearbody s1.
  destruct (JS.truthy (opponentID c)) as [o|]; simpl.
  2:{ split; [done|]. intros x. by rewrite Hb1, app_nil_r. }
  rewrite Hg1.
  destruct (OMap.get o (clients s)) as [ow|] eqn:Hg.
  2:{ split; [done|]. intros x. rewrite decide_False by done.
      by rewrite Hb1, app_nil_r. }
  destruct (clientOf s1 ow) as [oc|] eqn:Hoc.
  2:{ exfalso. rewrite <- Hg1 in Hg.
      destruct (inv_keys _ HI1 _ _ Hg) as (_ & r & q & Hs & _).
      rewrite shapes_lookup in Hs. unfold clientOf in Hoc.
      by destruct (conns s1 !! ow). }
  rewrite Ho1. destruct (isOpen s ow) eqn:Ho.
  2:{ split; [done|]. intros x. rewrite Hb1. case_decide as Hd; [|by rewrite app_nil_r].
      simplify_eq. by rewrite Ho, app_nil_r. }
  assert (Hreg : OMap.get (playerID oc) (clients s1) = Some ow).
  { apply (open_registration s1 o); try done; [by rewrite Hg1|by rewrite Ho1]. }
  split.
  - intros x Hx. by rewrite clientOf_send, Hx1.
  - intros x. rewrite outboxOf_send, Hreg, Ho1, Hb1.
    destruct (decide (ow = x)) as [->|Hne].
    + by rewrite !decide_True, Ho.
    + by rewrite !decide_False by congruence.
Qed.

Lemma name_change_is_told_to_the_opponent_witness :
  let s' := handleMessage 0 1700000001000 (fun _ => 0%N)
              {| type := "player:update_name";
                 payload := Some {| p_name := Some "Ada"; p_playerID := None;
                                 p_opponentID := None; p_score := None;
                                 p_briskCount := None; p_points := None;
                                 p_briskValue := None; p_searchTerm := None;
                                 p_total := None; p_history := None;
                                 p_location := None; p_latitude := None;
                                 p_longitude := None |} |} pairedState in
  outboxOf s' 1 = outboxOf pairedState 1 ++ [player_name_changed "1111" "Ada"] /\
  outboxOf s' 0 = outboxOf pairedState 0.
Proof.
  assert (Hr : reachable pairedState) by apply reachable_run, reachable_init.
  assert (Hw : 0 ∈ wsToClient pairedState)
    by (apply (bool_decide_unpack _); vm_compute; exact I).
  set (c := {| playerID := "1111"; name := Some "Player 1111";
               location := None; opponentID := Some "2222";
               lastState := None |}).
  destruct (name_change_is_told_to_the_opponent pairedState 0 c 1700000001000
              (fun _ => 0%N) (Some {| p_name := Some "Ada"; p_playerID := None;
                                 p_opponentID := None; p_score := None;
                                 p_briskCount := None; p_points := None;
                                 p_briskValue := None; p_searchTerm := None;
                                 p_total := None; p_history := None;
                                 p_location := None; p_latitude := None;
                                 p_longitude := None |}) Hr Hw eq_refl)
    as (_ & _ & _ & Hout).
  split.
  - rewrite (Hout 1). reflexivity.
  - rewrite (Hout 0). vm_compute. reflexivity.
Defined.

(** ** [broadcast] *)

Lemma broadcast_loop e (l : list (string * nat)) s x :
  let s' := fold_left (fun s '(_, w) => if isOpen s w then socket_send w e s
                                        else s) l s in
  skel s' = skel s /\
  clientOf s' x = clientOf s x /\
  outboxOf s' x
  = outboxOf s x
    ++ (if isOpen s x
        then replicate (List.length (filter (fun kv => kv.2 = x) l)) e
        else []).
Proof.
  revert s. induction l as [|[k w] l IH]; intros s; simpl.
  - split; [done|]. split; [done|]. by destruct (isOpen s x); rewrite app_nil_r.
  - set (s1 := if isOpen s w then socket_send w e s else s).
    assert (Hk : skel s1 = skel s)
      by (unfold s1; destruct (isOpen s w); [apply skel_socket_send|done]).
    assert (Hc : clientOf s1 x = clientOf s x)
      by (unfold s1; destruct (isOpen s w); [apply clientOf_socket_send|done]).
    assert (Hb : outboxOf s1 x
                 = outboxOf s x ++ (if decide (w = x)
                                    then if isOpen s x then [e] else []
                                    else [])).
    { unfold s1. destruct (isOpen s w) eqn:Ho.
      - apply outboxOf_socket_send.
      - case_decide; [subst x; rewrite Ho|]; by rewrite app_nil_r. }
    assert (Ho : isOpen s1 x = isOpen s x) by (by apply isOpen_skel).
    clearbody s1. destruct (IH s1) as (E1 & E2 & E3).
    split; [by rewrite E1|]. split; [by rewrite E2|].
    rewrite E3, Hb, Ho, <- app_assoc. f_equal.
    destruct (decide (w = x)) as [->|Hne].
    + rewrite filter_cons_True by done. by destruct (isOpen s x).
    + rewrite filter_cons_False by done. by destruct (isOpen s x).
Qed.

(** X16. [broadcast] changes no session and nothing of the registry; it
    writes the event to every open socket once for each identifier the
    socket is registered under, and to closed sockets not at all.  In a
    reachable state an open socket whose session holds a four-digit
    identifier therefore gets the event at least once, and one whose
    session still has its placeholder identity does not get it. *)
Theorem broadcast_reaches_registered_sockets (s : State) (e : ServerEvent) :
  reachable s ->
  skel (broadcast e s) = skel s /\
  (forall x, clientOf (broadcast e s) x = clientOf s x) /\
  (forall x, outboxOf (broadcast e s) x
             = outboxOf s x
               ++ (if isOpen s x then replicate (registrations s x) e
                   else [])) /\
  (forall x c, isOpen s x = true -> clientOf s x = Some c ->
     if JS.is4digit (playerID c) then 0 < registrations s x
     else registrations s x = 0).
Proof.
  intros Hr. pose proof (reachable_Inv s Hr) as HI. unfold broadcast.
  split; [apply (broadcast_loop e (clients s) s 0)|].
  split; [intros x; apply (broadcast_loop e (clients s) s x)|].
  split; [intros x; apply (broadcast_loop e (clients s) s x)|].
  intros x c Ho Hc. unfold registrations.
  destruct (proj1 (isOpen_shape s x) Ho) as [q Hq].
  pose proof (inv_open_tracked _ HI _ _ Hq) as Ht.
  destruct (own_registration s x c HI Ht Hc) as [_ Hreg].
  destruct (JS.is4digit (playerID c)) eqn:H4.
  - apply omap_get_elem in Hreg.
    assert (Hin : (playerID c, x) ∈ filter (fun kv => kv.2 = x) (clients s))
      by (by apply list_elem_of_filter).
    destruct (filter _ (clients s)); [by apply elem_of_nil in Hin|simpl; lia].
  - destruct (filter (fun kv => kv.2 = x) (clients s)) as [|[k v] l] eqn:E;
      [done|exfalso].
    assert (Hin : (k, v) ∈ filter (fun kv => kv.2 = x) (clients s))
      by (rewrite E; left).
    apply list_elem_of_filter in Hin as [Hv Hin]. simpl in Hv. subst v.
    assert (Hg : OMap.get k (clients s) = Some x)
      by (apply omap_elem_get; [apply (inv_nodup _ HI)|done]).
    destruct (inv_keys _ HI _ _ Hg) as (_ & r & q' & Hs & H4').
    rewrite shapes_lookup in Hs. unfold clientOf in Hc.
    destruct (conns s !! x) as [cn|]; simpl in *; [|done].
    unfold shape in Hs. simplify_eq. congruence.
Qed.

Lemma broadcast_reaches_registered_sockets_witness :
  outboxOf (broadcast (game_error "notice") pairedState) 1
  = outboxOf pairedState 1 ++ [game_error "notice"].
Proof.
  assert (Hr : reachable pairedState) by apply reachable_run, reachable_init.
  destruct (broadcast_reaches_registered_sockets pairedState
              (game_error "notice") Hr) as (_ & _ & Hout & _).
  rewrite (Hout 1). reflexivity.
Defined.

(** ** A socket that was replaced *)








(** ** What a search leaves out *)





(** ** Requests from a session without an identifier *)

(** X19. A session that still has its placeholder identity gets no answer
    to [players:get_all] or [players:search]: the reply is addressed to
    the placeholder, under which no socket is registered, so the message
    changes nothing and writes to no socket. *)
Theorem placeholder_gets_no_listing (s : State) (w : nat) (c : ClientInfo)
    (now : Z) (rnd : nat -> N) (p : option Payload) :
  reachable s -> w ∈ wsToClient s -> clientOf s w = Some c ->
  JS.is4digit (playerID c) = false ->
  handleMessage w now rnd {| type := "players:get_all"; payload := p |} s = s /\
  handleMessage w now rnd {| type := "players:search"; payload := p |} s = s.
Proof.
  intros Hr Hw Hc H4. pose proof (reachable_Inv s Hr) as HI.
  destruct (own_registration s w c HI Hw Hc) as [_ Hreg]. rewrite H4 in Hreg.
  assert (Hsend : forall e, send (playerID c) e s = s)
    by (intros e; unfold send; by rewrite Hreg).
  rewrite (dispatch_get_all s w c now rnd Hw Hc),
    (dispatch_search s w c now rnd Hw Hc).
  split; [apply Hsend|].
  unfold handleSearch. repeat case_match; apply Hsend.
Qed.

Lemma placeholder_gets_no_listing_witness :
  let s := step pairedState (Connection 7 "0.3") in
  handleMessage 2 1700000002000 (fun _ => 0%N)
    {| type := "players:get_all"; payload := None |} s = s /\
  handleMessage 2 1700000002000 (fun _ => 0%N)
    {| type := "players:search"; payload := None |} s = s.
Proof.
  intros s.
  assert (Hr : reachable s)
    by apply reachable_step, reachable_run, reachable_init.
  set (c := {| playerID := "temp_7_0.3"; name := Some "Unknown Player";
               location := None; opponentID := None; lastState := None |}).
  apply (placeholder_gets_no_listing s 2 c 1700000002000 (fun _ => 0%N) None Hr).
  - apply (bool_decide_unpack _). vm_compute. exact I.
  - reflexivity.
  - reflexivity.
Defined.
